(** * Realtime example clients: event handlers, accumulators and tool calls

    A shallow embedding of the four example clients of the repository

    - [StepFun]      : [StepFunRealtimeClient]      (src/index.js)
    - [Interactive]  : [InteractiveRealtimeClient]  (src/interactive.js, first script)
    - [Browser]      : [RealtimeClient]             (src/interactive.js, second script)
    - [ToolCall]     : [ToolCallClient]             (src/tool-call-example.js)

    together with the slice of JavaScript they rely on: dynamically typed
    values, [ToString], [JSON.parse], [JSON.stringify], property lookup
    through [Object.prototype], and [btoa]/[atob].

    Strings are byte strings holding the UTF-8 encoding of the JavaScript
    string.  Every method is a computation in a small monad that threads
    the fields of [this], records the observable effects (console, DOM log,
    socket) in order, and may end in a thrown exception. *)

From Stdlib Require Import String Ascii List ZArith NArith Bool Lia.
From Stdlib Require Import DecimalString QArith.
From Stdlib Require Strings.Byte.
Import ListNotations.

Set Warnings "-register-all".
Local Close Scope Q_scope.
Local Open Scope list_scope.
Local Open Scope string_scope.

(* ================================================================== *)
(** * The JavaScript fragment *)
(* ================================================================== *)

Module JS.

(** Exceptions the scripts can meet. *)
Inductive error : Type :=
| SyntaxError            (* JSON.parse on malformed text *)
| TypeError              (* member of null, non-string chunk, ... *)
| RangeError             (* invalid typed array length *)
| InvalidCharacterError. (* atob on text that is not base64 *)

Inductive completion (A : Type) : Type :=
| Normal (a : A)
| Throw (e : error).
Arguments Normal {A} a.
Arguments Throw {A} e.

Definition cbind {A B} (c : completion A) (k : A -> completion B) : completion B :=
  match c with
  | Normal a => k a
  | Throw e => Throw e
  end.

(** Objects the scripts can reach without creating them: the members every
    plain object inherits from [Object.prototype]. *)
Inductive native : Type :=
| ObjectPrototype
| BuiltinFunction (name : string).

(** A number is kept as the exact decimal [± mantissa * 10 ^ exponent].
    This agrees with the IEEE double JavaScript stores for every literal
    of at most 15 significant digits and moderate exponent. *)
Record number : Type := mkNumber {
  negative : bool;
  mantissa : N;
  exponent : Z
}.

Inductive value : Type :=
| VUndefined
| VNull
| VBool (b : bool)
| VNumber (n : number)
| VString (s : string)
| VArray (elems : list value)
| VObject (props : list (string * value))
| VNative (n : native).

Definition int (z : Z) : value :=
  VNumber (mkNumber (z <? 0)%Z (Z.abs_N z) 0).

(** ** Small string helpers *)

Definition string_of_N (n : N) : string := NilZero.string_of_uint (N.to_uint n).
Definition string_of_nat (n : nat) : string := string_of_N (N.of_nat n).

Fixpoint repeat_string (s : string) (n : nat) : string :=
  match n with
  | O => ""
  | S n' => s ++ repeat_string s n'
  end.

Fixpoint join (sep : string) (l : list string) : string :=
  match l with
  | [] => ""
  | [x] => x
  | x :: rest => x ++ sep ++ join sep rest
  end.

Fixpoint rev_string_onto (s acc : string) : string :=
  match s with
  | EmptyString => acc
  | String c s' => rev_string_onto s' (String c acc)
  end.
Definition rev_string (s : string) : string := rev_string_onto s "".

Fixpoint drop_leading_zeros (s : string) : string * nat :=
  match s with
  | String "0"%char s' => let '(r, n) := drop_leading_zeros s' in (r, S n)
  | _ => (s, O)
  end.

(** [strip_trailing_zeros "1500" = ("15", 2)]. *)
Definition strip_trailing_zeros (s : string) : string * nat :=
  let '(r, n) := drop_leading_zeros (rev_string s) in (rev_string r, n).

(** ** Number::toString (radix 10), ECMA-262 6.1.6.1.20 *)
Definition number_to_string (x : number) : string :=
  if (mantissa x =? 0)%N then "0" else
  let '(ds, tz) := strip_trailing_zeros (string_of_N (mantissa x)) in
  let k := Z.of_nat (String.length ds) in
  let n := (k + exponent x + Z.of_nat tz)%Z in
  let body :=
    if ((k <=? n) && (n <=? 21))%Z then
      ds ++ repeat_string "0" (Z.to_nat (n - k))
    else if ((0 <? n) && (n <=? 21))%Z then
      substring 0 (Z.to_nat n) ds ++ "." ++ substring (Z.to_nat n) (Z.to_nat (k - n)) ds
    else if ((-6 <? n) && (n <=? 0))%Z then
      "0." ++ repeat_string "0" (Z.to_nat (- n)) ++ ds
    else
      let e := (n - 1)%Z in
      let es := (if (e <? 0)%Z then "-" else "+") ++ string_of_N (Z.abs_N e) in
      if (k =? 1)%Z then ds ++ "e" ++ es
      else substring 0 1 ds ++ "." ++ substring 1 (Z.to_nat (k - 1)) ds ++ "e" ++ es
  in (if negative x then "-" else "") ++ body.

(** ** Properties of plain objects *)

Fixpoint own (props : list (string * value)) (key : string) : option value :=
  match props with
  | [] => None
  | (k, v) :: rest => if k =? key then Some v else own rest key
  end.

Definition Object_prototype_functions : list string :=
  [ "constructor"; "__defineGetter__"; "__defineSetter__"; "hasOwnProperty";
    "__lookupGetter__"; "__lookupSetter__"; "isPrototypeOf";
    "propertyIsEnumerable"; "toString"; "valueOf"; "toLocaleString" ].

(** What a plain object answers for a key it does not own. *)
Definition Object_prototype_get (key : string) : value :=
  if key =? "__proto__" then VNative ObjectPrototype
  else if key =? "constructor" then VNative (BuiltinFunction "Object")
  else if existsb (String.eqb key) Object_prototype_functions
       then VNative (BuiltinFunction key)
  else VUndefined.

(** [O[key]] for a plain object [O] with own properties [props]. *)
Definition Get (props : list (string * value)) (key : string) : value :=
  match own props key with
  | Some v => v
  | None => Object_prototype_get key
  end.

(** [v.k] where [k] is one of the field names the scripts read ([type],
    [delta], [text], [transcript], [error], [message], [session],
    [rate_limits], [name], [arguments], [call_id], [location], [sign]).
    None of these is defined on the prototype of an array or of a
    primitive, so the lookup there is [undefined]; on [null] and
    [undefined] it throws. *)
Definition member (v : value) (k : string) : completion value :=
  match v with
  | VUndefined | VNull => Throw TypeError
  | VObject props => Normal (Get props k)
  | VNative _ => Normal (Object_prototype_get k)
  | VBool _ | VNumber _ | VString _ | VArray _ => Normal VUndefined
  end.

(** ** ToBoolean and ToString *)

Definition ToBoolean (v : value) : bool :=
  match v with
  | VUndefined | VNull => false
  | VBool b => b
  | VNumber n => negb (mantissa n =? 0)%N
  | VString s => negb (s =? "")
  | VArray _ | VObject _ | VNative _ => true
  end.

(** [ToString] of a value.  A plain object prints as [[object Object]]
    unless it owns a [toString] property: data never holds a callable, so
    [OrdinaryToPrimitive] then finds no usable method and throws. *)
Fixpoint ToString (v : value) : completion string :=
  match v with
  | VUndefined => Normal "undefined"
  | VNull => Normal "null"
  | VBool true => Normal "true"
  | VBool false => Normal "false"
  | VNumber n => Normal (number_to_string n)
  | VString s => Normal s
  | VArray elems =>
      (fix join_elems (l : list value) : completion string :=
         match l with
         | [] => Normal ""
         | x :: rest =>
             cbind (match x with
                    | VUndefined | VNull => Normal ""
                    | _ => ToString x
                    end)
               (fun a =>
                  match rest with
                  | [] => Normal a
                  | _ => cbind (join_elems rest) (fun b => Normal (a ++ "," ++ b))
                  end)
         end) elems
  | VObject props =>
      match own props "toString" with
      | Some _ => Throw TypeError
      | None => Normal "[object Object]"
      end
  | VNative ObjectPrototype => Normal "[object Object]"
  | VNative (BuiltinFunction name) =>
      Normal ("function " ++ name ++ "() { [native code] }")
  end.

(** Strict equality with a string constant, as in [switch (x) { case '...': }]. *)
Definition is_string (v : value) (s : string) : bool :=
  match v with
  | VString t => t =? s
  | _ => false
  end.

(** ** JSON.stringify, ECMA-262 25.5.2 *)

Definition char (n : N) : string := String (ascii_of_N n) "".
Definition DQUOTE : string := char 34.
Definition BACKSLASH : string := char 92.
Definition LF : string := char 10.

Definition hex_digit (n : N) : string :=
  substring (N.to_nat n) 1 "0123456789abcdef".

(** QuoteJSONString, one byte at a time.  Bytes of a multi-byte UTF-8
    sequence are at least 128 and pass unchanged. *)
Definition quote_char (c : ascii) : string :=
  let n := N_of_ascii c in
  if (n =? 34)%N then BACKSLASH ++ DQUOTE
  else if (n =? 92)%N then BACKSLASH ++ BACKSLASH
  else if (n =? 8)%N then BACKSLASH ++ "b"
  else if (n =? 9)%N then BACKSLASH ++ "t"
  else if (n =? 10)%N then BACKSLASH ++ "n"
  else if (n =? 12)%N then BACKSLASH ++ "f"
  else if (n =? 13)%N then BACKSLASH ++ "r"
  else if (n <? 32)%N then
    BACKSLASH ++ "u00" ++ hex_digit (n / 16) ++ hex_digit (n mod 16)
  else String c "".

Fixpoint quote_body (s : string) : string :=
  match s with
  | EmptyString => ""
  | String c s' => quote_char c ++ quote_body s'
  end.

Definition QuoteJSONString (s : string) : string :=
  DQUOTE ++ quote_body s ++ DQUOTE.

(** [wrap "[" "]" gap stepback parts] lays out the members of an array or
    an object, with or without indentation. *)
Definition wrap (opening closing gap stepback : string) (parts : list string) : string :=
  match parts with
  | [] => opening ++ closing
  | _ =>
      if gap =? "" then opening ++ join "," parts ++ closing
      else
        let indent := stepback ++ gap in
        opening ++ LF ++ indent ++ join ("," ++ LF ++ indent) parts
                ++ LF ++ stepback ++ closing
  end.

(** SerializeJSONProperty: [None] stands for [undefined].  Parsed data and
    the objects the scripts build hold no callable [toJSON]. *)
Fixpoint serialize (gap stepback : string) (v : value) : option string :=
  match v with
  | VUndefined => None
  | VNull => Some "null"
  | VBool true => Some "true"
  | VBool false => Some "false"
  | VNumber n => Some (number_to_string n)
  | VString s => Some (QuoteJSONString s)
  | VArray elems =>
      Some (wrap "[" "]" gap stepback
              (map (fun e =>
                      match serialize gap (stepback ++ gap) e with
                      | Some s => s
                      | None => "null"
                      end) elems))
  | VObject props =>
      Some (wrap "{" "}" gap stepback
              (flat_map (fun kv =>
                           match serialize gap (stepback ++ gap) (snd kv) with
                           | Some s =>
                               [QuoteJSONString (fst kv) ++ ":"
                                  ++ (if gap =? "" then "" else " ") ++ s]
                           | None => []
                           end) props))
  | VNative ObjectPrototype => Some "{}"
  | VNative (BuiltinFunction _) => None
  end.

(** [JSON.stringify(v)] and [JSON.stringify(v, null, 2)]. *)
Definition JSON_stringify (v : value) : option string := serialize "" "" v.
Definition JSON_stringify_2 (v : value) : option string := serialize "  " "" v.

(** A value that may be [undefined], as a value. *)
Definition of_option (o : option string) : value :=
  match o with
  | Some s => VString s
  | None => VUndefined
  end.

(** ** JSON.parse, ECMA-262 25.5.1 (grammar of ECMA-404)

    The text is cut into tokens by a one-pass scanner and the tokens drive
    a pushdown automaton whose stack holds the containers still open.
    Both are folds over their input, so parsing is total. *)

Inductive token : Type :=
| TLBrace | TRBrace | TLBracket | TRBracket | TColon | TComma
| TString (s : string)
| TAtom (v : value).

Definition string_of_rev (l : list ascii) : string :=
  fold_left (fun acc c => String c acc) l "".

Definition is_digit (c : ascii) : bool :=
  let n := N_of_ascii c in ((48 <=? n) && (n <=? 57))%N.

Definition digit_value (c : ascii) : N := (N_of_ascii c - 48)%N.

Definition hex_value (c : ascii) : option N :=
  let n := N_of_ascii c in
  if ((48 <=? n) && (n <=? 57))%N then Some (n - 48)%N
  else if ((65 <=? n) && (n <=? 70))%N then Some (n - 55)%N
  else if ((97 <=? n) && (n <=? 102))%N then Some (n - 87)%N
  else None.

Fixpoint take_digits (l : list ascii) : list ascii * list ascii :=
  match l with
  | c :: rest =>
      if is_digit c then let '(ds, r) := take_digits rest in (c :: ds, r)
      else ([], l)
  | [] => ([], [])
  end.

Definition N_of_digits (ds : list ascii) : N :=
  fold_left (fun acc c => (acc * 10 + digit_value c)%N) ds 0%N.

(** A number literal: an optional minus sign; an integer part, either the
    single digit 0 or digits that do not start with 0; an optional
    fraction, a dot and at least one digit; an optional exponent, e or E,
    an optional sign and at least one digit. *)
Definition parse_number (l : list ascii) : option number :=
  let '(neg, l1) :=
    match l with
    | "-"%char :: r => (true, r)
    | _ => (false, l)
    end in
  let '(ip, l2) := take_digits l1 in
  let int_ok :=
    match ip with
    | [] => false
    | "0"%char :: _ :: _ => false
    | _ => true
    end in
  let '(frac_ok, fp, l3) :=
    match l2 with
    | "."%char :: r =>
        let '(ds, r') := take_digits r in
        (negb (Nat.eqb (List.length ds) 0), ds, r')
    | _ => (true, [], l2)
    end in
  let '(exp_ok, e, l4) :=
    match l3 with
    | c :: r =>
        if (Ascii.eqb c "e" || Ascii.eqb c "E")%bool then
          let '(eneg, r1) :=
            match r with
            | "-"%char :: r' => (true, r')
            | "+"%char :: r' => (false, r')
            | _ => (false, r)
            end in
          let '(ds, r2) := take_digits r1 in
          (negb (Nat.eqb (List.length ds) 0),
           (if eneg then - Z.of_N (N_of_digits ds) else Z.of_N (N_of_digits ds))%Z,
           r2)
        else (true, 0%Z, l3)
    | [] => (true, 0%Z, [])
    end in
  match l4 with
  | [] =>
      if (int_ok && frac_ok && exp_ok)%bool then
        Some (mkNumber neg (N_of_digits (ip ++ fp)%list)
                (e - Z.of_nat (List.length fp))%Z)
      else None
  | _ :: _ => None
  end.

(** The word [true], [false], [null] or a number. *)
Definition atom_of_word (w : list ascii) : option value :=
  let s := string_of_rev (rev w) in
  if s =? "true" then Some (VBool true)
  else if s =? "false" then Some (VBool false)
  else if s =? "null" then Some VNull
  else option_map VNumber (parse_number w).

(** UTF-8 (WTF-8 for a lone surrogate) of a code point, last byte first. *)
Definition utf8_rev (cp : N) : list ascii :=
  let cont (x : N) := ascii_of_N (128 + x mod 64)%N in
  if (cp <? 128)%N then [ascii_of_N cp]
  else if (cp <? 2048)%N then [cont cp; ascii_of_N (192 + cp / 64)%N]
  else if (cp <? 65536)%N then
    [cont cp; cont (cp / 64)%N; ascii_of_N (224 + cp / 4096)%N]
  else
    [cont cp; cont (cp / 64)%N; cont (cp / 4096)%N;
     ascii_of_N (240 + cp / 262144)%N].

(** Append the UTF-16 code unit of a [\uXXXX] escape to the bytes read so
    far ([acc], last byte first).  A low surrogate that follows a high one
    completes a supplementary code point. *)
Definition push_code_unit (acc : list ascii) (cu : N) : list ascii :=
  let plain := (utf8_rev cu ++ acc)%list in
  if ((56320 <=? cu) && (cu <=? 57343))%N then
    match acc with
    | b3 :: b2 :: b1 :: rest =>
        let n1 := N_of_ascii b1 in
        let n2 := N_of_ascii b2 in
        let n3 := N_of_ascii b3 in
        if ((n1 =? 237) && (160 <=? n2) && (n2 <=? 175))%N then
          let hi := (((n2 - 160) * 64) + (n3 - 128))%N in
          (utf8_rev (65536 + hi * 1024 + (cu - 56320)) ++ rest)%list
        else plain
    | _ => plain
    end
  else plain.

Inductive lex_state : Type :=
| LIdle
| LString (acc : list ascii)
| LEscape (acc : list ascii)
| LUnicode (acc : list ascii) (digits : list N)
| LWord (acc : list ascii)
| LError.

Definition is_word_char (c : ascii) : bool :=
  let n := N_of_ascii c in
  (is_digit c || ((65 <=? n) && (n <=? 90))%N || ((97 <=? n) && (n <=? 122))%N
   || (n =? 43)%N || (n =? 45)%N || (n =? 46)%N)%bool.

(** The scanner between tokens. *)
Definition lex_idle (toks : list token) (c : ascii) : lex_state * list token :=
  let n := N_of_ascii c in
  if ((n =? 32) || (n =? 9) || (n =? 10) || (n =? 13))%N then (LIdle, toks)
  else if (n =? 123)%N then (LIdle, TLBrace :: toks)
  else if (n =? 125)%N then (LIdle, TRBrace :: toks)
  else if (n =? 91)%N then (LIdle, TLBracket :: toks)
  else if (n =? 93)%N then (LIdle, TRBracket :: toks)
  else if (n =? 58)%N then (LIdle, TColon :: toks)
  else if (n =? 44)%N then (LIdle, TComma :: toks)
  else if (n =? 34)%N then (LString [], toks)
  else if is_word_char c then (LWord [c], toks)
  else (LError, toks).

(** One character of input.  Tokens are collected last first. *)
Definition lex_step (st : lex_state * list token) (c : ascii) : lex_state * list token :=
  let '(ls, toks) := st in
  let n := N_of_ascii c in
  match ls with
  | LIdle => lex_idle toks c
  | LString acc =>
      if (n =? 34)%N then (LIdle, TString (string_of_rev acc) :: toks)
      else if (n =? 92)%N then (LEscape acc, toks)
      else if (n <? 32)%N then (LError, toks)
      else (LString (c :: acc), toks)
  | LEscape acc =>
      if ((n =? 34) || (n =? 92) || (n =? 47))%N then (LString (c :: acc), toks)
      else if (n =? 98)%N then (LString (ascii_of_N 8 :: acc), toks)
      else if (n =? 102)%N then (LString (ascii_of_N 12 :: acc), toks)
      else if (n =? 110)%N then (LString (ascii_of_N 10 :: acc), toks)
      else if (n =? 114)%N then (LString (ascii_of_N 13 :: acc), toks)
      else if (n =? 116)%N then (LString (ascii_of_N 9 :: acc), toks)
      else if (n =? 117)%N then (LUnicode acc [], toks)
      else (LError, toks)
  | LUnicode acc ds =>
      match hex_value c with
      | None => (LError, toks)
      | Some d =>
          match ds with
          | [d1; d2; d3] =>
              (LString (push_code_unit acc (((d1 * 16 + d2) * 16 + d3) * 16 + d)%N), toks)
          | _ => (LUnicode acc (ds ++ [d])%list, toks)
          end
      end
  | LWord acc =>
      if is_word_char c then (LWord (c :: acc), toks)
      else
        match atom_of_word (rev acc) with
        | Some v => lex_idle (TAtom v :: toks) c
        | None => (LError, toks)
        end
  | LError => (LError, toks)
  end.

Definition chars (s : string) : list ascii := list_ascii_of_string s.

Definition tokenize (s : string) : option (list token) :=
  match fold_left lex_step (chars s) (LIdle, []) with
  | (LIdle, toks) => Some (rev toks)
  | (LWord acc, toks) =>
      option_map (fun v => rev (TAtom v :: toks)) (atom_of_word (rev acc))
  | _ => None
  end.

(** Own property keys are enumerated with array indices first, in
    ascending order, then the other keys in creation order (ECMA-262
    10.1.11).  Objects are kept in that order. *)
Definition array_index (k : string) : option N :=
  let l := chars k in
  match l with
  | [] => None
  | "0"%char :: _ :: _ => None
  | _ =>
      if forallb is_digit l && (List.length l <=? 10)%nat
         && (N_of_digits l <=? 4294967294)%N
      then Some (N_of_digits l) else None
  end.

Fixpoint replace_prop (props : list (string * value)) (k : string) (v : value)
  : list (string * value) :=
  match props with
  | [] => []
  | (k', v') :: rest =>
      if k' =? k then (k, v) :: rest else (k', v') :: replace_prop rest k v
  end.

Fixpoint insert_index (props : list (string * value)) (i : N) (k : string) (v : value)
  : list (string * value) :=
  match props with
  | [] => [(k, v)]
  | (k', v') :: rest =>
      match array_index k' with
      | Some j =>
          if (j <? i)%N then (k', v') :: insert_index rest i k v
          else (k, v) :: props
      | None => (k, v) :: props
      end
  end.

(** CreateDataProperty on a plain object: a repeated key keeps its place
    and takes the new value. *)
Definition set_prop (props : list (string * value)) (k : string) (v : value)
  : list (string * value) :=
  match own props k with
  | Some _ => replace_prop props k v
  | None =>
      match array_index k with
      | Some i => insert_index props i k v
      | None => (props ++ [(k, v)])%list
      end
  end.

(** A container that is still open: the elements of an array read so far
    (last first), or the properties of an object and the key whose value
    is awaited. *)
Inductive frame : Type :=
| FArray (elems : list value)
| FObject (props : list (string * value)) (key : option string).

Inductive parse_state : Type :=
| PValue          (* a value must follow *)
| PValueOrClose   (* after an opening bracket *)
| PKeyOrClose     (* after an opening brace *)
| PKey            (* after a comma inside an object *)
| PColon          (* after a key *)
| PAfter          (* after a value inside a container *)
| PDone (v : value)
| PError.

Definition complete (v : value) (stack : list frame) : list frame * parse_state :=
  match stack with
  | [] => ([], PDone v)
  | FArray elems :: rest => (FArray (v :: elems) :: rest, PAfter)
  | FObject props (Some k) :: rest => (FObject (set_prop props k v) None :: rest, PAfter)
  | FObject _ None :: _ => (stack, PError)
  end.

Definition parse_value_token (allow_close : bool) (stack : list frame) (t : token)
  : list frame * parse_state :=
  match t with
  | TAtom v => complete v stack
  | TString s => complete (VString s) stack
  | TLBracket => (FArray [] :: stack, PValueOrClose)
  | TLBrace => (FObject [] None :: stack, PKeyOrClose)
  | TRBracket =>
      match allow_close, stack with
      | true, FArray elems :: rest => complete (VArray (rev elems)) rest
      | _, _ => (stack, PError)
      end
  | _ => (stack, PError)
  end.

Definition parse_key_token (allow_close : bool) (stack : list frame) (t : token)
  : list frame * parse_state :=
  match t, stack with
  | TString k, FObject props None :: rest => (FObject props (Some k) :: rest, PColon)
  | TRBrace, FObject props None :: rest =>
      if allow_close then complete (VObject props) rest else (stack, PError)
  | _, _ => (stack, PError)
  end.

Definition parse_step (st : list frame * parse_state) (t : token)
  : list frame * parse_state :=
  let '(stack, ps) := st in
  match ps with
  | PValue => parse_value_token false stack t
  | PValueOrClose => parse_value_token true stack t
  | PKeyOrClose => parse_key_token true stack t
  | PKey => parse_key_token false stack t
  | PColon =>
      match t with
      | TColon => (stack, PValue)
      | _ => (stack, PError)
      end
  | PAfter =>
      match t, stack with
      | TComma, FArray _ :: _ => (stack, PValue)
      | TComma, FObject _ None :: _ => (stack, PKey)
      | TRBracket, FArray elems :: rest => complete (VArray (rev elems)) rest
      | TRBrace, FObject props None :: rest => complete (VObject props) rest
      | _, _ => (stack, PError)
      end
  | PDone _ => (stack, PError)
  | PError => (stack, PError)
  end.

(** [JSON.parse(text)] for a string [text]. *)
Definition JSON_parse (text : string) : completion value :=
  match tokenize text with
  | None => Throw SyntaxError
  | Some toks =>
      match fold_left parse_step toks ([], PValue) with
      | (_, PDone v) => Normal v
      | _ => Throw SyntaxError
      end
  end.

(** [JSON.parse(x)] for any [x]: the argument is converted to a string first. *)
Definition JSON_parse_value (x : value) : completion value :=
  cbind (ToString x) JSON_parse.

(** ** String.prototype.trim

    White space and line terminators of ECMA-262 12.2 and 12.3, in UTF-8:
    U+0009 to U+000D and U+0020 are one byte; U+00A0 is two; U+1680,
    U+2000 to U+200A, U+2028, U+2029, U+202F, U+205F, U+3000 and U+FEFF
    are three. *)
Definition is_space1 (c : ascii) : bool :=
  let n := N_of_ascii c in (((9 <=? n) && (n <=? 13)) || (n =? 32))%N.

Definition is_space2 (c1 c2 : ascii) : bool :=
  ((N_of_ascii c1 =? 194) && (N_of_ascii c2 =? 160))%N.

Definition is_space3 (c1 c2 c3 : ascii) : bool :=
  let n1 := N_of_ascii c1 in
  let n2 := N_of_ascii c2 in
  let n3 := N_of_ascii c3 in
  (((n1 =? 225) && (n2 =? 154) && (n3 =? 128))
   || ((n1 =? 226) && (n2 =? 128)
       && (((128 <=? n3) && (n3 <=? 138)) || (n3 =? 168) || (n3 =? 169) || (n3 =? 175)))
   || ((n1 =? 226) && (n2 =? 129) && (n3 =? 159))
   || ((n1 =? 227) && (n2 =? 128) && (n3 =? 128))
   || ((n1 =? 239) && (n2 =? 187) && (n3 =? 191)))%N.

Fixpoint trim_start (l : list ascii) : list ascii :=
  match l with
  | c1 :: r1 =>
      if is_space1 c1 then trim_start r1
      else
        match r1 with
        | c2 :: r2 =>
            if is_space2 c1 c2 then trim_start r2
            else
              match r2 with
              | c3 :: r3 => if is_space3 c1 c2 c3 then trim_start r3 else l
              | [] => l
              end
        | [] => l
        end
  | [] => []
  end.

(** The same from the end, on the reversed bytes. *)
Fixpoint trim_end_rev (l : list ascii) : list ascii :=
  match l with
  | c1 :: r1 =>
      if is_space1 c1 then trim_end_rev r1
      else
        match r1 with
        | c2 :: r2 =>
            if is_space2 c2 c1 then trim_end_rev r2
            else
              match r2 with
              | c3 :: r3 => if is_space3 c3 c2 c1 then trim_end_rev r3 else l
              | [] => l
              end
        | [] => l
        end
  | [] => []
  end.

Definition trim (s : string) : string :=
  string_of_list_ascii (rev (trim_end_rev (rev (trim_start (chars s))))).

(** Writes a JSON text with apostrophes in place of double quotes. *)
Definition dq (s : string) : string :=
  string_of_list_ascii
    (map (fun c => if (N_of_ascii c =? 39)%N then ascii_of_N 34 else c) (chars s)).

(** ** Object spread

    [{ ...a, ...b }] is a fresh object that receives the own enumerable
    properties of [a] and then those of [b], each by CreateDataProperty
    (CopyDataProperties, ECMA-262 7.3.26). *)
Definition CopyDataProperties (target source : list (string * value))
  : list (string * value) :=
  fold_left (fun acc kv => set_prop acc (fst kv) (snd kv)) source target.

End JS.

(* ================================================================== *)
(** * btoa and atob *)
(* ================================================================== *)

(** A binary string is the list of its code units; a [Uint8Array] is a
    list of bytes. *)
Module Base64.

Import JS.

Definition alphabet : string :=
  "ABCDEFGHIJKLMNOPQRSTUVWXYZabcdefghijklmnopqrstuvwxyz0123456789+/".

Definition PAD : ascii := "="%char.

Definition sextet_char (n : N) : ascii :=
  match String.get (N.to_nat n) alphabet with
  | Some c => c
  | None => PAD
  end.

Definition char_sextet (c : ascii) : option N :=
  let n := N_of_ascii c in
  if ((65 <=? n) && (n <=? 90))%N then Some (n - 65)%N
  else if ((97 <=? n) && (n <=? 122))%N then Some (n - 71)%N
  else if ((48 <=? n) && (n <=? 57))%N then Some (n + 4)%N
  else if (n =? 43)%N then Some 62%N
  else if (n =? 47)%N then Some 63%N
  else None.

(** Base64 of a sequence of octets, with padding (RFC 4648, section 4). *)
Fixpoint encode (l : list N) : list ascii :=
  match l with
  | a :: b :: c :: rest =>
      sextet_char (a / 4) :: sextet_char ((a mod 4) * 16 + b / 16)
        :: sextet_char ((b mod 16) * 4 + c / 64) :: sextet_char (c mod 64)
        :: encode rest
  | [a; b] =>
      [sextet_char (a / 4); sextet_char ((a mod 4) * 16 + b / 16);
       sextet_char ((b mod 16) * 4); PAD]
  | [a] => [sextet_char (a / 4); sextet_char ((a mod 4) * 16); PAD; PAD]
  | [] => []
  end%N.

(** [btoa(binary)]: a code unit above 255 is refused. *)
Definition btoa (binary : list N) : completion string :=
  if forallb (fun n => (n <=? 255)%N) binary
  then Normal (string_of_list_ascii (encode binary))
  else Throw InvalidCharacterError.

Definition is_ascii_whitespace (c : ascii) : bool :=
  let n := N_of_ascii c in
  ((n =? 9) || (n =? 10) || (n =? 12) || (n =? 13) || (n =? 32))%N.

(** Step 2 of forgiving-base64 decode: when the length is a multiple of
    four, one or two padding characters at the end are removed. *)
Definition strip_padding (l : list ascii) : list ascii :=
  if (List.length l mod 4 =? 0)%nat then
    match rev l with
    | p1 :: p2 :: r =>
        if Ascii.eqb p1 PAD then
          if Ascii.eqb p2 PAD then rev r else rev (p2 :: r)
        else l
    | [p1] => if Ascii.eqb p1 PAD then [] else l
    | [] => l
    end
  else l.

Fixpoint sextets (l : list ascii) : option (list N) :=
  match l with
  | [] => Some []
  | c :: rest =>
      match char_sextet c, sextets rest with
      | Some n, Some ns => Some (n :: ns)
      | _, _ => None
      end
  end.

(** Four sextets give three octets; two or three left over give one or
    two, the spare bits being dropped. *)
Fixpoint octets (l : list N) : list N :=
  match l with
  | s1 :: s2 :: s3 :: s4 :: rest =>
      (s1 * 4 + s2 / 16) :: ((s2 mod 16) * 16 + s3 / 4) :: ((s3 mod 4) * 64 + s4)
        :: octets rest
  | [s1; s2; s3] => [s1 * 4 + s2 / 16; (s2 mod 16) * 16 + s3 / 4]
  | [s1; s2] => [s1 * 4 + s2 / 16]
  | _ => []
  end%N.

(** [atob(data)] for a string [data]: forgiving-base64 decode of the
    HTML standard. *)
Definition atob (data : string) : completion (list N) :=
  let l := strip_padding (filter (fun c => negb (is_ascii_whitespace c)) (chars data)) in
  if (List.length l mod 4 =? 1)%nat then Throw InvalidCharacterError
  else
    match sextets l with
    | Some ss => Normal (octets ss)
    | None => Throw InvalidCharacterError
    end.

End Base64.

(* ================================================================== *)
(** * Methods as computations *)
(* ================================================================== *)

Module Eff.

Import JS.

(** What a method does to the world, in the order it does it. *)
Inductive effect : Type :=
| ConsoleLog (args : list value)          (* console.log(...args) *)
| ConsoleError (args : list value)        (* console.error(...args) *)
| StdoutWrite (chunk : string)            (* process.stdout.write(chunk) *)
| SocketSend (data : string)              (* this.ws.send(data) *)
| DomLog (message type : string)          (* RealtimeClient.log(message, type);
                                             the page adds the time of day *)
| DomLogCaught (prefix : string) (e : error) (type : string)
                                          (* log(prefix + error.message, type) *)
| ConsoleErrorCaught (label : string) (e : error) (rest : list value)
                                          (* console.error(label, error, ...rest) *)
| TextDisplay (text : string)             (* textContent of #currentText *)
| ClearTimeout (id : N)                   (* clearTimeout(id) *)
| PcmCombined (pcm : list Byte.byte)      (* playAudio has filled [combined] *)
| SocketClose                             (* this.ws.close() *)
| ReadlinePrompt                          (* rl.prompt() *)
| ReadlineClose                           (* rl.close() *)
| ProcessExit (code : Z).                 (* process.exit(code) *)

Section Monad.

(** The fields of [this]. *)
Context {S : Type}.

Record result (A : Type) : Type := mkResult {
  outcome : completion A;
  final : S;
  trace : list effect
}.
Arguments mkResult {A}.
Arguments outcome {A}.
Arguments final {A}.
Arguments trace {A}.

Definition M (A : Type) : Type := S -> result A.

Definition ret {A} (a : A) : M A :=
  fun s => mkResult (Normal a) s [].

Definition bind {A B} (m : M A) (k : A -> M B) : M B :=
  fun s =>
    let r := m s in
    match outcome r with
    | Normal a =>
        let r' := k a (final r) in
        mkResult (outcome r') (final r') (trace r ++ trace r')%list
    | Throw e => mkResult (Throw e) (final r) (trace r)
    end.

Definition get : M S := fun s => mkResult (Normal s) s [].
Definition put (s : S) : M unit := fun _ => mkResult (Normal tt) s [].
Definition emit (e : effect) : M unit := fun s => mkResult (Normal tt) s [e].
Definition throw {A} (e : error) : M A := fun s => mkResult (Throw e) s [].

Definition lift {A} (c : completion A) : M A :=
  match c with
  | Normal a => ret a
  | Throw e => throw e
  end.

(** [try { m } catch (error) { handler(error) }] *)
Definition try_catch (m : M unit) (handler : error -> M unit) : M unit :=
  fun s =>
    let r := m s in
    match outcome r with
    | Normal _ => r
    | Throw e =>
        let r' := handler e (final r) in
        mkResult (outcome r') (final r') (trace r ++ trace r')%list
    end.

(** [switch (v) { case c1: ...; break; ... default: ... }] over string
    labels, every case ending in [break]. *)
Fixpoint switch {A} (v : value) (cases : list (string * M A)) (default : M A)
  : M A :=
  match cases with
  | [] => default
  | (label, body) :: rest =>
      if is_string v label then body else switch v rest default
  end.

(** [for (const x of l) body(x)] *)
Fixpoint for_each {A} (l : list A) (body : A -> M unit) : M unit :=
  match l with
  | [] => ret tt
  | x :: rest => bind (body x) (fun _ => for_each rest body)
  end.

(** [process.stdout.write(chunk)]: Node refuses a chunk that is neither
    a string nor a buffer. *)
Definition stdout_write (chunk : value) : M unit :=
  match chunk with
  | VString s => emit (StdoutWrite s)
  | _ => throw TypeError
  end.

Definition console_log (args : list value) : M unit := emit (ConsoleLog args).
Definition console_error (args : list value) : M unit := emit (ConsoleError args).

End Monad.

Arguments result : clear implicits.
Arguments M : clear implicits.
Arguments mkResult {S A}.
Arguments outcome {S A}.
Arguments final {S A}.
Arguments trace {S A}.

Module Notations.
Declare Scope js_scope.
Delimit Scope js_scope with js.
Notation "x <- m ;; k" := (bind m (fun x => k))
  (at level 61, m at next level, right associativity) : js_scope.
Notation "m ;; k" := (bind m (fun _ => k))
  (at level 61, right associativity) : js_scope.
End Notations.

(** The frame of [this.ws.send(JSON.stringify(event))].  Every event the
    scripts send is an object and has a JSON text; for a value without one
    the ws library sends an empty frame. *)
Definition wire (event : value) : string :=
  match JSON_stringify event with
  | Some data => data
  | None => ""
  end.

(** The messages a computation handed to the socket. *)
Definition sent (t : list effect) : list string :=
  flat_map (fun e => match e with SocketSend d => [d] | _ => [] end) t.

(** The chunks a computation wrote to standard output. *)
Definition written (t : list effect) : list string :=
  flat_map (fun e => match e with StdoutWrite d => [d] | _ => [] end) t.

End Eff.

(* ================================================================== *)
(** * src/index.js: StepFunRealtimeClient *)
(* ================================================================== *)

Module StepFun.

Import JS Eff Eff.Notations.
Local Open Scope js_scope.

(** [this.ws] is the socket whose [open] callback sets [isConnected]; the
    flag is the only field the methods below branch on. *)
Record Client : Type := mkClient { isConnected : bool }.

Definition new_Client : Client := mkClient false.

(** The callbacks [connect] registers on the socket. *)
Definition on_open : M Client unit :=
  console_log [VString "✓ WebSocket 连接成功"] ;;
  put (mkClient true).

Definition on_close : M Client unit :=
  console_log [VString "WebSocket 连接已关闭"] ;;
  put (mkClient false).

Definition send (event : value) : M Client unit :=
  this <- get ;;
  if negb (isConnected this) then
    console_error [VString "WebSocket 未连接"]
  else
    emit (SocketSend (wire event)).

Definition handleServerEvent_cases (event : value) : list (string * M Client unit) :=
  [ ("session.created",
      session <- lift (member event "session") ;;
      console_log [VString "会话已创建:"; session]);
    ("session.updated", console_log [VString "会话已更新"]);
    ("conversation.item.created", console_log [VString "对话项已创建"]);
    ("response.created", console_log [VString "响应开始生成..."]);
    ("response.text.delta",
      delta <- lift (member event "delta") ;;
      stdout_write delta);
    ("response.text.done",
      text <- lift (member event "text") ;;
      console_log [VString (LF ++ "文本生成完成:"); text]);
    ("response.audio.delta", console_log [VString "收到音频数据块"]);
    ("response.audio.done", console_log [VString "音频生成完成"]);
    ("response.done",
      console_log [VString "响应完成"] ;;
      console_log [VString "---"]);
    ("input_audio_buffer.speech_started", console_log [VString "检测到用户开始说话"]);
    ("input_audio_buffer.speech_stopped", console_log [VString "检测到用户停止说话"]);
    ("error",
      err <- lift (member event "error") ;;
      console_error [VString "服务器错误:"; err]) ].

Definition handleServerEvent (event : value) : M Client unit :=
  type <- lift (member event "type") ;;
  console_log [VString (LF ++ "[服务器事件]"); type] ;;
  switch type (handleServerEvent_cases event)
    (console_log [VString "其他事件:"; of_option (JSON_stringify_2 event)]).

(** The tags [handleServerEvent] has a case for. *)
Definition routing_table : list string :=
  map fst (handleServerEvent_cases VUndefined).

(** [ws.on('message', data => handleServerEvent(JSON.parse(data.toString())))] *)
Definition on_message (data : string) : M Client unit :=
  event <- lift (JSON_parse data) ;;
  handleServerEvent event.

Definition user_message (text : value) : value :=
  VObject
    [ ("type", VString "conversation.item.create");
      ("item", VObject
         [ ("type", VString "message");
           ("role", VString "user");
           ("content", VArray
              [ VObject [ ("type", VString "input_text"); ("text", text) ] ]) ]) ].

Definition text_response_request : value :=
  VObject
    [ ("type", VString "response.create");
      ("response", VObject [ ("modalities", VArray [ VString "text" ]) ]) ].

Definition sendTextMessage (text : value) : M Client unit :=
  send (user_message text) ;;
  send text_response_request ;;
  shown <- lift (ToString text) ;;
  console_log [VString ("已发送消息: " ++ shown)].

Definition sendAudioChunk (base64Audio : value) : M Client unit :=
  send (VObject [ ("type", VString "input_audio_buffer.append");
                  ("audio", base64Audio) ]).

Definition commitAudioBuffer : M Client unit :=
  send (VObject [ ("type", VString "input_audio_buffer.commit") ]).

Definition clearAudioBuffer : M Client unit :=
  send (VObject [ ("type", VString "input_audio_buffer.clear") ]).

(** [createResponse(config = {})]: an argument left out is the empty
    object. *)
Definition createResponse (config : value) : M Client unit :=
  let config := match config with
                | VUndefined => VObject []
                | _ => config
                end in
  send (VObject [ ("type", VString "response.create"); ("response", config) ]).

(** ** updateSession *)

Definition defaultConfig : list (string * value) :=
  [ ("modalities", VArray [ VString "text"; VString "audio" ]);
    ("instructions", VString "你是一个友好的AI助手。");
    ("input_audio_format", VString "pcm16");
    ("output_audio_format", VString "pcm16");
    ("turn_detection", VObject
       [ ("type", VString "server_vad");
         ("threshold", VNumber (mkNumber false 5 (-1)));
         ("prefix_padding_ms", int 300);
         ("silence_duration_ms", int 500) ]) ].

(** [{ ...defaultConfig, ...config }] *)
Definition sessionConfig (config : list (string * value)) : list (string * value) :=
  CopyDataProperties (CopyDataProperties [] defaultConfig) config.

Definition session_update (session : value) : value :=
  VObject [ ("type", VString "session.update"); ("session", session) ].

(** [updateSession(config = {})] for a plain object [config], given by its
    own properties; the empty list is also the omitted argument. *)
Definition updateSession (config : list (string * value)) : M Client unit :=
  send (session_update (VObject (sessionConfig config))) ;;
  console_log [VString "已发送会话更新请求"].

End StepFun.

(* ================================================================== *)
(** * src/interactive.js, first script: InteractiveRealtimeClient *)
(* ================================================================== *)

Module Interactive.

Import JS Eff Eff.Notations.
Local Open Scope js_scope.

Record Client : Type := mkClient {
  isConnected : bool;
  currentResponse : string
}.

Definition new_Client : Client := mkClient false "".

Definition set_isConnected (b : bool) : M Client unit :=
  this <- get ;; put (mkClient b (currentResponse this)).

Definition set_currentResponse (r : string) : M Client unit :=
  this <- get ;; put (mkClient (isConnected this) r).

Definition on_open : M Client unit :=
  console_log [VString ("✓ 已连接" ++ LF)] ;;
  set_isConnected true.

Definition showPrompt : M Client unit :=
  stdout_write (VString (LF ++ "你: ")).

Definition handleServerEvent_cases (event : value) : list (string * M Client unit) :=
  [ ("session.created", console_log [VString "会话已创建"]);
    ("session.updated", console_log [VString ("会话配置已更新" ++ LF)]);
    ("response.text.delta",
      delta <- lift (member event "delta") ;;
      stdout_write delta ;;
      this <- get ;;
      appended <- lift (ToString delta) ;;
      set_currentResponse (currentResponse this ++ appended));
    ("response.text.done",
      console_log [VString LF] ;;
      set_currentResponse "");
    ("response.done", showPrompt);
    ("error",
      err <- lift (member event "error") ;;
      message <- lift (member err "message") ;;
      console_error [VString (LF ++ "[错误]"); message] ;;
      showPrompt) ].

(** The switch has no default: an event with any other tag does nothing. *)
Definition handleServerEvent (event : value) : M Client unit :=
  type <- lift (member event "type") ;;
  switch type (handleServerEvent_cases event) (ret tt).

Definition on_message (data : string) : M Client unit :=
  event <- lift (JSON_parse data) ;;
  handleServerEvent event.

Definition send (event : value) : M Client unit :=
  this <- get ;;
  if isConnected this then
    emit (SocketSend (wire event))
  else ret tt.

Definition updateSession (config : value) : M Client unit :=
  send (VObject [ ("type", VString "session.update"); ("session", config) ]).

Definition sendMessage (text : value) : M Client unit :=
  send (StepFun.user_message text) ;;
  send StepFun.text_response_request.

(** [close()], called once [connect] has created the socket. *)
Definition close : M Client unit := emit SocketClose.

(** [rl.close()] runs the [close] listener of the interface. *)
Definition rl_close : M Client unit :=
  emit ReadlineClose ;;
  close ;;
  emit (ProcessExit 0).

(** The [line] listener of [main]: the only place where a message of the
    user is looked at before it is sent. *)
Definition on_line (line : string) : M Client unit :=
  let input := trim line in
  if (input =? "/quit") || (input =? "/exit") then
    console_log [VString "再见！"] ;;
    close ;;
    rl_close
  else if negb (input =? "") then
    console_log [VString (LF ++ "AI: ")] ;;
    sendMessage (VString input)
  else emit ReadlinePrompt.

End Interactive.

(* ================================================================== *)
(** * src/interactive.js, second script: RealtimeClient (browser page) *)
(* ================================================================== *)

Module Browser.

Import JS Eff Eff.Notations.
Local Open Scope js_scope.

(** The fields [handleResponse] and the socket callbacks read or write.
    The recorder fields and the DOM elements are left to the page. *)
Record Client : Type := mkClient {
  isConnected : bool;
  sessId : option string;
  wsId : string;
  currentTextResponse : string;
  currentAudioChunks : list value;
  currentTranscript : string;
  responseTimeout : option N
}.

Definition new_Client : Client := mkClient false None "" "" [] "" None.

Definition set_currentTextResponse (t : string) : M Client unit :=
  c <- get ;;
  put (mkClient (isConnected c) (sessId c) (wsId c) t
         (currentAudioChunks c) (currentTranscript c) (responseTimeout c)).

Definition set_currentAudioChunks (l : list value) : M Client unit :=
  c <- get ;;
  put (mkClient (isConnected c) (sessId c) (wsId c) (currentTextResponse c)
         l (currentTranscript c) (responseTimeout c)).

Definition set_currentTranscript (t : string) : M Client unit :=
  c <- get ;;
  put (mkClient (isConnected c) (sessId c) (wsId c) (currentTextResponse c)
         (currentAudioChunks c) t (responseTimeout c)).

Definition set_responseTimeout (t : option N) : M Client unit :=
  c <- get ;;
  put (mkClient (isConnected c) (sessId c) (wsId c) (currentTextResponse c)
         (currentAudioChunks c) (currentTranscript c) t).

Definition log (message type : string) : M Client unit :=
  emit (DomLog message type).

Definition updateTextDisplay (text : string) : M Client unit :=
  emit (TextDisplay ("💬 " ++ text)).

(** ** playAudio: from base64 chunks to one PCM buffer *)

(** [bytes[i] = n] on a [Uint8Array]. *)
Definition to_uint8 (n : N) : Byte.byte :=
  match Byte.of_N (n mod 256) with
  | Some b => b
  | None => Byte.x00
  end.

(** The callback of [base64Chunks.map]: [atob], then one byte per code unit. *)
Definition decode_chunk (base64 : value) : completion (list Byte.byte) :=
  cbind (ToString base64) (fun text =>
  cbind (Base64.atob text) (fun binary =>
  Normal (map to_uint8 binary))).

Fixpoint decode_chunks (base64Chunks : list value) : completion (list (list Byte.byte)) :=
  match base64Chunks with
  | [] => Normal []
  | c :: rest =>
      cbind (decode_chunk c) (fun bytes =>
      cbind (decode_chunks rest) (fun buffers =>
      Normal (bytes :: buffers)))
  end.

(** [totalLength], summed while decoding. *)
Definition total_length (buffers : list (list Byte.byte)) : nat :=
  fold_left (fun total bytes => total + List.length bytes) buffers 0.

(** [target.set(source, offset)] on typed arrays. *)
Definition typed_array_set (target source : list Byte.byte) (offset : nat)
  : completion (list Byte.byte) :=
  if (offset + List.length source <=? List.length target)%nat then
    Normal (firstn offset target ++ source
              ++ skipn (offset + List.length source) target)%list
  else Throw RangeError.

(** [buffers.forEach(buffer => { combined.set(buffer, offset); offset += buffer.length })] *)
Fixpoint copy_buffers (buffers : list (list Byte.byte)) (combined : list Byte.byte)
  (offset : nat) : completion (list Byte.byte) :=
  match buffers with
  | [] => Normal combined
  | buffer :: rest =>
      cbind (typed_array_set combined buffer offset) (fun combined' =>
      copy_buffers rest combined' (offset + List.length buffer))
  end.

(** Lines 682-700 of [playAudio]: the bytes of all chunks, in one array. *)
Definition combine_chunks (base64Chunks : list value) : completion (list Byte.byte) :=
  cbind (decode_chunks base64Chunks) (fun buffers =>
  copy_buffers buffers (repeat Byte.x00 (total_length buffers)) 0).

(** [playAudio] up to the point where [combined] holds the PCM bytes.
    Creating the audio context, turning the 16-bit samples into floats and
    starting the source are the browser's part and are not modelled; a
    failure there reaches the same [catch]. *)
Definition playAudio (base64Chunks : list value) : M Client unit :=
  match base64Chunks with
  | [] => ret tt
  | _ =>
      log "🔊 开始播放音频..." "system" ;;
      try_catch
        (combined <- lift (combine_chunks base64Chunks) ;;
         emit (PcmCombined combined))
        (fun error =>
           emit (ConsoleErrorCaught "播放音频失败:" error []) ;;
           emit (DomLogCaught "❌ 播放失败: " error "error"))
  end.

(** [arrayBufferToBase64]: one code unit per byte, then [btoa]. *)
Definition arrayBufferToBase64 (buffer : list Byte.byte) : completion string :=
  Base64.btoa (map Byte.to_N buffer).

(** ** handleResponse *)

(** [data.error?.message || data.error || JSON.stringify(data)] *)
Definition error_message (data : value) : completion value :=
  cbind (member data "error") (fun err =>
  cbind (match err with
         | VUndefined | VNull => Normal VUndefined
         | _ => member err "message"
         end) (fun message =>
  Normal (if ToBoolean message then message
          else if ToBoolean err then err
          else of_option (JSON_stringify data)))).

Definition handleResponse_cases (data : value) : list (string * M Client unit) :=
  [ ("session.created", log "✓ StepFun 会话已创建" "system");
    ("session.updated", log "✓ 会话配置已更新" "system");
    ("conversation.item.created", log "📝 对话项已创建" "system");
    ("response.created",
      log "🤖 AI 开始响应..." "system" ;;
      set_currentTextResponse "" ;;
      set_currentAudioChunks [] ;;
      set_currentTranscript "");
    ("response.output_item.added", log "📤 输出项已添加" "system");
    ("response.content_part.added", log "📄 内容部分已添加" "system");
    ("response.text.delta",
      delta <- lift (member data "delta") ;;
      this <- get ;;
      appended <- lift (ToString delta) ;;
      set_currentTextResponse (currentTextResponse this ++ appended) ;;
      this <- get ;;
      updateTextDisplay (currentTextResponse this));
    ("response.text.done",
      log "✓ 文本生成完成" "system" ;;
      text <- lift (member data "text") ;;
      shown <- lift (ToString text) ;;
      log ("📝 完整文本: " ++ shown) "text");
    ("response.audio.delta",
      delta <- lift (member data "delta") ;;
      this <- get ;;
      set_currentAudioChunks (currentAudioChunks this ++ [delta])%list ;;
      this <- get ;;
      log ("🔊 收到音频块 ("
             ++ string_of_nat (List.length (currentAudioChunks this)) ++ ")") "system");
    ("response.audio.done",
      this <- get ;;
      log ("✓ 音频生成完成 (共 "
             ++ string_of_nat (List.length (currentAudioChunks this)) ++ " 块)") "system" ;;
      if (0 <? List.length (currentAudioChunks this))%nat
      then playAudio (currentAudioChunks this)
      else ret tt);
    ("response.audio_transcript.delta",
      delta <- lift (member data "delta") ;;
      this <- get ;;
      appended <- lift (ToString delta) ;;
      set_currentTranscript (currentTranscript this ++ appended) ;;
      this <- get ;;
      log ("📝 转录: " ++ currentTranscript this) "transcript");
    ("response.audio_transcript.done",
      transcript <- lift (member data "transcript") ;;
      shown <- lift (ToString transcript) ;;
      log ("✓ 转录完成: " ++ shown) "transcript");
    ("response.content_part.done", log "✓ 内容部分完成" "system");
    ("response.output_item.done", log "✓ 输出项完成" "system");
    ("response.done",
      log "✅ 响应完全完成" "system" ;;
      log "─────────────────────" "system");
    ("input_audio_buffer.speech_started", log "🎤 检测到语音开始" "system");
    ("input_audio_buffer.speech_stopped", log "🎤 检测到语音结束" "system");
    ("input_audio_buffer.committed", log "✓ 音频缓冲区已提交" "system");
    ("rate_limits.updated",
      limits <- lift (member data "rate_limits") ;;
      console_log [VString "速率限制:"; limits]) ].

Definition handleResponse (data : value) : M Client unit :=
  type <- lift (member data "type") ;;
  console_log [VString "[响应]"; type; data] ;;
  this <- get ;;
  match responseTimeout this with
  | Some id => emit (ClearTimeout id) ;; set_responseTimeout None
  | None => ret tt
  end ;;
  if is_string type "error" then
    errorMsg <- lift (error_message data) ;;
    shown <- lift (ToString errorMsg) ;;
    log ("❌ 错误: " ++ shown) "error"
  else
    switch type (handleResponse_cases data)
      (shown <- lift (ToString type) ;;
       log ("[" ++ shown ++ "] " ++ match JSON_stringify data with
                                    | Some json => json
                                    | None => "undefined"
                                    end) "response").

(** The tags [handleResponse] treats by a branch of its own. *)
Definition routing_table : list string :=
  "error" :: map fst (handleResponse_cases VUndefined).

(** [ws.onmessage]: whatever parsing or handling throws is caught and logged. *)
Definition onmessage (data : string) : M Client unit :=
  this <- get ;;
  console_log [VString ("[" ++ wsId this ++ "] 收到消息")] ;;
  console_log [VString "[原始消息]"; VString data] ;;
  try_catch
    (parsed <- lift (JSON_parse data) ;;
     console_log [VString "[解析后]"; parsed] ;;
     handleResponse parsed)
    (fun error =>
       emit (ConsoleErrorCaught "解析响应失败:" error [VString "原始数据:"; VString data]) ;;
       emit (DomLogCaught "解析响应失败: " error "error")).

(** ** playAudio: from PCM bytes to samples *)

(** [view.getInt16(offset, true)]: two bytes, the low one first, read as
    a signed 16-bit integer. *)
Definition getInt16 (lo hi : Byte.byte) : Z :=
  let u := (Z.of_N (Byte.to_N lo) + 256 * Z.of_N (Byte.to_N hi))%Z in
  if (u <? 32768)%Z then u else (u - 65536)%Z.

(** [view.getInt16(i * 2, true)] for every [i] below the length of
    [new Float32Array(combined.length / 2)], which is the quotient rounded
    down: a last byte without a partner is not read. *)
Fixpoint samples (combined : list Byte.byte) : list Z :=
  match combined with
  | lo :: hi :: rest => getInt16 lo hi :: samples rest
  | _ => []
  end.

(** [int16 / (int16 < 0 ? 0x8000 : 0x7fff)] as an exact quotient; the
    array element is this number rounded to single precision. *)
Definition to_float (int16 : Z) : Q :=
  Qmake int16 (if (int16 <? 0)%Z then 32768 else 32767).

Definition pcm16_to_float (combined : list Byte.byte) : list Q :=
  map to_float (samples combined).

(** ** escapeHtml

    [div.textContent = text] leaves one Text node in the fresh [div] (none
    for the empty string) and [div.innerHTML] serialises it with the
    escaping the HTML standard prescribes for text: the ampersand, the two
    angle brackets and U+00A0 (the bytes C2 A0) become character
    references. *)
Definition is_nbsp (c1 c2 : ascii) : bool :=
  ((N_of_ascii c1 =? 194) && (N_of_ascii c2 =? 160))%N.

Fixpoint escapeHtml (text : string) : string :=
  match text with
  | EmptyString => ""
  | String c rest =>
      let n := N_of_ascii c in
      if (n =? 38)%N then "&amp;" ++ escapeHtml rest
      else if (n =? 60)%N then "&lt;" ++ escapeHtml rest
      else if (n =? 62)%N then "&gt;" ++ escapeHtml rest
      else
        match rest with
        | String c2 rest2 =>
            if is_nbsp c c2 then "&nbsp;" ++ escapeHtml rest2
            else String c (escapeHtml rest)
        | EmptyString => String c ""
        end
  end.

(** ** Audio uploads *)

(** The message [sendAudio], [processRecording] and the continuous
    recorder build for a base64 text; [sessId] is null until the socket
    has opened. *)
Definition audio_message (sessId : option string) (base64 : string) : value :=
  VObject
    [ ("model_type", VString "stepfun");
      ("sess_id", match sessId with
                  | Some id => VString id
                  | None => VNull
                  end);
      ("audio", VString base64) ].

(** [this.ws.send(JSON.stringify(message))] for the bytes of a file or
    of a recording: the frame that is handed to the socket. *)
Definition audio_frame (sessId : option string) (buffer : list Byte.byte)
  : completion string :=
  cbind (arrayBufferToBase64 buffer) (fun base64 =>
  Normal (wire (audio_message sessId base64))).

End Browser.

(* ================================================================== *)
(** * src/tool-call-example.js: ToolCallClient *)
(* ================================================================== *)

Module ToolCall.

Import JS Eff Eff.Notations.
Local Open Scope js_scope.

(** [pendingFunctionCalls] is created empty by the constructor and no
    method reads or writes it. *)
Record Client : Type := mkClient {
  isConnected : bool;
  pendingFunctionCalls : list (value * value)
}.

Definition new_Client : Client := mkClient false [].

Definition on_open : M Client unit :=
  console_log [VString ("✓ 连接成功" ++ LF)] ;;
  this <- get ;;
  put (mkClient true (pendingFunctionCalls this)).

Definition on_close : M Client unit :=
  this <- get ;;
  put (mkClient false (pendingFunctionCalls this)).

Definition send (event : value) : M Client unit :=
  this <- get ;;
  if isConnected this then
    emit (SocketSend (wire event))
  else ret tt.

Definition weather (temperature : Z) (condition : string) (humidity : Z) : value :=
  VObject [ ("temperature", int temperature);
            ("condition", VString condition);
            ("humidity", int humidity) ].

Definition weatherData : list (string * value) :=
  [ ("北京", weather 15 "晴朗" 45);
    ("上海", weather 20 "多云" 60);
    ("深圳", weather 25 "小雨" 75) ].

(** [weatherData[location] || { temperature: 18, ... }].  The key is
    [ToString(location)] and the lookup goes through the prototype of the
    object literal. *)
Definition getWeather (location : value) : completion value :=
  cbind (ToString location) (fun key =>
  let found := Get weatherData key in
  Normal (if ToBoolean found then found else weather 18 "未知" 50)).

(** What [Math.random()] and [new Date()] give during one call of
    [generateHoroscope]: the three draws, already scaled and floored, and
    the local date in the zh-CN format. *)
Record environment : Type := mkEnvironment {
  fortune_draw : N;
  number_draw : N;
  color_draw : N;
  today : string
}.

Definition fortunes : list string :=
  [ "今天是充满机遇的一天，保持积极心态。";
    "财运不错，但要注意理性消费。";
    "感情运势上升，适合表达心意。";
    "工作中可能遇到挑战，保持冷静应对。";
    "健康状况良好，适合户外活动。" ].

Definition colors : list string := [ "红色"; "蓝色"; "绿色"; "紫色" ].

(** The two messages of [returnFunctionResult]. *)
Definition tool_result_submission (callId result : value) : value :=
  VObject
    [ ("type", VString "conversation.item.create");
      ("item", VObject
         [ ("type", VString "function_call_output");
           ("call_id", callId);
           ("output", of_option (JSON_stringify result)) ]) ].

Definition response_request : value :=
  VObject [ ("type", VString "response.create") ].

Definition returnFunctionResult (callId result : value) : M Client unit :=
  console_log [VString "返回结果:"; of_option (JSON_stringify_2 result)] ;;
  send (tool_result_submission callId result) ;;
  send response_request.

Section WithEnvironment.

Variable env : environment.

Definition generateHoroscope (sign : value) : value :=
  VObject
    [ ("sign", sign);
      ("date", VString (today env));
      ("fortune",
        VString (nth (N.to_nat (fortune_draw env mod 5)) fortunes ""));
      ("lucky_number", int (Z.of_N (number_draw env mod 100)));
      ("lucky_color",
        VString (nth (N.to_nat (color_draw env mod 4)) colors "")) ].

Definition handleFunctionCall (event : value) : M Client unit :=
  name <- lift (member event "name") ;;
  argsStr <- lift (member event "arguments") ;;
  call_id <- lift (member event "call_id") ;;
  args <- lift (JSON_parse_value argsStr) ;;
  shown <- lift (ToString name) ;;
  console_log
    [VString (LF ++ "执行函数: " ++ shown ++ "("
                ++ match JSON_stringify args with
                   | Some json => json
                   | None => "undefined"
                   end ++ ")" ++ LF)] ;;
  result <-
    switch name
      [ ("get_weather",
          location <- lift (member args "location") ;;
          lift (getWeather location));
        ("generate_horoscope",
          sign <- lift (member args "sign") ;;
          ret (generateHoroscope sign)) ]
      (ret (VObject [ ("error", VString "未知函数") ])) ;;
  returnFunctionResult call_id result.

Definition handleServerEvent_cases (event : value) : list (string * M Client unit) :=
  let ready := console_log [VString ("会话就绪" ++ LF)] in
  [ ("session.created", ready);
    ("session.updated", ready);
    ("response.function_call_arguments.delta",
      delta <- lift (member event "delta") ;;
      console_log [VString "函数参数:"; delta]);
    ("response.function_call_arguments.done",
      name <- lift (member event "name") ;;
      console_log [VString "函数调用:"; name] ;;
      arguments <- lift (member event "arguments") ;;
      console_log [VString "参数:"; arguments] ;;
      handleFunctionCall event);
    ("response.text.delta",
      delta <- lift (member event "delta") ;;
      stdout_write delta);
    ("response.text.done", console_log [VString LF]);
    ("response.done", console_log [VString ("---" ++ LF)]);
    ("error",
      err <- lift (member event "error") ;;
      console_error [VString "错误:"; err]) ].

Definition handleServerEvent (event : value) : M Client unit :=
  type <- lift (member event "type") ;;
  shown <- lift (ToString type) ;;
  console_log [VString ("[" ++ shown ++ "]")] ;;
  switch type (handleServerEvent_cases event) (ret tt).

(** [ws.on('message', ...)]: nothing catches what the handler throws. *)
Definition on_message (data : string) : M Client unit :=
  event <- lift (JSON_parse data) ;;
  handleServerEvent event.

End WithEnvironment.

Definition updateSession (config : value) : M Client unit :=
  send (VObject [ ("type", VString "session.update"); ("session", config) ]).

Definition sendMessage (text : value) : M Client unit :=
  send (StepFun.user_message text) ;;
  send response_request.

End ToolCall.

(* ================================================================== *)
(** * Vocabulary of the statements *)
(* ================================================================== *)

Import JS Eff.

(** What reaches the socket when [messages] are passed to the [send] of
    the interactive or of the tool-call client, one after the other. *)
Definition on_wire (connected : bool) (messages : list value) : list string :=
  if connected then map wire messages else [].

(** An event as the server writes it: an object whose [type] is the tag. *)
Definition event (tag : string) (fields : list (string * value)) : value :=
  VObject (("type", VString tag) :: fields).

(** An event object with the given tag. *)
Definition tagged (tag : string) (e : value) : Prop :=
  exists props, e = VObject props /\ Get props "type" = VString tag.

(** An event object with the given tag whose [delta] is the string [d]. *)
Definition delta_event (tag : string) (e : value) (d : string) : Prop :=
  exists props,
    e = VObject props /\ Get props "type" = VString tag
    /\ Get props "delta" = VString d.


(** A response.audio.delta event whose [delta] is the base64 text of [bytes]. *)
Definition audio_delta (e : value) (bytes : list Byte.byte) : Prop :=
  exists text,
    Browser.arrayBufferToBase64 bytes = Normal text
    /\ delta_event "response.audio.delta" e text.

(** The fragments of a stream, one after the other. *)
Definition concatenation (fragments : list string) : string :=
  fold_right String.append "" fragments.

(** The events of successive frames, handled in arrival order. *)
Definition Browser_handle_all (events : list value) : M Browser.Client unit :=
  for_each events Browser.handleResponse.


(** What the first lines of [handleResponse] do with a pending timeout. *)
Definition clear_timeout (b : Browser.Client) : list effect :=
  match Browser.responseTimeout b with
  | Some id => [ClearTimeout id]
  | None => []
  end.

Definition timeout_cleared (b : Browser.Client) : Browser.Client :=
  Browser.mkClient (Browser.isConnected b) (Browser.sessId b) (Browser.wsId b)
    (Browser.currentTextResponse b) (Browser.currentAudioChunks b)
    (Browser.currentTranscript b) None.

Definition accumulators_reset (b : Browser.Client) : Browser.Client :=
  Browser.mkClient (Browser.isConnected b) (Browser.sessId b) (Browser.wsId b)
    "" [] "" None.

Definition with_text (b : Browser.Client) (text : string) : Browser.Client :=
  Browser.mkClient (Browser.isConnected b) (Browser.sessId b) (Browser.wsId b)
    text (Browser.currentAudioChunks b) (Browser.currentTranscript b) None.

Definition with_chunks (b : Browser.Client) (chunks : list value) : Browser.Client :=
  Browser.mkClient (Browser.isConnected b) (Browser.sessId b) (Browser.wsId b)
    (Browser.currentTextResponse b) chunks (Browser.currentTranscript b) None.


(** A computation that leaves the field [f] of the client as it was,
    however it ends. *)
Definition keeps {S X A} (f : S -> X) (m : M S A) : Prop :=
  forall s, f (final (m s)) = f s.

(** The tag of a parsed frame is the given one. *)
Definition tag_is (data : value) (tag : string) : bool :=
  match member data "type" with
  | Normal type => is_string type tag
  | Throw _ => false
  end.

(** The text the page holds after one more frame: response.created
    empties it, a response.text.delta with a printable delta extends it,
    and nothing else touches it. *)
Definition text_after (text frame : string) : string :=
  match JSON_parse frame with
  | Normal data =>
      if tag_is data "response.created" then ""
      else if tag_is data "response.text.delta" then
        match cbind (member data "delta") ToString with
        | Normal fragment => text ++ fragment
        | Throw _ => text
        end
      else text
  | Throw _ => text
  end.

(** The chunk list of the page after one more frame: response.created
    empties it, a response.audio.delta appends its delta, whatever that
    is, and nothing else touches it. *)
Definition chunks_after (chunks : list value) (frame : string) : list value :=
  match JSON_parse frame with
  | Normal data =>
      if tag_is data "response.created" then []
      else if tag_is data "response.audio.delta" then
        match member data "delta" with
        | Normal delta => (chunks ++ [delta])%list
        | Throw _ => chunks
        end
      else chunks
  | Throw _ => chunks
  end.

(** The frames of the socket, received in order. *)
Definition Browser_receive_all (frames : list string) : M Browser.Client unit :=
  for_each frames Browser.onmessage.

(** A warning on the console. *)
Definition warned (t : list effect) : Prop :=
  exists args, In (ConsoleError args) t \/ In (ConsoleLog args) t.

(** A protocol violation would have to show as a thrown error or as an
    entry of type error in the log of the page. *)
Definition signalled {A} (r : result Browser.Client A) : Prop :=
  (exists e, outcome r = Throw e)
  \/ (exists message, In (DomLog message "error") (trace r))
  \/ (exists prefix e, In (DomLogCaught prefix e "error") (trace r)).

(** [es] happened, then [r]. *)
Definition prepend {S A} (es : list effect) (r : result S A) : result S A :=
  mkResult (outcome r) (final r) (es ++ trace r)%list.

(** An octet, as a number. *)
Definition octet (n : N) : Prop := (n <= 255)%N.

(** The sextets [Base64.encode] writes, before they become characters,
    and the padding it adds. *)
Fixpoint sextets_of (l : list N) : list N :=
  match l with
  | a :: b :: c :: rest =>
      a / 4 :: (a mod 4) * 16 + b / 16 :: (b mod 16) * 4 + c / 64 :: c mod 64
        :: sextets_of rest
  | [a; b] => [a / 4; (a mod 4) * 16 + b / 16; (b mod 16) * 4]
  | [a] => [a / 4; (a mod 4) * 16]
  | [] => []
  end%N.

Fixpoint padding_of (l : list N) : list ascii :=
  match l with
  | _ :: _ :: _ :: rest => padding_of rest
  | [_; _] => [Base64.PAD]
  | [_] => [Base64.PAD; Base64.PAD]
  | [] => []
  end.

(** What the round trip needs of one character of the alphabet. *)
Definition sextet_ok (n : N) : bool :=
  negb (Base64.is_ascii_whitespace (Base64.sextet_char n))
  && negb (Ascii.eqb (Base64.sextet_char n) Base64.PAD)
  && match Base64.char_sextet (Base64.sextet_char n) with
     | Some m => (m =? n)%N
     | None => false
     end.

(** The effect is a write to the socket. *)
Definition is_send (e : effect) : bool :=
  match e with
  | SocketSend _ => true
  | _ => false
  end.

(** The effect ends the connection or the process. *)
Definition is_shutdown (e : effect) : bool :=
  match e with
  | SocketClose | ReadlineClose | ProcessExit _ => true
  | _ => false
  end.

(** A computation none of whose effects satisfies [p], however it ends. *)
Definition never {S A} (p : effect -> bool) (m : M S A) : Prop :=
  forall s, existsb p (trace (m s)) = false.

(** The effect cancels a timer. *)
Definition is_clear (e : effect) : bool :=
  match e with
  | ClearTimeout _ => true
  | _ => false
  end.

(** The timers a computation cancelled. *)
Definition cleared (t : list effect) : list N :=
  flat_map (fun e => match e with ClearTimeout id => [id] | _ => [] end) t.


(** What [handleResponse] does once the console line is written and the
    pending timeout is dropped: the error branch, or the [switch]. *)
Definition Browser_branch (data type : value) : M Browser.Client unit :=
  if is_string type "error" then
    bind (lift (Browser.error_message data)) (fun errorMsg =>
    bind (lift (ToString errorMsg)) (fun shown =>
    Browser.log ("❌ 错误: " ++ shown) "error"))
  else
    switch type (Browser.handleResponse_cases data)
      (bind (lift (ToString type)) (fun shown =>
       Browser.log ("[" ++ shown ++ "] "
                      ++ match JSON_stringify data with
                         | Some json => json
                         | None => "undefined"
                         end) "response")).

(** The connection of the page: the flag, the session id, the socket id. *)
Definition connection (b : Browser.Client) : bool * option string * string :=
  (Browser.isConnected b, Browser.sessId b, Browser.wsId b).

(** The fields no branch of [handleResponse] writes. *)
Definition untouched_by_branches (b : Browser.Client)
  : bool * option string * string * option N :=
  (Browser.isConnected b, Browser.sessId b, Browser.wsId b, Browser.responseTimeout b).

(** The frame parses to a value that has a [type] to read: any JSON text
    but null. *)
Definition carries_event (frame : string) : bool :=
  match JSON_parse frame with
  | Normal data =>
      match member data "type" with
      | Normal _ => true
      | Throw _ => false
      end
  | Throw _ => false
  end.

(** The timer that is pending, if any. *)
Definition pending (b : Browser.Client) : list N :=
  match Browser.responseTimeout b with
  | Some id => [id]
  | None => []
  end.

Definition with_transcript (b : Browser.Client) (transcript : string) : Browser.Client :=
  Browser.mkClient (Browser.isConnected b) (Browser.sessId b) (Browser.wsId b)
    (Browser.currentTextResponse b) (Browser.currentAudioChunks b) transcript None.

(** The transcript the page holds after one more frame: response.created
    empties it, a response.audio_transcript.delta with a printable delta
    extends it, and nothing else touches it. *)
Definition transcript_after (transcript frame : string) : string :=
  match JSON_parse frame with
  | Normal data =>
      if tag_is data "response.created" then ""
      else if tag_is data "response.audio_transcript.delta" then
        match cbind (member data "delta") ToString with
        | Normal fragment => transcript ++ fragment
        | Throw _ => transcript
        end
      else transcript
  | Throw _ => transcript
  end.

(** The four character references [escapeHtml] writes, read back as an
    HTML parser reads them; [skip] counts the characters of a reference
    that are still to be passed over. *)
Fixpoint decode_references (skip : nat) (html : string) : string :=
  match html with
  | EmptyString => ""
  | String c rest =>
      match skip with
      | S k => decode_references k rest
      | O =>
          if (N_of_ascii c =? 38)%N then
            if prefix "amp;" rest then String "&" (decode_references 4 rest)
            else if prefix "lt;" rest then String "<" (decode_references 3 rest)
            else if prefix "gt;" rest then String ">" (decode_references 3 rest)
            else if prefix "nbsp;" rest then
              String (ascii_of_N 194) (String (ascii_of_N 160) (decode_references 5 rest))
            else String c (decode_references 0 rest)
          else String c (decode_references 0 rest)
      end
  end.

(** ** JSON data that survives a round trip as it is

    Keys that [JSON.parse] would add one after the other: no key twice and
    no array index among them. *)
Fixpoint well_keyed (seen keys : list string) : bool :=
  match keys with
  | [] => true
  | k :: rest =>
      negb (existsb (String.eqb k) seen)
      && match array_index k with
         | Some _ => false
         | None => true
         end
      && well_keyed (k :: seen) rest
  end.

(** Strings, booleans, null, and arrays and objects of these. *)
Fixpoint plain (v : value) : bool :=
  match v with
  | VNull | VBool _ | VString _ => true
  | VArray elems => forallb plain elems
  | VObject props =>
      forallb (fun kv => plain (snd kv)) props && well_keyed [] (map fst props)
  | VUndefined | VNumber _ | VNative _ => false
  end.

Fixpoint tokens_join (parts : list (list token)) : list token :=
  match parts with
  | [] => []
  | [x] => x
  | x :: rest => (x ++ TComma :: tokens_join rest)%list
  end.

(** The tokens of the JSON text of a value. *)
Fixpoint tokens_of (v : value) : list token :=
  match v with
  | VString s => [TString s]
  | VArray elems =>
      (TLBracket :: tokens_join (map tokens_of elems) ++ [TRBracket])%list
  | VObject props =>
      (TLBrace
         :: tokens_join
              (map (fun kv => TString (fst kv) :: TColon :: tokens_of (snd kv)) props)
         ++ [TRBrace])%list
  | other => [TAtom other]
  end.

(** The text goes on with a comma or a closing bracket or brace. *)
Definition delimited (rest : list ascii) : Prop :=
  match rest with
  | [] => False
  | c :: _ => N_of_ascii c = 44%N \/ N_of_ascii c = 93%N \/ N_of_ascii c = 125%N
  end.

(** Scanning [text] from between two tokens yields [toks] and ends
    between two tokens: whatever follows, or, for [lexes], when a
    delimiter follows. *)
Definition lexes_closed (text : string) (toks : list token) : Prop :=
  forall rest toks0,
    fold_left lex_step (chars text ++ rest)%list (LIdle, toks0)
    = fold_left lex_step rest (LIdle, (rev toks ++ toks0)%list).

Definition lexes (text : string) (toks : list token) : Prop :=
  forall rest toks0,
    delimited rest ->
    fold_left lex_step (chars text ++ rest)%list (LIdle, toks0)
    = fold_left lex_step rest (LIdle, (rev toks ++ toks0)%list).

(** What the parser does with the tokens of a value, where a value may
    stand. *)
Definition parses (v : value) : Prop :=
  forall stack (allow : bool) rest,
    fold_left parse_step (tokens_of v ++ rest)%list
      (stack, if allow then PValueOrClose else PValue)
    = fold_left parse_step rest (complete v stack).

(** No white space at the start of the bytes; at the end, for the
    reversed bytes. *)
Definition clean_start (l : list ascii) : Prop :=
  match l with
  | [] => True
  | c1 :: r1 =>
      is_space1 c1 = false
      /\ match r1 with
         | [] => True
         | c2 :: r2 =>
             is_space2 c1 c2 = false
             /\ match r2 with
                | [] => True
                | c3 :: _ => is_space3 c1 c2 c3 = false
                end
         end
  end.

Definition clean_end_rev (l : list ascii) : Prop :=
  match l with
  | [] => True
  | c1 :: r1 =>
      is_space1 c1 = false
      /\ match r1 with
         | [] => True
         | c2 :: r2 =>
             is_space2 c2 c1 = false
             /\ match r2 with
                | [] => True
                | c3 :: _ => is_space3 c3 c2 c1 = false
                end
         end
  end.

(** Concrete inputs for the examples. *)
Module Samples.

Definition environment : ToolCall.environment :=
  ToolCall.mkEnvironment 7 142 9 "2024/5/1".

Definition arguments_done (name call_id arguments : string) : value :=
  event "response.function_call_arguments.done"
    [ ("name", VString name);
      ("call_id", VString call_id);
      ("arguments", VString arguments) ].

Definition connected_tool_client : ToolCall.Client := ToolCall.mkClient true [].

Definition hello : value := StepFun.user_message (VString "hi").

Definition created : value := event "response.created" [].

Definition text_delta (d : string) : value :=
  event "response.text.delta" [("delta", VString d)].

Definition audio_delta_of (base64 : string) : value :=
  event "response.audio.delta" [("delta", VString base64)].

(** A page in the middle of a response: one fragment has arrived. *)
Definition open_response : Browser.Client :=
  final (Browser_handle_all [created; text_delta "Hel"] Browser.new_Client).

(** The four bytes of the word test, in two chunks. *)
Definition pcm_chunks : list (list Byte.byte) :=
  [ [Byte.x74; Byte.x65]; [Byte.x73; Byte.x74] ].

End Samples.

(* ================================================================== *)
(** * Laws of the computations *)
(* ================================================================== *)

Section MonadLaws.

Context {S : Type}.
Implicit Types s : S.

Lemma prepend_prepend {A} es es' (r : result S A) :
  prepend es (prepend es' r) = prepend (es ++ es')%list r.
Proof. unfold prepend; simpl. now rewrite app_assoc. Qed.

Lemma bind_run {A B} (m : M S A) (k : A -> M S B) s a s' es :
  m s = mkResult (Normal a) s' es ->
  bind m k s = prepend es (k a s').
Proof. intros H. unfold bind. rewrite H. reflexivity. Qed.

Lemma bind_run_throw {A B} (m : M S A) (k : A -> M S B) s e s' es :
  m s = mkResult (Throw e) s' es ->
  bind m k s = mkResult (Throw e) s' es.
Proof. intros H. unfold bind. rewrite H. reflexivity. Qed.

Lemma bind_normal {A B} (m : M S A) (k : A -> M S B) s a :
  outcome (m s) = Normal a ->
  bind m k s = prepend (trace (m s)) (k a (final (m s))).
Proof. intros H. unfold bind. rewrite H. reflexivity. Qed.

Lemma bind_lift {A B} (c : completion A) (k : A -> M S B) s :
  bind (lift c) k s
  = match c with
    | Normal a => k a s
    | Throw e => mkResult (Throw e) s []
    end.
Proof. destruct c; unfold bind; simpl; [destruct (k a s)|]; reflexivity. Qed.

Lemma bind_get {B} (k : S -> M S B) s : bind get k s = k s s.
Proof. unfold bind; simpl. destruct (k s s); reflexivity. Qed.

Lemma bind_put {B} (k : unit -> M S B) s s' : bind (put s') k s = k tt s'.
Proof. unfold bind; simpl. destruct (k tt s'); reflexivity. Qed.

Lemma bind_ret {A B} (a : A) (k : A -> M S B) s : bind (ret a) k s = k a s.
Proof. unfold bind; simpl. destruct (k a s); reflexivity. Qed.

Lemma bind_emit {B} (e : effect) (k : unit -> M S B) s :
  bind (emit e) k s = prepend [e] (k tt s).
Proof. reflexivity. Qed.

Lemma bind_console_log {B} args (k : unit -> M S B) s :
  bind (console_log args) k s = prepend [ConsoleLog args] (k tt s).
Proof. reflexivity. Qed.

Lemma bind_assoc {A B C} (m : M S A) (k : A -> M S B) (h : B -> M S C) s :
  bind (bind m k) h s = bind m (fun a => bind (k a) h) s.
Proof.
  unfold bind. destruct (m s) as [[a|e] s1 t1]; simpl; [|reflexivity].
  destruct (k a s1) as [[b|e] s2 t2]; simpl; [|reflexivity].
  now rewrite app_assoc.
Qed.


Lemma for_each_cons_run {A} (body : A -> M S unit) x rest s s' es :
  body x s = mkResult (Normal tt) s' es ->
  for_each (x :: rest) body s = prepend es (for_each rest body s').
Proof. intros H. cbn [for_each]. now rewrite (bind_run _ _ _ _ _ _ H). Qed.

Lemma for_each_app {A} (body : A -> M S unit) l1 l2 s :
  for_each (l1 ++ l2) body s
  = bind (for_each l1 body) (fun _ => for_each l2 body) s.
Proof.
  revert s. induction l1 as [|x l1 IH]; intros s.
  - cbn [app for_each]. now rewrite bind_ret.
  - cbn [app for_each]. rewrite bind_assoc.
    destruct (body x s) as [[[]|e] s1 t1] eqn:E.
    + rewrite !(bind_run _ _ _ _ _ _ E). now rewrite IH.
    + now rewrite !(bind_run_throw _ _ _ _ _ _ E).
Qed.

End MonadLaws.

Lemma sent_app (a b : list effect) : sent (a ++ b) = (sent a ++ sent b)%list.
Proof. unfold sent. apply flat_map_app. Qed.



Lemma append_assoc (a b c : string) : (a ++ b) ++ c = a ++ (b ++ c).
Proof. induction a as [|x a IH]; cbn; [reflexivity|now rewrite IH]. Qed.

Lemma append_nil_r (a : string) : a ++ "" = a.
Proof. induction a as [|x a IH]; cbn; [reflexivity|now rewrite IH]. Qed.

Lemma is_string_neq name label :
  name <> label -> is_string (VString name) label = false.
Proof. intros H. simpl. now apply String.eqb_neq. Qed.


(** An object always serialises. *)
Lemma JSON_stringify_object props :
  JSON_stringify (VObject props) = Some (wire (VObject props)).
Proof. reflexivity. Qed.

(** One step of a method body. *)
Ltac mstep :=
  repeat first
    [ rewrite bind_lift | rewrite bind_console_log | rewrite bind_get
    | rewrite bind_put | rewrite bind_ret | rewrite bind_emit
    | rewrite bind_assoc | rewrite prepend_prepend ].

(** Selects the case of a [switch] on a known tag. *)
Ltac run_switch :=
  cbn [switch is_string String.eqb Ascii.eqb Bool.eqb
       ToolCall.handleServerEvent_cases Browser.handleResponse_cases
       StepFun.handleServerEvent_cases Interactive.handleServerEvent_cases].

(* ================================================================== *)
(** * send *)
(* ================================================================== *)

Lemma StepFun_send_connected event c :
  StepFun.isConnected c = true ->
  StepFun.send event c = mkResult (Normal tt) c [SocketSend (wire event)].
Proof. intros H. unfold StepFun.send. now rewrite bind_get, H. Qed.

Lemma Interactive_send_trace event i :
  Interactive.send event i
  = mkResult (Normal tt) i
      (map SocketSend (on_wire (Interactive.isConnected i) [event])).
Proof.
  unfold Interactive.send. rewrite bind_get.
  destruct (Interactive.isConnected i); reflexivity.
Qed.

Lemma ToolCall_send_trace event t :
  ToolCall.send event t
  = mkResult (Normal tt) t
      (map SocketSend (on_wire (ToolCall.isConnected t) [event])).
Proof.
  unfold ToolCall.send. rewrite bind_get.
  destruct (ToolCall.isConnected t); reflexivity.
Qed.

(** C3 (as the code has it).  While [isConnected] is false, [send] hands
    nothing to the socket, leaves the client as it was and returns normally
    in all three scripts; no error is raised or returned.  Only the client of
    index.js reports the drop, by one console.error line; the clients of
    interactive.js and tool-call-example.js drop the message silently.  The
    drop is recoverable: once the socket has opened, the same call passes
    the message on. *)
Theorem C3_send_while_disconnected (event : value)
  (c : StepFun.Client) (i : Interactive.Client) (t : ToolCall.Client) :
  StepFun.isConnected c = false ->
  Interactive.isConnected i = false ->
  ToolCall.isConnected t = false ->
  StepFun.send event c
    = mkResult (Normal tt) c [ConsoleError [VString "WebSocket 未连接"]]
  /\ Interactive.send event i = mkResult (Normal tt) i []
  /\ ToolCall.send event t = mkResult (Normal tt) t []
  /\ sent (trace (StepFun.send event (final (StepFun.on_open c)))) = [wire event]
  /\ sent (trace (Interactive.send event (final (Interactive.on_open i)))) = [wire event]
  /\ sent (trace (ToolCall.send event (final (ToolCall.on_open t)))) = [wire event].
Proof.
  intros Hc Hi Ht.
  unfold StepFun.send, Interactive.send, ToolCall.send.
  rewrite !bind_get, Hc, Hi, Ht. repeat split.
Qed.

Lemma C3_send_while_disconnected_witness :
  StepFun.isConnected StepFun.new_Client = false
  /\ Interactive.isConnected Interactive.new_Client = false
  /\ ToolCall.isConnected ToolCall.new_Client = false
  /\ sent (trace (StepFun.send Samples.hello StepFun.new_Client)) = []
  /\ trace (Interactive.send Samples.hello Interactive.new_Client) = [].
Proof.
  destruct (C3_send_while_disconnected Samples.hello
              StepFun.new_Client Interactive.new_Client ToolCall.new_Client
              eq_refl eq_refl eq_refl) as [E1 [E2 _]].
  rewrite E1, E2. repeat split.
Defined.

(** C3 as stated fails: the interactive client is not connected, [send]
    returns normally and nothing at all is written, so there is no warning
    and no failure the caller could see. *)
Lemma C3_interactive_send_drops_silently :
  Interactive.isConnected Interactive.new_Client = false
  /\ outcome (Interactive.send Samples.hello Interactive.new_Client) = Normal tt
  /\ ~ warned (trace (Interactive.send Samples.hello Interactive.new_Client)).
Proof.
  split; [reflexivity|]. split; [reflexivity|].
  intros [args [H|H]]; exact H.
Qed.

(* ================================================================== *)
(** * Events of the browser page and of the interactive client *)
(* ================================================================== *)

(** The part of [handleResponse] every event goes through: the console
    line, the pending timeout, and the choice of a branch. *)
Lemma handleResponse_prologue props tag b :
  Get props "type" = VString tag ->
  Browser.handleResponse (VObject props) b
  = prepend (ConsoleLog [VString "[响应]"; VString tag; VObject props] :: clear_timeout b)
      ((if is_string (VString tag) "error" then
          bind (lift (Browser.error_message (VObject props))) (fun errorMsg =>
          bind (lift (ToString errorMsg)) (fun shown =>
          Browser.log ("❌ 错误: " ++ shown) "error"))
        else
          switch (VString tag) (Browser.handleResponse_cases (VObject props))
            (bind (lift (ToString (VString tag))) (fun shown =>
             Browser.log ("[" ++ shown ++ "] "
                            ++ match JSON_stringify (VObject props) with
                               | Some json => json
                               | None => "undefined"
                               end) "response")))
         (timeout_cleared b)).
Proof.
  intros Htype. unfold Browser.handleResponse.
  mstep. cbn [member]. rewrite Htype. mstep.
  unfold clear_timeout, timeout_cleared.
  destruct b as [ic sid wid txt chunks tr [id|]]; cbn [Browser.responseTimeout].
  - unfold Browser.set_responseTimeout. mstep. reflexivity.
  - mstep. reflexivity.
Qed.

Lemma handleResponse_created props b :
  Get props "type" = VString "response.created" ->
  Browser.handleResponse (VObject props) b
  = mkResult (Normal tt) (accumulators_reset b)
      (ConsoleLog [VString "[响应]"; VString "response.created"; VObject props]
         :: clear_timeout b ++ [DomLog "🤖 AI 开始响应..." "system"])%list.
Proof.
  intros Htype. rewrite (handleResponse_prologue props _ b Htype).
  cbn [is_string String.eqb Ascii.eqb Bool.eqb]. run_switch.
  unfold Browser.log, Browser.set_currentTextResponse, Browser.set_currentAudioChunks,
    Browser.set_currentTranscript.
  mstep. destruct b as [ic sid wid txt chunks tr [id|]]; reflexivity.
Qed.

Lemma handleResponse_text_delta props d b :
  Get props "type" = VString "response.text.delta" ->
  ToString (Get props "delta") = Normal d ->
  Browser.handleResponse (VObject props) b
  = mkResult (Normal tt) (with_text b (Browser.currentTextResponse b ++ d))
      (ConsoleLog [VString "[响应]"; VString "response.text.delta"; VObject props]
         :: clear_timeout b
         ++ [TextDisplay ("💬 " ++ Browser.currentTextResponse b ++ d)])%list.
Proof.
  intros Htype Hdelta. rewrite (handleResponse_prologue props _ b Htype).
  cbn [is_string String.eqb Ascii.eqb Bool.eqb]. run_switch.
  unfold Browser.updateTextDisplay, Browser.set_currentTextResponse.
  mstep. cbn [member]. mstep. rewrite Hdelta. mstep.
  destruct b as [ic sid wid txt chunks tr [id|]]; reflexivity.
Qed.

(** A delta that cannot be printed makes the handler throw before the
    text is touched. *)
Lemma handleResponse_text_delta_throws props e b :
  Get props "type" = VString "response.text.delta" ->
  ToString (Get props "delta") = Throw e ->
  Browser.handleResponse (VObject props) b
  = mkResult (Throw e) (timeout_cleared b)
      (ConsoleLog [VString "[响应]"; VString "response.text.delta"; VObject props]
         :: clear_timeout b)%list.
Proof.
  intros Htype Hdelta. rewrite (handleResponse_prologue props _ b Htype).
  cbn [is_string String.eqb Ascii.eqb Bool.eqb]. run_switch.
  mstep. cbn [member]. mstep. rewrite Hdelta.
  destruct b as [ic sid wid txt chunks tr [id|]]; reflexivity.
Qed.











(** X28.  The handlers of the interactive client and of the tool-call
    client have no default branch.  An event whose tag has no case is
    dropped: the interactive client does nothing at all, the tool-call
    client only prints the tag; both return normally and are left as they
    were. *)


(** C5 (as the code has it).  The page keeps one set of accumulators and no
    record of whether a response is open.  Every response.created event is
    accepted, whatever came before: the handler logs the start of a
    response, empties the three accumulators and returns normally; what it
    writes does not depend on the accumulators it discards. *)
Theorem C5_response_created_always_accepted props b :
  Get props "type" = VString "response.created" ->
  Browser.handleResponse (VObject props) b
  = mkResult (Normal tt) (accumulators_reset b)
      (ConsoleLog [VString "[响应]"; VString "response.created"; VObject props]
         :: clear_timeout b ++ [DomLog "🤖 AI 开始响应..." "system"])%list.
Proof. apply handleResponse_created. Qed.

Lemma C5_response_created_always_accepted_witness :
  Get [("type", VString "response.created")] "type" = VString "response.created"
  /\ Browser.handleResponse Samples.created
       (Browser.mkClient true (Some "sess_1") "ws_1" "Hel" [VString "AAAA"] "Hel" None)
     = mkResult (Normal tt)
         (Browser.mkClient true (Some "sess_1") "ws_1" "" [] "" None)
         [ ConsoleLog [VString "[响应]"; VString "response.created"; Samples.created];
           DomLog "🤖 AI 开始响应..." "system" ].
Proof.
  split; [reflexivity|].
  exact (C5_response_created_always_accepted [("type", VString "response.created")]
           (Browser.mkClient true (Some "sess_1") "ws_1" "Hel" [VString "AAAA"] "Hel" None)
           eq_refl).
Defined.

(** C5 as stated fails: with a response open and the fragment Hel
    accumulated, a second response.created is handled like the first one.
    Nothing is signalled, the page writes what it writes for a first
    response.created, and the accumulated text is dropped. *)
Lemma C5_second_response_created_is_accepted :
  Browser.currentTextResponse Samples.open_response = "Hel"
  /\ ~ signalled (Browser.handleResponse Samples.created Samples.open_response)
  /\ trace (Browser.handleResponse Samples.created Samples.open_response)
     = trace (Browser.handleResponse Samples.created Browser.new_Client)
  /\ Browser.currentTextResponse
       (final (Browser.handleResponse Samples.created Samples.open_response)) = "".
Proof.
  split; [reflexivity|]. split; [|split; reflexivity].
  intros [[e H]|[[m H]|[p [e H]]]].
  - discriminate H.
  - cbn in H. destruct H as [H|[H|H]]; try discriminate H; exact H.
  - cbn in H. destruct H as [H|[H|H]]; try discriminate H; exact H.
Qed.

(* ================================================================== *)
(** * Base64 and the audio stream *)
(* ================================================================== *)

Ltac Zify.zify_post_hook ::= Z.to_euclidean_division_equations.

Local Close Scope string_scope.

Section Base64RoundTrip.

Import Base64.

(** Induction three octets at a time. *)
Lemma list_ind3 {A} (P : list A -> Prop) :
  P [] -> (forall a, P [a]) -> (forall a b, P [a; b]) ->
  (forall a b c l, P l -> P (a :: b :: c :: l)) ->
  forall l, P l.
Proof.
  intros H0 H1 H2 H3.
  fix IH 1. intros [|a [|b [|c l]]];
    [exact H0 | apply H1 | apply H2 | apply H3; apply IH].
Qed.

Lemma encode_split l : encode l = map sextet_char (sextets_of l) ++ padding_of l.
Proof.
  induction l as [|a|a b|a b c l IH] using list_ind3; try reflexivity.
  cbn [encode sextets_of padding_of map app]. now rewrite IH.
Qed.

Lemma sextets_of_bounded l :
  Forall octet l -> Forall (fun s => s < 64)%N (sextets_of l).
Proof.
  unfold octet.
  induction l as [|a|a b|a b c l IH] using list_ind3; intros H; cbn [sextets_of].
  - constructor.
  - inversion H; subst. repeat constructor; lia.
  - inversion H as [|? ? Ha H']; subst. inversion H'; subst. repeat constructor; lia.
  - inversion H as [|? ? Ha H']; subst. inversion H' as [|? ? Hb H'']; subst.
    inversion H'' as [|? ? Hc H''']; subst.
    repeat (constructor; [lia|]). now apply IH.
Qed.

Lemma octets_sextets_of l : Forall octet l -> octets (sextets_of l) = l.
Proof.
  unfold octet.
  induction l as [|a|a b|a b c l IH] using list_ind3; intros H; cbn [sextets_of octets].
  - reflexivity.
  - inversion H; subst. f_equal. lia.
  - inversion H as [|? ? Ha H']; subst. inversion H'; subst.
    f_equal; [lia|]. f_equal. lia.
  - inversion H as [|? ? Ha H']; subst. inversion H' as [|? ? Hb H'']; subst.
    inversion H'' as [|? ? Hc H''']; subst.
    rewrite (IH H''').
    f_equal; [lia|]. f_equal; [lia|]. f_equal. lia.
Qed.

Lemma sextet_table : forallb sextet_ok (map N.of_nat (seq 0 64)) = true.
Proof. vm_compute. reflexivity. Qed.

Lemma sextet_char_ok n : (n < 64)%N -> sextet_ok n = true.
Proof.
  intros H. pose proof sextet_table as T. rewrite forallb_forall in T.
  apply T. rewrite in_map_iff. exists (N.to_nat n). split; [lia|].
  apply in_seq. lia.
Qed.

Lemma sextet_char_facts n :
  (n < 64)%N ->
  is_ascii_whitespace (sextet_char n) = false
  /\ Ascii.eqb (sextet_char n) PAD = false
  /\ char_sextet (sextet_char n) = Some n.
Proof.
  intros H. apply sextet_char_ok in H. unfold sextet_ok in H.
  apply andb_prop in H as [H H3]. apply andb_prop in H as [H1 H2].
  apply negb_true_iff in H1, H2. repeat split; auto.
  destruct (char_sextet (sextet_char n)); [|discriminate].
  apply N.eqb_eq in H3. now subst.
Qed.

Lemma sextets_map ss :
  Forall (fun s => s < 64)%N ss -> sextets (map sextet_char ss) = Some ss.
Proof.
  induction 1 as [|s ss Hs _ IH]; [reflexivity|].
  cbn [map sextets]. destruct (sextet_char_facts s Hs) as [_ [_ ->]].
  now rewrite IH.
Qed.

Lemma filter_whitespace l :
  Forall (fun c => is_ascii_whitespace c = false) l ->
  filter (fun c => negb (is_ascii_whitespace c)) l = l.
Proof.
  induction 1 as [|c l Hc _ IH]; [reflexivity|].
  cbn [filter]. rewrite Hc, IH. reflexivity.
Qed.

Lemma padding_cases l :
  padding_of l = [] \/ padding_of l = [PAD] \/ padding_of l = [PAD; PAD].
Proof.
  induction l as [|a|a b|a b c l IH] using list_ind3; cbn [padding_of]; auto.
Qed.

Lemma encode_length l : exists k, List.length (encode l) = 4 * k.
Proof.
  induction l as [|a|a b|a b c l [k IH]] using list_ind3.
  - exists 0. reflexivity.
  - exists 1. reflexivity.
  - exists 1. reflexivity.
  - exists (S k). cbn [encode List.length]. rewrite IH. lia.
Qed.

Lemma sextets_of_length l :
  exists k r, List.length (sextets_of l) = 4 * k + r /\ (r = 0 \/ r = 2 \/ r = 3).
Proof.
  induction l as [|a|a b|a b c l [k [r [IH Hr]]]] using list_ind3.
  - exists 0, 0. auto.
  - exists 0, 2. auto.
  - exists 0, 3. auto.
  - exists (S k), r. cbn [sextets_of List.length]. rewrite IH. split; [lia|exact Hr].
Qed.

Lemma strip_padding_spec (body pad : list ascii) :
  pad = [] \/ pad = [PAD] \/ pad = [PAD; PAD] ->
  (exists k, List.length (body ++ pad) = 4 * k) ->
  Forall (fun c => Ascii.eqb c PAD = false) body ->
  strip_padding (body ++ pad) = body.
Proof.
  intros Hpad [k Hlen] Hbody. unfold strip_padding.
  replace (List.length (body ++ pad) mod 4 =? 0)%nat with true
    by (symmetry; apply Nat.eqb_eq; rewrite Hlen, Nat.mul_comm; apply Nat.Div0.mod_mul).
  assert (Hrev : Forall (fun c => Ascii.eqb c PAD = false) (rev body))
    by (apply Forall_rev; exact Hbody).
  rewrite rev_app_distr.
  remember (rev body) as rb eqn:E.
  assert (Hb : body = rev rb) by (subst rb; symmetry; apply rev_involutive).
  clear E Hbody Hlen. subst body.
  destruct rb as [|p1 rb].
  - destruct Hpad as [->|[->| ->]]; reflexivity.
  - inversion Hrev as [|? ? H1 _]; subst.
    destruct Hpad as [->|[->| ->]]; cbn [rev app].
    + destruct rb; rewrite H1, app_nil_r; reflexivity.
    + replace (Ascii.eqb PAD PAD) with true by reflexivity.
      rewrite H1. reflexivity.
    + replace (Ascii.eqb PAD PAD) with true by reflexivity.
      reflexivity.
Qed.

(** [atob] undoes [btoa]. *)
Lemma atob_btoa (binary : list N) :
  Forall octet binary ->
  exists text, btoa binary = Normal text /\ atob text = Normal binary.
Proof.
  intros H.
  exists (string_of_list_ascii (encode binary)). split.
  - unfold btoa. replace (forallb _ binary) with true; [reflexivity|].
    symmetry. apply forallb_forall. rewrite Forall_forall in H.
    intros n Hn. apply N.leb_le. exact (H n Hn).
  - unfold atob, chars. rewrite list_ascii_of_string_of_list_ascii.
    pose proof (sextets_of_bounded binary H) as Hs.
    assert (Hbody : Forall (fun c => is_ascii_whitespace c = false
                                     /\ Ascii.eqb c PAD = false)
                      (map sextet_char (sextets_of binary))).
    { apply Forall_map. eapply Forall_impl; [|exact Hs].
      intros s Hlt. destruct (sextet_char_facts s Hlt) as [? [? _]]. auto. }
    rewrite filter_whitespace.
    2:{ rewrite encode_split. apply Forall_app. split.
        - eapply Forall_impl; [|exact Hbody]. now intros c [? _].
        - destruct (padding_cases binary) as [->|[->| ->]]; repeat constructor. }
    assert (Hstrip : strip_padding (encode binary)
                     = map sextet_char (sextets_of binary)).
    { rewrite encode_split at 1. apply strip_padding_spec.
      - apply padding_cases.
      - rewrite <- encode_split. apply encode_length.
      - eapply Forall_impl; [|exact Hbody]. now intros c [_ ?]. }
    rewrite Hstrip.
    destruct (sextets_of_length binary) as [k [r [Hlen Hr]]].
    rewrite length_map, Hlen.
    replace ((4 * k + r) mod 4 =? 1)%nat with false.
    2:{ symmetry. apply Nat.eqb_neq.
        rewrite Nat.add_comm, Nat.mul_comm, Nat.Div0.mod_add.
        destruct Hr as [->|[->| ->]]; cbn; lia. }
    rewrite (sextets_map _ Hs). now rewrite octets_sextets_of.
Qed.

End Base64RoundTrip.


(* ---------------- C2 ---------------- *)

Lemma to_uint8_to_N (b : Byte.byte) : Browser.to_uint8 (Byte.to_N b) = b.
Proof.
  unfold Browser.to_uint8.
  rewrite N.mod_small by (pose proof (Byte.to_N_bounded b); lia).
  now rewrite Byte.of_to_N.
Qed.

Lemma map_to_uint8_to_N (bytes : list Byte.byte) :
  map Browser.to_uint8 (map Byte.to_N bytes) = bytes.
Proof.
  induction bytes as [|b bytes IH]; [reflexivity|].
  cbn [map]. now rewrite to_uint8_to_N, IH.
Qed.

Lemma bytes_are_octets (bytes : list Byte.byte) : Forall octet (map Byte.to_N bytes).
Proof.
  apply Forall_map, Forall_forall. intros b _. apply Byte.to_N_bounded.
Qed.

(** Decoding what [arrayBufferToBase64] produced gives the bytes back. *)
Lemma decode_chunk_arrayBufferToBase64 (bytes : list Byte.byte) :
  exists text,
    Browser.arrayBufferToBase64 bytes = Normal text
    /\ Browser.decode_chunk (VString text) = Normal bytes.
Proof.
  destruct (atob_btoa _ (bytes_are_octets bytes)) as [text [Hb Ha]].
  exists text. split; [exact Hb|].
  unfold Browser.decode_chunk. cbn [ToString cbind]. rewrite Ha. cbn [cbind].
  now rewrite map_to_uint8_to_N.
Qed.

Lemma total_length_concat (buffers : list (list Byte.byte)) :
  Browser.total_length buffers = List.length (concat buffers).
Proof.
  unfold Browser.total_length.
  assert (G : forall n, fold_left (fun total bytes => total + List.length bytes) buffers n
                        = n + List.length (concat buffers)).
  { induction buffers as [|b buffers IH]; intros n; cbn [fold_left concat].
    - cbn. lia.
    - rewrite IH, length_app. lia. }
  apply G.
Qed.

Lemma copy_buffers_concat (buffers : list (list Byte.byte)) :
  forall written : list Byte.byte,
    Browser.copy_buffers buffers
      (written ++ repeat Byte.x00 (List.length (concat buffers)))
      (List.length written)
    = Normal (written ++ concat buffers).
Proof.
  induction buffers as [|b buffers IH]; intros written; cbn [Browser.copy_buffers concat].
  - cbn [List.length repeat]. reflexivity.
  - unfold Browser.typed_array_set.
    rewrite !length_app, repeat_length.
    replace (_ <=? _)%nat with true by (symmetry; apply Nat.leb_le; lia).
    cbn [cbind].
    rewrite firstn_app, Nat.sub_diag, firstn_all. cbn [firstn]. rewrite app_nil_r.
    rewrite skipn_app, skipn_all2 by lia. cbn [app].
    replace (List.length written + List.length b - List.length written)
      with (List.length b) by lia.
    rewrite repeat_app, skipn_app, repeat_length, Nat.sub_diag, skipn_all2
      by (rewrite repeat_length; lia).
    cbn [skipn app].
    specialize (IH (written ++ b)).
    rewrite length_app, <- app_assoc in IH. rewrite IH. now rewrite <- app_assoc.
Qed.

Lemma combine_chunks_concat (chunks : list value) (buffers : list (list Byte.byte)) :
  Forall2 (fun chunk bytes => Browser.decode_chunk chunk = Normal bytes) chunks buffers ->
  Browser.combine_chunks chunks = Normal (concat buffers).
Proof.
  intros H. unfold Browser.combine_chunks.
  assert (D : Browser.decode_chunks chunks = Normal buffers).
  { induction H as [|c b chunks buffers Hc _ IH]; [reflexivity|].
    cbn [Browser.decode_chunks]. rewrite Hc, IH. reflexivity. }
  rewrite D. cbn [cbind]. rewrite total_length_concat.
  exact (copy_buffers_concat buffers []).
Qed.


Local Open Scope string_scope.

Lemma handleResponse_audio_delta props b :
  Get props "type" = VString "response.audio.delta" ->
  Browser.handleResponse (VObject props) b
  = mkResult (Normal tt)
      (with_chunks b (Browser.currentAudioChunks b ++ [Get props "delta"])%list)
      (ConsoleLog [VString "[响应]"; VString "response.audio.delta"; VObject props]
         :: clear_timeout b
         ++ [DomLog ("🔊 收到音频块 ("
                       ++ string_of_nat
                            (List.length (Browser.currentAudioChunks b ++ [Get props "delta"])%list)
                       ++ ")") "system"])%list.
Proof.
  intros Htype. rewrite (handleResponse_prologue props _ b Htype).
  cbn [is_string String.eqb Ascii.eqb Bool.eqb]. run_switch.
  unfold Browser.log, Browser.set_currentAudioChunks.
  mstep. cbn [member]. mstep.
  destruct b as [ic sid wid txt chunks tr [id|]]; reflexivity.
Qed.

Lemma playAudio_plays chunks pcm (b : Browser.Client) :
  chunks <> [] ->
  Browser.combine_chunks chunks = Normal pcm ->
  Browser.playAudio chunks b
  = mkResult (Normal tt) b [DomLog "🔊 开始播放音频..." "system"; PcmCombined pcm].
Proof.
  intros Hne Hpcm. destruct chunks as [|c chunks]; [contradiction|].
  unfold Browser.playAudio, Browser.log. rewrite bind_emit.
  unfold try_catch. rewrite bind_lift, Hpcm. reflexivity.
Qed.

Lemma handleResponse_audio_done props pcm b :
  Get props "type" = VString "response.audio.done" ->
  Browser.currentAudioChunks b <> [] ->
  Browser.combine_chunks (Browser.currentAudioChunks b) = Normal pcm ->
  Browser.handleResponse (VObject props) b
  = mkResult (Normal tt) (timeout_cleared b)
      (ConsoleLog [VString "[响应]"; VString "response.audio.done"; VObject props]
         :: clear_timeout b
         ++ [ DomLog ("✓ 音频生成完成 (共 "
                        ++ string_of_nat (List.length (Browser.currentAudioChunks b))
                        ++ " 块)") "system";
              DomLog "🔊 开始播放音频..." "system";
              PcmCombined pcm ])%list.
Proof.
  intros Htype Hne Hpcm. rewrite (handleResponse_prologue props _ b Htype).
  cbn [is_string String.eqb Ascii.eqb Bool.eqb]. run_switch.
  unfold Browser.log. mstep.
  cbn [timeout_cleared Browser.currentAudioChunks].
  replace (0 <? List.length (Browser.currentAudioChunks b))%nat with true.
  2:{ symmetry. apply Nat.ltb_lt. destruct (Browser.currentAudioChunks b);
      [contradiction|cbn; lia]. }
  rewrite (playAudio_plays _ pcm _ Hne Hpcm).
  destruct b as [ic sid wid txt chunks tr [id|]]; reflexivity.
Qed.

Lemma Browser_audio_deltas events chunks :
  Forall2 audio_delta events chunks ->
  forall b,
    outcome (Browser_handle_all events b) = Normal tt
    /\ exists added,
         Browser.currentAudioChunks (final (Browser_handle_all events b))
         = (Browser.currentAudioChunks b ++ added)%list
         /\ Forall2 (fun e chunk => member e "delta" = Normal chunk) events added
         /\ Forall2 (fun chunk bytes => Browser.decode_chunk chunk = Normal bytes)
              added chunks.
Proof.
  unfold Browser_handle_all.
  induction 1 as [|e bytes events chunks [text [Htext [props [-> [Htype Hdelta]]]]] _ IH];
    intros b.
  - split; [reflexivity|]. exists []. cbn. rewrite app_nil_r. repeat split; constructor.
  - rewrite (for_each_cons_run _ _ _ _ _ _ (handleResponse_audio_delta props b Htype)).
    cbn [prepend outcome final].
    destruct (IH (with_chunks b (Browser.currentAudioChunks b ++ [Get props "delta"])%list))
      as [Ho [added [Hc [Hm Hd]]]].
    split; [exact Ho|]. exists (VString text :: added). split; [|split].
    + rewrite Hc. cbn [with_chunks Browser.currentAudioChunks].
      rewrite Hdelta, <- app_assoc. reflexivity.
    + constructor; [|exact Hm]. cbn [member]. now rewrite Hdelta.
    + constructor; [|exact Hd].
      destruct (decode_chunk_arrayBufferToBase64 bytes) as [text' [Ht' Hdec]].
      rewrite Htext in Ht'. inversion Ht'; subst text'. exact Hdec.
Qed.

(** C2.  After response.created and audio delta events, the chunk list of
    the page holds the deltas in arrival order, one entry per event.  When
    each delta is the base64 text of a chunk of bytes, decoding the list and
    copying the chunks into one array, as playAudio does, gives back the
    bytes of the chunks one after the other; at response.audio.done these
    are the bytes playAudio has assembled for playback (when at least one chunk
    came). *)
Theorem C2_audio_chunks_round_trip created events chunks done (b : Browser.Client) :
  tagged "response.created" created ->
  Forall2 audio_delta events chunks ->
  tagged "response.audio.done" done ->
  outcome (Browser_handle_all (created :: events ++ [done]) b) = Normal tt
  /\ Forall2 (fun e chunk => member e "delta" = Normal chunk) events
       (Browser.currentAudioChunks (final (Browser_handle_all (created :: events) b)))
  /\ Browser.combine_chunks
       (Browser.currentAudioChunks (final (Browser_handle_all (created :: events) b)))
     = Normal (concat chunks)
  /\ (events = []
      \/ In (PcmCombined (concat chunks))
           (trace (Browser_handle_all (created :: events ++ [done]) b))).
Proof.
  intros [cprops [-> Hcreated]] Hdeltas [dprops [-> Hdone]].
  unfold Browser_handle_all.
  rewrite !(for_each_cons_run _ _ _ _ _ _ (handleResponse_created cprops b Hcreated)).
  rewrite !for_each_app.
  destruct (Browser_audio_deltas events chunks Hdeltas (accumulators_reset b))
    as [Ho [added [Hc [Hm Hd]]]].
  unfold Browser_handle_all in *.
  cbn [accumulators_reset Browser.currentAudioChunks app] in Hc.
  rewrite (bind_normal _ _ _ _ Ho).
  cbn [prepend outcome final trace for_each]. rewrite Hc.
  pose proof (combine_chunks_concat added chunks Hd) as Hpcm.
  destruct events as [|e events].
  - inversion Hdeltas; subst. inversion Hm; subst.
    repeat split; try constructor; auto.
    cbn [for_each ret final]. 
    assert (E : Browser.handleResponse (VObject dprops) (accumulators_reset b)
                = mkResult (Normal tt) (accumulators_reset b)
                    [ ConsoleLog [VString "[响应]"; VString "response.audio.done"; VObject dprops];
                      DomLog "✓ 音频生成完成 (共 0 块)" "system" ]).
    { rewrite (handleResponse_prologue dprops _ _ Hdone).
      cbn [is_string String.eqb Ascii.eqb Bool.eqb]. run_switch.
      unfold Browser.log. mstep. reflexivity. }
    rewrite (bind_run _ _ _ _ _ _ E). reflexivity.
  - assert (Hne : added <> []) by (inversion Hm; discriminate).
    set (b1 := final (for_each (e :: events) Browser.handleResponse (accumulators_reset b))) in *.
    assert (E := handleResponse_audio_done dprops (concat chunks) b1 Hdone).
    rewrite Hc in E. specialize (E Hne Hpcm).
    rewrite (bind_run _ _ _ _ _ _ E).
    cbn [prepend outcome final trace ret].
    split; [reflexivity|]. split; [exact Hm|]. split; [exact Hpcm|].
    right. apply in_or_app. right. apply in_or_app. right.
    apply in_or_app. left. apply in_cons. apply in_or_app. right.
    apply in_cons, in_cons, in_eq.
Qed.

Lemma C2_audio_chunks_round_trip_witness :
  tagged "response.created" Samples.created
  /\ Forall2 audio_delta
       [Samples.audio_delta_of "dGU="; Samples.audio_delta_of "c3Q="]
       Samples.pcm_chunks
  /\ tagged "response.audio.done" (event "response.audio.done" [])
  /\ Browser.combine_chunks
       (Browser.currentAudioChunks
          (final (Browser_handle_all
                    [ Samples.created; Samples.audio_delta_of "dGU=";
                      Samples.audio_delta_of "c3Q=" ]
                    Browser.new_Client)))
     = Normal [Byte.x74; Byte.x65; Byte.x73; Byte.x74].
Proof.
  assert (H1 : tagged "response.created" Samples.created)
    by (eexists; split; reflexivity).
  assert (H2 : Forall2 audio_delta
                 [Samples.audio_delta_of "dGU="; Samples.audio_delta_of "c3Q="]
                 Samples.pcm_chunks).
  { repeat constructor.
    - exists "dGU=". split; [reflexivity|]. eexists; repeat split; reflexivity.
    - exists "c3Q=". split; [reflexivity|]. eexists; repeat split; reflexivity. }
  assert (H3 : tagged "response.audio.done" (event "response.audio.done" []))
    by (eexists; split; reflexivity).
  destruct (C2_audio_chunks_round_trip _ _ _ _ Browser.new_Client H1 H2 H3)
    as [_ [_ [E _]]].
  repeat split; assumption.
Defined.

(* ================================================================== *)
(** * The text accumulator of the page under arbitrary traffic *)
(* ================================================================== *)

Section Keeps.

Context {S X : Type}.
Variable f : S -> X.

Lemma keeps_ret {A} (a : A) : keeps f (ret a).
Proof. intros s. reflexivity. Qed.

Lemma keeps_throw {A} (e : error) : keeps f (throw (A:=A) e).
Proof. intros s. reflexivity. Qed.

Lemma keeps_emit (e : effect) : keeps f (emit e).
Proof. intros s. reflexivity. Qed.

Lemma keeps_get : keeps f get.
Proof. intros s. reflexivity. Qed.

Lemma keeps_lift {A} (c : completion A) : keeps f (lift c).
Proof. destruct c; intros s; reflexivity. Qed.

Lemma keeps_bind {A B} (m : M S A) (k : A -> M S B) :
  keeps f m -> (forall a, keeps f (k a)) -> keeps f (bind m k).
Proof.
  intros Hm Hk s. unfold bind. specialize (Hm s).
  destruct (m s) as [[a|e] s1 t1]; cbn [outcome final] in *.
  - now rewrite (Hk a s1).
  - exact Hm.
Qed.

Lemma keeps_bind_lift {A B} (c : completion A) (k : A -> M S B) :
  (forall a, c = Normal a -> keeps f (k a)) -> keeps f (bind (lift c) k).
Proof.
  intros Hk s. rewrite bind_lift. destruct c as [a|e]; [|reflexivity].
  now apply Hk.
Qed.

Lemma keeps_try_catch (m : M S unit) (handler : error -> M S unit) :
  keeps f m -> (forall e, keeps f (handler e)) -> keeps f (try_catch m handler).
Proof.
  intros Hm Hh s. unfold try_catch. specialize (Hm s).
  destruct (m s) as [[a|e] s1 t1]; cbn [outcome final] in *.
  - exact Hm.
  - now rewrite (Hh e s1).
Qed.

Lemma keeps_switch {A} (v : value) (cases : list (string * M S A)) (default : M S A) :
  (forall label body, In (label, body) cases -> is_string v label = true -> keeps f body) ->
  keeps f default ->
  keeps f (switch v cases default).
Proof.
  intros Hc Hd. induction cases as [|[label body] rest IH]; [exact Hd|].
  cbn [switch]. destruct (is_string v label) eqn:E.
  - apply (Hc label body); [left; reflexivity|exact E].
  - apply IH. intros l b Hin. apply Hc. right. exact Hin.
Qed.

End Keeps.

(** Discharges [keeps f m] for a method body built from the operations
    above and from setters of other fields. *)
Ltac keeps_tac :=
  repeat first
    [ apply keeps_bind_lift | apply keeps_bind | apply keeps_lift | apply keeps_emit | apply keeps_ret
    | apply keeps_get | apply keeps_throw | apply keeps_try_catch
    | intro ];
  try (intros ? ; reflexivity).

Lemma playAudio_keeps {X} (f : Browser.Client -> X) chunks :
  keeps f (Browser.playAudio chunks).
Proof.
  unfold Browser.playAudio, Browser.log. destruct chunks; [apply keeps_ret|].
  keeps_tac.
Qed.

(** Every event other than response.created and response.text.delta
    leaves the accumulated text alone, whatever it holds. *)
Lemma handleResponse_keeps_text data :
  tag_is data "response.created" = false ->
  tag_is data "response.text.delta" = false ->
  keeps Browser.currentTextResponse (Browser.handleResponse data).
Proof.
  unfold tag_is. intros Hc Hd. unfold Browser.handleResponse.
  apply keeps_bind_lift. intros type Htype. rewrite Htype in Hc, Hd.
  apply keeps_bind; [apply keeps_emit|]. intros _.
  apply keeps_bind; [apply keeps_get|]. intros this.
  apply keeps_bind.
  { destruct (Browser.responseTimeout this); [|apply keeps_ret].
    apply keeps_bind; [apply keeps_emit|]. intros _ s. reflexivity. }
  intros _. destruct (is_string type "error").
  { unfold Browser.log. keeps_tac. }
  apply keeps_switch; [|unfold Browser.log; keeps_tac].
  intros label body Hin His.
  cbn [Browser.handleResponse_cases In] in Hin.
  repeat (destruct Hin as [Hin|Hin];
          [ injection Hin as <- <-;
            try (rewrite His in Hc; discriminate Hc);
            try (rewrite His in Hd; discriminate Hd);
            unfold Browser.log, Browser.set_currentAudioChunks,
              Browser.set_currentTranscript;
            try (keeps_tac; fail) | ]).
  - apply keeps_bind; [apply keeps_get|]. intros this'.
    apply keeps_bind; [apply keeps_emit|]. intros _.
    destruct (0 <? _)%nat; [apply playAudio_keeps|apply keeps_ret].
  - contradiction.
Qed.

Lemma tag_is_object data tag :
  tag_is data tag = true ->
  exists props, data = VObject props /\ Get props "type" = VString tag.
Proof.
  unfold tag_is. destruct data; cbn; try discriminate.
  intros H. exists props. split; [reflexivity|].
  destruct (Get props "type"); cbn in H; try discriminate.
  apply String.eqb_eq in H. now subst.
Qed.

(** The handler on a parsed frame: what the text is afterwards, whether
    the handler returns or throws. *)
Lemma handleResponse_text data b :
  Browser.currentTextResponse (final (Browser.handleResponse data b))
  = if tag_is data "response.created" then ""
    else if tag_is data "response.text.delta" then
      match cbind (member data "delta") ToString with
      | Normal fragment => Browser.currentTextResponse b ++ fragment
      | Throw _ => Browser.currentTextResponse b
      end
    else Browser.currentTextResponse b.
Proof.
  destruct (tag_is data "response.created") eqn:Hc.
  { destruct (tag_is_object _ _ Hc) as [props [-> Htype]].
    now rewrite (handleResponse_created props b Htype). }
  destruct (tag_is data "response.text.delta") eqn:Hd.
  { destruct (tag_is_object _ _ Hd) as [props [-> Htype]].
    cbn [member cbind].
    destruct (ToString (Get props "delta")) as [fragment|e] eqn:Hdelta.
    - now rewrite (handleResponse_text_delta props fragment b Htype Hdelta).
    - now rewrite (handleResponse_text_delta_throws props e b Htype Hdelta). }
  apply handleResponse_keeps_text; assumption.
Qed.

(** The message callback of the page never throws, and the text it leaves
    is the one [text_after] describes. *)
Lemma onmessage_text frame b :
  outcome (Browser.onmessage frame b) = Normal tt
  /\ Browser.currentTextResponse (final (Browser.onmessage frame b))
     = text_after (Browser.currentTextResponse b) frame.
Proof.
  unfold Browser.onmessage, text_after. rewrite bind_get.
  rewrite !bind_console_log. cbn [prepend outcome final].
  unfold try_catch. rewrite bind_lift.
  destruct (JSON_parse frame) as [data|e]; cbn [outcome final].
  - rewrite bind_console_log. cbn [prepend outcome final].
    pose proof (handleResponse_text data b) as H.
    destruct (Browser.handleResponse data b) as [[[]|e] s1 t1];
      cbn [outcome final] in *; split; try reflexivity; exact H.
  - split; reflexivity.
Qed.

(** X9.  For every sequence of frames whatsoever, well formed or not, the
    message callback of the page never throws, and the accumulated text of
    the page is the fold of [text_after] over the frames: emptied by each
    response.created, extended by each printable text delta, in arrival
    order, and touched by nothing else. *)
Theorem text_accumulator_refines frames b :
  outcome (Browser_receive_all frames b) = Normal tt
  /\ Browser.currentTextResponse (final (Browser_receive_all frames b))
     = fold_left text_after frames (Browser.currentTextResponse b).
Proof.
  unfold Browser_receive_all. revert b.
  induction frames as [|frame frames IH]; intros b; [split; reflexivity|].
  cbn [for_each fold_left].
  destruct (onmessage_text frame b) as [Ho Ht].
  rewrite (bind_normal _ _ _ _ Ho). cbn [prepend outcome final].
  destruct (IH (final (Browser.onmessage frame b))) as [Ho' Ht'].
  split; [exact Ho'|]. now rewrite Ht', Ht.
Qed.

(** The scenario of the specification, as frames on the socket. *)
Lemma hello_frames :
  Browser.currentTextResponse
    (final (Browser_receive_all
              [ dq "{'type':'response.created'}";
                dq "{'type':'response.output_item.added','item':{'id':'item_1'}}";
                dq "{'type':'response.text.delta','delta':'Hel'}";
                "not json";
                dq "{'type':'response.text.delta','delta':'lo'}";
                dq "{'type':'response.text.done','text':'Hello'}";
                dq "{'type':'response.done'}" ]
              Browser.new_Client)) = "Hello".
Proof. reflexivity. Qed.

(** Every event other than response.created and response.audio.delta
    leaves the chunk list alone. *)
Lemma handleResponse_keeps_chunks data :
  tag_is data "response.created" = false ->
  tag_is data "response.audio.delta" = false ->
  keeps Browser.currentAudioChunks (Browser.handleResponse data).
Proof.
  unfold tag_is. intros Hc Hd. unfold Browser.handleResponse.
  apply keeps_bind_lift. intros type Htype. rewrite Htype in Hc, Hd.
  apply keeps_bind; [apply keeps_emit|]. intros _.
  apply keeps_bind; [apply keeps_get|]. intros this.
  apply keeps_bind.
  { destruct (Browser.responseTimeout this); [|apply keeps_ret].
    apply keeps_bind; [apply keeps_emit|]. intros _ s. reflexivity. }
  intros _. destruct (is_string type "error").
  { unfold Browser.log. keeps_tac. }
  apply keeps_switch; [|unfold Browser.log; keeps_tac].
  intros label body Hin His.
  cbn [Browser.handleResponse_cases In] in Hin.
  repeat (destruct Hin as [Hin|Hin];
          [ injection Hin as <- <-;
            try (rewrite His in Hc; discriminate Hc);
            try (rewrite His in Hd; discriminate Hd);
            unfold Browser.log, Browser.set_currentTextResponse,
              Browser.updateTextDisplay, Browser.set_currentTranscript;
            try (keeps_tac; fail) | ]).
  - apply keeps_bind; [apply keeps_get|]. intros this'.
    apply keeps_bind; [apply keeps_emit|]. intros _.
    destruct (0 <? _)%nat; [apply playAudio_keeps|apply keeps_ret].
  - contradiction.
Qed.

Lemma handleResponse_chunks data b :
  Browser.currentAudioChunks (final (Browser.handleResponse data b))
  = if tag_is data "response.created" then []
    else if tag_is data "response.audio.delta" then
      match member data "delta" with
      | Normal delta => (Browser.currentAudioChunks b ++ [delta])%list
      | Throw _ => Browser.currentAudioChunks b
      end
    else Browser.currentAudioChunks b.
Proof.
  destruct (tag_is data "response.created") eqn:Hc.
  { destruct (tag_is_object _ _ Hc) as [props [-> Htype]].
    now rewrite (handleResponse_created props b Htype). }
  destruct (tag_is data "response.audio.delta") eqn:Hd.
  { destruct (tag_is_object _ _ Hd) as [props [-> Htype]].
    cbn [member]. now rewrite (handleResponse_audio_delta props b Htype). }
  apply handleResponse_keeps_chunks; assumption.
Qed.

(** X10.  For every sequence of frames whatsoever, the chunk list of the
    page is the fold of [chunks_after] over the frames: emptied by each
    response.created, extended by the delta of each response.audio.delta,
    whatever that delta is; arrival order is kept, and no chunk is dropped,
    duplicated or altered by any other frame. *)
Theorem chunk_list_refines frames b :
  Browser.currentAudioChunks (final (Browser_receive_all frames b))
  = fold_left chunks_after frames (Browser.currentAudioChunks b).
Proof.
  unfold Browser_receive_all. revert b.
  induction frames as [|frame frames IH]; intros b; [reflexivity|].
  cbn [for_each fold_left].
  destruct (onmessage_text frame b) as [Ho _].
  rewrite (bind_normal _ _ _ _ Ho). cbn [prepend final].
  rewrite IH. f_equal.
  unfold Browser.onmessage, chunks_after. rewrite bind_get.
  rewrite !bind_console_log. cbn [prepend final].
  unfold try_catch. rewrite bind_lift.
  destruct (JSON_parse frame) as [data|e]; cbn [outcome final]; [|reflexivity].
  rewrite bind_console_log. cbn [prepend outcome final].
  pose proof (handleResponse_chunks data b) as H.
  destruct (Browser.handleResponse data b) as [[[]|e] s1 t1];
    cbn [outcome final] in *; exact H.
Qed.

(* ================================================================== *)
(** * Tool calls *)
(* ================================================================== *)

Lemma returnFunctionResult_trace callId result t :
  ToolCall.returnFunctionResult callId result t
  = mkResult (Normal tt) t
      (ConsoleLog [VString "返回结果:"; of_option (JSON_stringify_2 result)]
         :: map SocketSend
              (on_wire (ToolCall.isConnected t)
                 [ ToolCall.tool_result_submission callId result;
                   ToolCall.response_request ])).
Proof.
  unfold ToolCall.returnFunctionResult.
  rewrite bind_console_log.
  rewrite (bind_run _ _ _ _ _ _ (ToolCall_send_trace _ t)).
  rewrite (ToolCall_send_trace _ t).
  destruct (ToolCall.isConnected t); reflexivity.
Qed.

Lemma sent_socket_sends (l : list string) : sent (map SocketSend l) = l.
Proof.
  induction l as [|d l IH]; [reflexivity|].
  cbn [map]. change (sent (SocketSend d :: map SocketSend l))
    with (d :: sent (map SocketSend l)). now rewrite IH.
Qed.

(** A call either resolves, and then the two messages are all that was
    passed to [send], or it throws, and then nothing was. *)
Lemma handleFunctionCall_sends env event t :
  final (ToolCall.handleFunctionCall env event t) = t
  /\ ((outcome (ToolCall.handleFunctionCall env event t) = Normal tt
       /\ exists callId result,
            sent (trace (ToolCall.handleFunctionCall env event t))
            = on_wire (ToolCall.isConnected t)
                [ ToolCall.tool_result_submission callId result;
                  ToolCall.response_request ])
      \/ (exists e,
            outcome (ToolCall.handleFunctionCall env event t) = Throw e
            /\ sent (trace (ToolCall.handleFunctionCall env event t)) = [])).
Proof.
  assert (Hthrow : forall e (es : list effect), sent es = [] ->
     let r := mkResult (S:=ToolCall.Client) (A:=unit) (Throw e) t es in
     final r = t
     /\ ((outcome r = Normal tt
          /\ exists callId result,
               sent (trace r)
               = on_wire (ToolCall.isConnected t)
                   [ ToolCall.tool_result_submission callId result;
                     ToolCall.response_request ])
         \/ (exists e, outcome r = Throw e /\ sent (trace r) = []))).
  { intros e es Hes. split; [reflexivity|]. right. exists e.
    split; [reflexivity|exact Hes]. }
  assert (Hok : forall callId result (es : list effect), sent es = [] ->
     let r := prepend es (ToolCall.returnFunctionResult callId result t) in
     final r = t
     /\ ((outcome r = Normal tt
          /\ exists callId result,
               sent (trace r)
               = on_wire (ToolCall.isConnected t)
                   [ ToolCall.tool_result_submission callId result;
                     ToolCall.response_request ])
         \/ (exists e, outcome r = Throw e /\ sent (trace r) = []))).
  { intros callId result es Hes. rewrite returnFunctionResult_trace.
    split; [reflexivity|]. left.
    split; [reflexivity|]. exists callId, result.
    unfold prepend. cbn [trace]. rewrite sent_app, Hes.
    change (sent (?x :: ?l)) with (sent l). now rewrite sent_socket_sends. }
  unfold ToolCall.handleFunctionCall.
  rewrite bind_lift.
  destruct (member event "name") as [name|e]; [|apply Hthrow; reflexivity].
  rewrite bind_lift.
  destruct (member event "arguments") as [argsStr|e]; [|apply Hthrow; reflexivity].
  rewrite bind_lift.
  destruct (member event "call_id") as [call_id|e]; [|apply Hthrow; reflexivity].
  rewrite bind_lift.
  destruct (JSON_parse_value argsStr) as [args|e]; [|apply Hthrow; reflexivity].
  rewrite bind_lift.
  destruct (ToString name) as [shown|e]; [|apply Hthrow; reflexivity].
  rewrite bind_console_log.
  cbn [switch].
  destruct (is_string name "get_weather").
  - rewrite bind_assoc, bind_lift.
    destruct (member args "location") as [location|e]; [|apply Hthrow; reflexivity].
    rewrite bind_lift.
    destruct (ToolCall.getWeather location) as [result|e]; [|apply Hthrow; reflexivity].
    apply Hok; reflexivity.
  - destruct (is_string name "generate_horoscope").
    + rewrite bind_assoc, bind_lift.
      destruct (member args "sign") as [sign|e]; [|apply Hthrow; reflexivity].
      rewrite bind_ret. apply Hok; reflexivity.
    + rewrite bind_ret. apply Hok; reflexivity.
Qed.


(** The scenario of a weather call: what the socket receives. *)
Lemma returnFunctionResult_example :
  sent (trace (ToolCall.returnFunctionResult (VString "call_1")
                 (ToolCall.weather 15 "晴朗" 45) Samples.connected_tool_client))
  = [ dq "{'type':'conversation.item.create','item':{'type':'function_call_output','call_id':'call_1','output':'{\'temperature\':15,\'condition\':\'晴朗\',\'humidity\':45}'}}";
      dq "{'type':'response.create'}" ].
Proof. reflexivity. Qed.

Lemma handleFunctionCall_parse_failure env props e t :
  JSON_parse_value (Get props "arguments") = Throw e ->
  ToolCall.handleFunctionCall env (VObject props) t = mkResult (Throw e) t [].
Proof.
  intros Hparse. unfold ToolCall.handleFunctionCall.
  mstep. cbn [member]. mstep. rewrite Hparse. reflexivity.
Qed.

(** The message callback hands a parsed frame to the handler and catches
    nothing. *)
Lemma on_message_parsed env data event t :
  JSON_parse data = Normal event ->
  ToolCall.on_message env data t = ToolCall.handleServerEvent env event t.
Proof. intros H. unfold ToolCall.on_message. now rewrite bind_lift, H. Qed.

(** C7 (as the code has it).  When the argument text of a
    response.function_call_arguments.done event is not JSON, handling the
    event ends in the SyntaxError of JSON.parse: no function is run, nothing
    is sent to the model, neither a tool result nor a response request, and
    the client is unchanged. *)
Theorem C7_malformed_arguments_throw env props text t :
  Get props "type" = VString "response.function_call_arguments.done" ->
  Get props "arguments" = VString text ->
  JSON_parse text = Throw SyntaxError ->
  outcome (ToolCall.handleServerEvent env (VObject props) t) = Throw SyntaxError
  /\ final (ToolCall.handleServerEvent env (VObject props) t) = t
  /\ sent (trace (ToolCall.handleServerEvent env (VObject props) t)) = [].
Proof.
  intros Htype Hargs Hparse.
  assert (E : ToolCall.handleServerEvent env (VObject props) t
              = mkResult (Throw SyntaxError) t
                  [ ConsoleLog [VString "[response.function_call_arguments.done]"];
                    ConsoleLog [VString "函数调用:"; Get props "name"];
                    ConsoleLog [VString "参数:"; VString text] ]).
  { unfold ToolCall.handleServerEvent.
    mstep. cbn [member]. rewrite Htype. mstep. cbn [ToString]. mstep.
    run_switch. mstep. cbn [member]. mstep. rewrite Hargs.
    rewrite (handleFunctionCall_parse_failure env props SyntaxError)
      by (rewrite Hargs; unfold JSON_parse_value; cbn [ToString cbind]; exact Hparse).
    reflexivity. }
  rewrite E. repeat split.
Qed.

Lemma C7_malformed_arguments_throw_witness :
  Get [ ("type", VString "response.function_call_arguments.done");
        ("name", VString "get_weather"); ("call_id", VString "call_1");
        ("arguments", VString (dq "{'location':")) ] "type"
  = VString "response.function_call_arguments.done"
  /\ JSON_parse (dq "{'location':") = Throw SyntaxError
  /\ outcome (ToolCall.handleServerEvent Samples.environment
               (Samples.arguments_done "get_weather" "call_1" (dq "{'location':"))
               Samples.connected_tool_client) = Throw SyntaxError.
Proof.
  split; [reflexivity|]. split; [reflexivity|].
  apply (C7_malformed_arguments_throw Samples.environment _ (dq "{'location':")
           Samples.connected_tool_client); reflexivity.
Defined.

(** C7 as stated fails: the argument text is malformed, the client is
    connected, and handling the event throws after three console lines:
    no result of any shape is submitted. *)
Lemma C7_no_result_for_malformed_arguments :
  JSON_parse (dq "{'location':") = Throw SyntaxError
  /\ ToolCall.handleServerEvent Samples.environment
       (Samples.arguments_done "get_weather" "call_1" (dq "{'location':"))
       Samples.connected_tool_client
     = mkResult (Throw SyntaxError) Samples.connected_tool_client
         [ ConsoleLog [VString "[response.function_call_arguments.done]"];
           ConsoleLog [VString "函数调用:"; VString "get_weather"];
           ConsoleLog [VString "参数:"; VString (dq "{'location':")] ]
  /\ sent (trace (ToolCall.handleServerEvent Samples.environment
                    (Samples.arguments_done "get_weather" "call_1" (dq "{'location':"))
                    Samples.connected_tool_client)) = [].
Proof. vm_compute. repeat split. Qed.

(** C8 (as the code has it).  A function call whose name is neither
    get_weather nor generate_horoscope and whose argument text parses as
    JSON is resolved with the object holding the error text for an unknown
    function: that object is passed to send as the tool result, followed by
    response.create (both reach the socket of a connected client), and the
    call returns normally. *)
Theorem C8_unknown_function_error_result env props name args t :
  Get props "name" = VString name ->
  name <> "get_weather" ->
  name <> "generate_horoscope" ->
  JSON_parse_value (Get props "arguments") = Normal args ->
  outcome (ToolCall.handleFunctionCall env (VObject props) t) = Normal tt
  /\ final (ToolCall.handleFunctionCall env (VObject props) t) = t
  /\ sent (trace (ToolCall.handleFunctionCall env (VObject props) t))
     = on_wire (ToolCall.isConnected t)
         [ ToolCall.tool_result_submission (Get props "call_id")
             (VObject [("error", VString "未知函数")]);
           ToolCall.response_request ].
Proof.
  intros Hname Hw Hh Hparse.
  unfold ToolCall.handleFunctionCall.
  mstep. cbn [member]. mstep. rewrite Hparse, Hname. cbn [ToString]. mstep.
  cbn [switch]. rewrite (is_string_neq _ _ Hw), (is_string_neq _ _ Hh).
  mstep. rewrite returnFunctionResult_trace.
  unfold prepend. cbn [outcome final trace].
  repeat split. rewrite sent_app.
  change (sent (?x :: ?l)) with (sent l). now rewrite sent_socket_sends.
Qed.

Lemma C8_unknown_function_error_result_witness :
  Get [ ("type", VString "response.function_call_arguments.done");
        ("name", VString "lookup_stock"); ("call_id", VString "call_7");
        ("arguments", VString (dq "{'symbol':'X'}")) ] "name"
  = VString "lookup_stock"
  /\ JSON_parse_value (VString (dq "{'symbol':'X'}"))
     = Normal (VObject [("symbol", VString "X")])
  /\ sent (trace (ToolCall.handleFunctionCall Samples.environment
                    (Samples.arguments_done "lookup_stock" "call_7" (dq "{'symbol':'X'}"))
                    Samples.connected_tool_client))
     = [ dq "{'type':'conversation.item.create','item':{'type':'function_call_output','call_id':'call_7','output':'{\'error\':\'未知函数\'}'}}";
         dq "{'type':'response.create'}" ].
Proof.
  split; [reflexivity|]. split; [reflexivity|].
  assert (H := C8_unknown_function_error_result Samples.environment
              [ ("type", VString "response.function_call_arguments.done");
                ("name", VString "lookup_stock");
                ("call_id", VString "call_7");
                ("arguments", VString (dq "{'symbol':'X'}")) ]
              "lookup_stock" (VObject [("symbol", VString "X")])
              Samples.connected_tool_client
              eq_refl ltac:(discriminate) ltac:(discriminate) eq_refl).
  destruct H as [_ [_ E]]. exact E.
Defined.

(** C8 as stated fails: no handler is registered under the name, yet the
    call fails, because the argument text is parsed before the name is
    looked at. *)
Lemma C8_unknown_function_with_malformed_arguments :
  ToolCall.handleFunctionCall Samples.environment
    (Samples.arguments_done "lookup_stock" "call_7" "{")
    Samples.connected_tool_client
  = mkResult (Throw SyntaxError) Samples.connected_tool_client [].
Proof. reflexivity. Qed.

(** getWeather on the three cities of its table. *)
Lemma getWeather_table :
  ToolCall.getWeather (VString "北京") = Normal (ToolCall.weather 15 "晴朗" 45)
  /\ ToolCall.getWeather (VString "上海") = Normal (ToolCall.weather 20 "多云" 60)
  /\ ToolCall.getWeather (VString "深圳") = Normal (ToolCall.weather 25 "小雨" 75).
Proof. repeat split. Qed.

(** On a string, getWeather never throws and never returns an absent value. *)
Lemma getWeather_never_throws (location : string) :
  exists v,
    ToolCall.getWeather (VString location) = Normal v
    /\ v <> VUndefined /\ v <> VNull.
Proof.
  unfold ToolCall.getWeather. cbn [ToString cbind].
  destruct (ToBoolean (Get ToolCall.weatherData location)) eqn:E.
  - eexists. split; [reflexivity|].
    destruct (Get ToolCall.weatherData location); try discriminate; split; discriminate.
  - eexists. split; [reflexivity|]. split; discriminate.
Qed.

(** A location that is neither in the table nor a member of
    [Object.prototype] gets the default record. *)
Lemma getWeather_default (location : string) :
  own ToolCall.weatherData location = None ->
  Object_prototype_get location = VUndefined ->
  ToolCall.getWeather (VString location) = Normal (ToolCall.weather 18 "未知" 50).
Proof.
  intros Hown Hproto. unfold ToolCall.getWeather, Get. cbn [ToString cbind].
  rewrite Hown, Hproto. reflexivity.
Qed.

(** C10 at the failing input.  The location constructor is not in the
    table, yet getWeather does not return the default record: the lookup
    finds the constructor every object inherits, a function.  It has none of
    the three fields and no JSON text, so the tool result that is submitted
    carries no output at all. *)
Theorem C10_getWeather_inherited_key :
  own ToolCall.weatherData "constructor" = None
  /\ ToolCall.getWeather (VString "constructor")
     = Normal (VNative (BuiltinFunction "Object"))
  /\ ToolCall.getWeather (VString "constructor")
     <> Normal (ToolCall.weather 18 "未知" 50)
  /\ JSON_stringify (VNative (BuiltinFunction "Object")) = None
  /\ sent (trace (ToolCall.handleFunctionCall Samples.environment
                    (Samples.arguments_done "get_weather" "call_1"
                       (dq "{'location':'constructor'}"))
                    Samples.connected_tool_client))
     = [ dq "{'type':'conversation.item.create','item':{'type':'function_call_output','call_id':'call_1'}}";
         dq "{'type':'response.create'}" ].
Proof. repeat split. discriminate. Qed.

(* ================================================================== *)
(** * User messages *)
(* ================================================================== *)

(** C9 (as the code has it).  Neither sendTextMessage of index.js nor
    sendMessage of interactive.js looks at the text: for every text, the
    empty one included, a connected client sends the conversation.item.create
    message carrying that text and then response.create.  The only check is
    in the line listener of the interactive script, which sends nothing for
    a line that is empty once trimmed and shows the prompt again. *)
Theorem C9_user_message_is_not_validated (text line : string)
  (c : StepFun.Client) (i : Interactive.Client) :
  StepFun.isConnected c = true ->
  Interactive.isConnected i = true ->
  trim line = "" ->
  StepFun.sendTextMessage (VString text) c
    = mkResult (Normal tt) c
        [ SocketSend (wire (StepFun.user_message (VString text)));
          SocketSend (wire StepFun.text_response_request);
          ConsoleLog [VString ("已发送消息: " ++ text)] ]
  /\ Interactive.sendMessage (VString text) i
    = mkResult (Normal tt) i
        [ SocketSend (wire (StepFun.user_message (VString text)));
          SocketSend (wire StepFun.text_response_request) ]
  /\ Interactive.on_line line i = mkResult (Normal tt) i [ReadlinePrompt].
Proof.
  intros Hc Hi Hline. split; [|split].
  - unfold StepFun.sendTextMessage.
    rewrite (bind_run _ _ _ _ _ _ (StepFun_send_connected _ c Hc)).
    rewrite (bind_run _ _ _ _ _ _ (StepFun_send_connected _ c Hc)).
    mstep. reflexivity.
  - unfold Interactive.sendMessage.
    rewrite (bind_run _ _ _ _ _ _ (Interactive_send_trace _ i)).
    rewrite (Interactive_send_trace _ i), Hi. reflexivity.
  - unfold Interactive.on_line. rewrite Hline. reflexivity.
Qed.

Lemma C9_user_message_is_not_validated_witness :
  StepFun.isConnected (StepFun.mkClient true) = true
  /\ Interactive.isConnected (Interactive.mkClient true "") = true
  /\ trim "   " = ""
  /\ sent (trace (StepFun.sendTextMessage (VString "") (StepFun.mkClient true)))
     = [ dq "{'type':'conversation.item.create','item':{'type':'message','role':'user','content':[{'type':'input_text','text':''}]}}";
         dq "{'type':'response.create','response':{'modalities':['text']}}" ].
Proof.
  split; [reflexivity|]. split; [reflexivity|]. split; [reflexivity|].
  destruct (C9_user_message_is_not_validated "" "   " (StepFun.mkClient true)
              (Interactive.mkClient true "") eq_refl eq_refl eq_refl) as [E _].
  rewrite E. reflexivity.
Defined.

(** C9 as stated fails: the empty text is not rejected, both messages reach
    the socket. *)
Lemma C9_empty_text_reaches_the_transport :
  outcome (StepFun.sendTextMessage (VString "") (StepFun.mkClient true)) = Normal tt
  /\ sent (trace (StepFun.sendTextMessage (VString "") (StepFun.mkClient true)))
     = [ dq "{'type':'conversation.item.create','item':{'type':'message','role':'user','content':[{'type':'input_text','text':''}]}}";
         dq "{'type':'response.create','response':{'modalities':['text']}}" ]
  /\ sent (trace (Interactive.sendMessage (VString "") (Interactive.mkClient true "")))
     = [ dq "{'type':'conversation.item.create','item':{'type':'message','role':'user','content':[{'type':'input_text','text':''}]}}";
         dq "{'type':'response.create','response':{'modalities':['text']}}" ].
Proof. repeat split. Qed.

(** A line with text in it, other than the two quit commands, is sent
    trimmed. *)
Lemma on_line_sends (line : string) (i : Interactive.Client) :
  Interactive.isConnected i = true ->
  trim line <> "" -> trim line <> "/quit" -> trim line <> "/exit" ->
  Interactive.on_line line i
  = mkResult (Normal tt) i
      [ ConsoleLog [VString (LF ++ "AI: ")];
        SocketSend (wire (StepFun.user_message (VString (trim line))));
        SocketSend (wire StepFun.text_response_request) ].
Proof.
  intros Hi He Hq Hx. unfold Interactive.on_line.
  apply String.eqb_neq in He, Hq, Hx. rewrite He, Hq, Hx. cbn [orb negb].
  rewrite bind_console_log.
  unfold Interactive.sendMessage.
  rewrite (bind_run _ _ _ _ _ _ (Interactive_send_trace _ i)).
  rewrite (Interactive_send_trace _ i), Hi. reflexivity.
Qed.

(* ================================================================== *)
(** * What a computation never does *)
(* ================================================================== *)

Section Never.

Context {S : Type}.
Variable p : effect -> bool.

Lemma never_ret {A} (a : A) : never (S:=S) p (ret a).
Proof. intros s. reflexivity. Qed.

Lemma never_throw {A} (e : error) : never (S:=S) p (throw (A:=A) e).
Proof. intros s. reflexivity. Qed.

Lemma never_get : never (S:=S) p get.
Proof. intros s. reflexivity. Qed.

Lemma never_put (s' : S) : never p (put s').
Proof. intros s. reflexivity. Qed.

Lemma never_lift {A} (c : completion A) : never (S:=S) p (lift c).
Proof. destruct c; intros s; reflexivity. Qed.

Lemma never_emit (e : effect) : p e = false -> never (S:=S) p (emit e).
Proof. intros H s. cbn. now rewrite H. Qed.

Lemma never_bind {A B} (m : M S A) (k : A -> M S B) :
  never p m -> (forall a, never p (k a)) -> never p (bind m k).
Proof.
  intros Hm Hk s. unfold bind. specialize (Hm s).
  destruct (m s) as [[a|e] s1 t1]; cbn [outcome final trace] in *.
  - now rewrite existsb_app, Hm, (Hk a s1).
  - exact Hm.
Qed.

Lemma never_bind_lift {A B} (c : completion A) (k : A -> M S B) :
  (forall a, c = Normal a -> never p (k a)) -> never p (bind (lift c) k).
Proof.
  intros Hk s. rewrite bind_lift. destruct c as [a|e]; [|reflexivity].
  now apply Hk.
Qed.

Lemma never_try_catch (m : M S unit) (handler : error -> M S unit) :
  never p m -> (forall e, never p (handler e)) -> never p (try_catch m handler).
Proof.
  intros Hm Hh s. unfold try_catch. specialize (Hm s).
  destruct (m s) as [[a|e] s1 t1]; cbn [outcome final trace] in *.
  - exact Hm.
  - now rewrite existsb_app, Hm, (Hh e s1).
Qed.

Lemma never_switch {A} (v : value) (cases : list (string * M S A)) (default : M S A) :
  (forall label body, In (label, body) cases -> is_string v label = true -> never p body) ->
  never p default ->
  never p (switch v cases default).
Proof.
  intros Hc Hd. induction cases as [|[label body] rest IH]; [exact Hd|].
  cbn [switch]. destruct (is_string v label) eqn:E.
  - apply (Hc label body); [left; reflexivity|exact E].
  - apply IH. intros l b Hin. apply Hc. right. exact Hin.
Qed.

Lemma never_stdout_write (chunk : value) :
  (forall s, p (StdoutWrite s) = false) -> never (S:=S) p (stdout_write chunk).
Proof.
  intros H. destruct chunk; try apply never_throw. now apply never_emit.
Qed.

End Never.

Lemma never_send_sent (t : list effect) : existsb is_send t = false -> sent t = [].
Proof.
  induction t as [|e t IH]; [reflexivity|].
  cbn [existsb]. intros H. apply orb_false_iff in H as [He Ht].
  destruct e; try discriminate He; exact (IH Ht).
Qed.

(** Discharges [never p m] for a method body built from the operations
    of the monad. *)
Ltac never_tac :=
  repeat first
    [ apply never_bind_lift | apply never_bind | apply never_lift
    | apply never_ret | apply never_get | apply never_put | apply never_throw
    | apply never_try_catch
    | apply never_stdout_write; solve [auto]
    | apply never_emit; solve [auto]
    | intro ].


(* ================================================================== *)
(** * Inbound events in the two console clients *)
(* ================================================================== *)

(** Printing is all the handler of index.js does. *)
Lemma StepFun_handleServerEvent_never (p : effect -> bool) event :
  (forall args, p (ConsoleLog args) = false) ->
  (forall args, p (ConsoleError args) = false) ->
  (forall s, p (StdoutWrite s) = false) ->
  never p (StepFun.handleServerEvent event).
Proof.
  intros Hlog Herr Hout. unfold StepFun.handleServerEvent, console_log, console_error.
  apply never_bind_lift. intros type _.
  apply never_bind; [never_tac|]. intros _.
  apply never_switch; [|never_tac].
  intros label body Hin _.
  cbn [StepFun.handleServerEvent_cases In] in Hin.
  unfold console_log, console_error in Hin.
  repeat (destruct Hin as [Hin|Hin]; [injection Hin as <- <-; never_tac|]).
  contradiction.
Qed.

Lemma StepFun_handleServerEvent_keeps event :
  keeps (fun c : StepFun.Client => c) (StepFun.handleServerEvent event).
Proof.
  unfold StepFun.handleServerEvent, console_log, console_error.
  apply keeps_bind_lift. intros type _.
  apply keeps_bind; [keeps_tac|]. intros _.
  apply keeps_switch; [|keeps_tac].
  intros label body Hin _.
  cbn [StepFun.handleServerEvent_cases In] in Hin.
  unfold console_log, console_error, stdout_write in Hin.
  repeat (destruct Hin as [Hin|Hin]; [injection Hin as <- <-; keeps_tac|]).
  - destruct a; keeps_tac.
  - contradiction.
Qed.

(** The handler of the interactive client prints and updates the text it
    has accumulated. *)
Lemma Interactive_handleServerEvent_never (p : effect -> bool) event :
  (forall args, p (ConsoleLog args) = false) ->
  (forall args, p (ConsoleError args) = false) ->
  (forall s, p (StdoutWrite s) = false) ->
  never p (Interactive.handleServerEvent event).
Proof.
  intros Hlog Herr Hout. unfold Interactive.handleServerEvent.
  apply never_bind_lift. intros type _.
  apply never_switch; [|never_tac].
  intros label body Hin _.
  cbn [Interactive.handleServerEvent_cases In] in Hin.
  unfold console_log, console_error, Interactive.showPrompt,
    Interactive.set_currentResponse in Hin.
  repeat (destruct Hin as [Hin|Hin]; [injection Hin as <- <-; never_tac|]).
  contradiction.
Qed.

Lemma Interactive_set_currentResponse_keeps r :
  keeps Interactive.isConnected (Interactive.set_currentResponse r).
Proof. intros s. reflexivity. Qed.

Lemma Interactive_handleServerEvent_keeps event :
  keeps Interactive.isConnected (Interactive.handleServerEvent event).
Proof.
  unfold Interactive.handleServerEvent.
  apply keeps_bind_lift. intros type _.
  apply keeps_switch; [|keeps_tac].
  intros label body Hin _.
  cbn [Interactive.handleServerEvent_cases In] in Hin.
  unfold console_log, console_error, Interactive.showPrompt in Hin.
  repeat (destruct Hin as [Hin|Hin]; [injection Hin as <- <-|]).
  all: try contradiction.
  all: repeat first
         [ apply Interactive_set_currentResponse_keeps
         | apply keeps_bind_lift | apply keeps_bind | apply keeps_lift
         | apply keeps_emit | apply keeps_ret | apply keeps_get | intro ].
  all: try (destruct a; keeps_tac).
Qed.

(** X1.  Whatever event arrives, the handlers of index.js and of the
    interactive client only print: nothing is written to the socket, the
    socket is not closed and the process is not ended.  The client of
    index.js is left exactly as it was; the interactive client keeps its
    connection flag (only the accumulated text may change). *)
Theorem console_handlers_only_print event (c : StepFun.Client) (i : Interactive.Client) :
  final (StepFun.handleServerEvent event c) = c
  /\ sent (trace (StepFun.handleServerEvent event c)) = []
  /\ existsb is_shutdown (trace (StepFun.handleServerEvent event c)) = false
  /\ Interactive.isConnected (final (Interactive.handleServerEvent event i))
     = Interactive.isConnected i
  /\ sent (trace (Interactive.handleServerEvent event i)) = []
  /\ existsb is_shutdown (trace (Interactive.handleServerEvent event i)) = false.
Proof.
  split; [apply StepFun_handleServerEvent_keeps|].
  split; [apply never_send_sent, StepFun_handleServerEvent_never; reflexivity|].
  split; [apply StepFun_handleServerEvent_never; reflexivity|].
  split; [apply Interactive_handleServerEvent_keeps|].
  split; [apply never_send_sent, Interactive_handleServerEvent_never; reflexivity|].
  apply Interactive_handleServerEvent_never; reflexivity.
Qed.

(* ================================================================== *)
(** * Inbound events in the tool-call client *)
(* ================================================================== *)

Lemma ToolCall_handleServerEvent_quiet env event :
  tag_is event "response.function_call_arguments.done" = false ->
  never is_send (ToolCall.handleServerEvent env event).
Proof.
  unfold tag_is. intros Hd. unfold ToolCall.handleServerEvent.
  apply never_bind_lift. intros type Htype. rewrite Htype in Hd.
  apply never_bind_lift. intros shown _.
  apply never_bind; [never_tac|]. intros _.
  apply never_switch; [|never_tac].
  intros label body Hin His.
  cbn [ToolCall.handleServerEvent_cases In] in Hin.
  unfold console_log, console_error in Hin.
  repeat (destruct Hin as [Hin|Hin];
          [ injection Hin as <- <-;
            try (rewrite His in Hd; discriminate Hd);
            never_tac | ]).
  contradiction.
Qed.

Lemma handleFunctionCall_keeps env event :
  keeps (fun t : ToolCall.Client => t) (ToolCall.handleFunctionCall env event).
Proof. intros t. apply handleFunctionCall_sends. Qed.

Lemma sent_cons_other (e : effect) (t : list effect) :
  is_send e = false -> sent (e :: t) = sent t.
Proof. destruct e; try discriminate; reflexivity. Qed.

(** X21.  The tool-call client never changes its own fields when an
    event arrives, and the only thing it ever writes to the socket in
    reaction to one is the pair of messages for a completed function call:
    for every event, either nothing is sent, or the event is
    response.function_call_arguments.done and what is sent is one tool
    result followed by one response request. *)
Theorem tool_client_answers_only_calls env event (t : ToolCall.Client) :
  final (ToolCall.handleServerEvent env event t) = t
  /\ (sent (trace (ToolCall.handleServerEvent env event t)) = []
      \/ (tag_is event "response.function_call_arguments.done" = true
          /\ exists callId result,
               sent (trace (ToolCall.handleServerEvent env event t))
               = on_wire (ToolCall.isConnected t)
                   [ ToolCall.tool_result_submission callId result;
                     ToolCall.response_request ])).
Proof.
  destruct (tag_is event "response.function_call_arguments.done") eqn:Hd.
  - destruct (tag_is_object _ _ Hd) as [props [-> Htype]].
    assert (E : ToolCall.handleServerEvent env (VObject props) t
                = prepend
                    [ ConsoleLog [VString "[response.function_call_arguments.done]"];
                      ConsoleLog [VString "函数调用:"; Get props "name"];
                      ConsoleLog [VString "参数:"; Get props "arguments"] ]
                    (ToolCall.handleFunctionCall env (VObject props) t)).
    { unfold ToolCall.handleServerEvent.
      mstep. cbn [member]. rewrite Htype. mstep. cbn [ToString]. mstep.
      run_switch. mstep. cbn [member]. mstep. reflexivity. }
    rewrite E. cbn [prepend final trace app].
    rewrite !sent_cons_other by reflexivity.
    destruct (handleFunctionCall_sends env (VObject props) t) as [Hf [[_ Hs]|[e [_ Hs]]]].
    + split; [exact Hf|]. right. split; [reflexivity|exact Hs].
    + split; [exact Hf|]. left. exact Hs.
  - split.
    + unfold ToolCall.handleServerEvent.
      revert t. change (keeps (fun t : ToolCall.Client => t)
                          (ToolCall.handleServerEvent env event)).
      unfold ToolCall.handleServerEvent.
      apply keeps_bind_lift. intros type _.
      apply keeps_bind_lift. intros shown _.
      apply keeps_bind; [keeps_tac|]. intros _.
      apply keeps_switch; [|keeps_tac].
      intros label body Hin _.
      cbn [ToolCall.handleServerEvent_cases In] in Hin.
      unfold console_log, console_error, stdout_write in Hin.
      repeat (destruct Hin as [Hin|Hin]; [injection Hin as <- <-|]).
      all: try contradiction.
      all: repeat first
             [ apply handleFunctionCall_keeps
             | apply keeps_bind_lift | apply keeps_bind | apply keeps_lift
             | apply keeps_emit | apply keeps_ret | intro ].
      destruct a; keeps_tac.
    + left. apply never_send_sent. now apply ToolCall_handleServerEvent_quiet.
Qed.

(* ================================================================== *)
(** * Inbound frames in the browser page *)
(* ================================================================== *)

(** [handleResponse] on any value that has a [type]: the console line,
    the pending timeout, then the branch. *)
Lemma handleResponse_branch data type b :
  member data "type" = Normal type ->
  Browser.handleResponse data b
  = prepend (ConsoleLog [VString "[响应]"; type; data] :: clear_timeout b)
      (Browser_branch data type (timeout_cleared b)).
Proof.
  intros Htype. unfold Browser.handleResponse, Browser_branch.
  rewrite bind_lift, Htype. mstep.
  unfold clear_timeout, timeout_cleared.
  destruct b as [ic sid wid txt chunks tr [id|]]; cbn [Browser.responseTimeout].
  - unfold Browser.set_responseTimeout. mstep. reflexivity.
  - mstep. reflexivity.
Qed.

Lemma set_currentTextResponse_untouched t :
  keeps untouched_by_branches (Browser.set_currentTextResponse t).
Proof. intros s. reflexivity. Qed.

Lemma set_currentAudioChunks_untouched l :
  keeps untouched_by_branches (Browser.set_currentAudioChunks l).
Proof. intros s. reflexivity. Qed.

Lemma set_currentTranscript_untouched t :
  keeps untouched_by_branches (Browser.set_currentTranscript t).
Proof. intros s. reflexivity. Qed.

Ltac branch_keeps_tac :=
  repeat first
    [ apply set_currentTextResponse_untouched
    | apply set_currentAudioChunks_untouched
    | apply set_currentTranscript_untouched
    | apply playAudio_keeps
    | apply keeps_bind_lift | apply keeps_bind | apply keeps_lift
    | apply keeps_emit | apply keeps_ret | apply keeps_get
    | match goal with |- keeps _ (if ?c then _ else _) => destruct c end
    | intro ].

Lemma Browser_branch_keeps data type :
  keeps untouched_by_branches (Browser_branch data type).
Proof.
  unfold Browser_branch. destruct (is_string type "error").
  { unfold Browser.log. branch_keeps_tac. }
  apply keeps_switch; [|unfold Browser.log; branch_keeps_tac].
  intros label body Hin _.
  cbn [Browser.handleResponse_cases In] in Hin.
  unfold Browser.log, Browser.updateTextDisplay, console_log in Hin.
  repeat (destruct Hin as [Hin|Hin]; [injection Hin as <- <-; branch_keeps_tac|]).
  contradiction.
Qed.

Section BranchNever.

Variable p : effect -> bool.
Hypothesis p_log : forall args, p (ConsoleLog args) = false.
Hypothesis p_dom : forall message type, p (DomLog message type) = false.
Hypothesis p_dom_caught : forall prefix e type, p (DomLogCaught prefix e type) = false.
Hypothesis p_error_caught : forall label e rest, p (ConsoleErrorCaught label e rest) = false.
Hypothesis p_text : forall text, p (TextDisplay text) = false.
Hypothesis p_pcm : forall pcm, p (PcmCombined pcm) = false.

Lemma playAudio_never chunks : never p (Browser.playAudio chunks).
Proof.
  unfold Browser.playAudio, Browser.log. destruct chunks; [apply never_ret|].
  never_tac.
Qed.

Lemma Browser_branch_never data type : never p (Browser_branch data type).
Proof.
  unfold Browser_branch. destruct (is_string type "error").
  { unfold Browser.log. never_tac. }
  apply never_switch; [|unfold Browser.log; never_tac].
  intros label body Hin _.
  cbn [Browser.handleResponse_cases In] in Hin.
  unfold Browser.log, Browser.updateTextDisplay, console_log,
    Browser.set_currentTextResponse, Browser.set_currentAudioChunks,
    Browser.set_currentTranscript in Hin.
  repeat (destruct Hin as [Hin|Hin];
          [ injection Hin as <- <-;
            repeat first
              [ apply playAudio_never
              | apply never_bind_lift | apply never_bind | apply never_lift
              | apply never_ret | apply never_get | apply never_put
              | apply never_emit; solve [auto]
              | match goal with |- never _ (if ?c then _ else _) => destruct c end
              | intro ] | ]).
  contradiction.
Qed.

Hypothesis p_clear : forall id, p (ClearTimeout id) = false.

Lemma handleResponse_never data : never p (Browser.handleResponse data).
Proof.
  intros b. destruct (member data "type") as [type|e] eqn:E.
  - rewrite (handleResponse_branch _ _ _ E). cbn [prepend trace].
    rewrite existsb_app, (Browser_branch_never data type), orb_false_r.
    cbn [existsb]. rewrite p_log. cbn [orb].
    unfold clear_timeout. destruct (Browser.responseTimeout b); [|reflexivity].
    cbn [existsb]. now rewrite p_clear.
  - unfold Browser.handleResponse. now rewrite bind_lift, E.
Qed.

Lemma onmessage_never frame : never p (Browser.onmessage frame).
Proof.
  unfold Browser.onmessage, console_log.
  apply never_bind; [apply never_get|]. intros this.
  apply never_bind; [apply never_emit; auto|]. intros _.
  apply never_bind; [apply never_emit; auto|]. intros _.
  apply never_try_catch.
  - apply never_bind_lift. intros parsed _.
    apply never_bind; [apply never_emit; auto|]. intros _.
    apply handleResponse_never.
  - intros e. apply never_bind; [apply never_emit; auto|]. intros _.
    apply never_emit; auto.
Qed.

End BranchNever.

Lemma handleResponse_keeps_connection data :
  keeps connection (Browser.handleResponse data).
Proof.
  intros b. destruct (member data "type") as [type|e] eqn:E.
  - rewrite (handleResponse_branch _ _ _ E). cbn [prepend final].
    pose proof (Browser_branch_keeps data type (timeout_cleared b)) as H.
    unfold untouched_by_branches in H. unfold connection.
    injection H as H1 H2 H3 _. now rewrite H1, H2, H3.
  - unfold Browser.handleResponse. now rewrite bind_lift, E.
Qed.

Lemma onmessage_keeps_connection frame :
  keeps connection (Browser.onmessage frame).
Proof.
  unfold Browser.onmessage, console_log.
  apply keeps_bind; [apply keeps_get|]. intros this.
  apply keeps_bind; [apply keeps_emit|]. intros _.
  apply keeps_bind; [apply keeps_emit|]. intros _.
  apply keeps_try_catch.
  - apply keeps_bind_lift. intros parsed _.
    apply keeps_bind; [apply keeps_emit|]. intros _.
    apply handleResponse_keeps_connection.
  - intros e. apply keeps_bind; [apply keeps_emit|]. intros _. apply keeps_emit.
Qed.

Lemma for_each_keeps {S X A} (f : S -> X) (body : A -> M S unit) l :
  (forall x, keeps f (body x)) -> keeps f (for_each l body).
Proof.
  intros H. induction l as [|x l IH]; [apply keeps_ret|].
  cbn [for_each]. apply keeps_bind; [apply H|]. intros _. exact IH.
Qed.

Lemma for_each_never {S A} (p : effect -> bool) (body : A -> M S unit) l :
  (forall x, never p (body x)) -> never p (for_each l body).
Proof.
  intros H. induction l as [|x l IH]; [apply never_ret|].
  cbn [for_each]. apply never_bind; [apply H|]. intros _. exact IH.
Qed.

(** X12.  Whatever frames the socket delivers, well formed or not, the
    message callback of the page returns normally for each of them, leaves
    the connection flag, the session id and the socket id as they were,
    writes nothing to the socket and does not close it: the page only
    displays what the server sends. *)
Theorem page_only_displays frames (b : Browser.Client) :
  outcome (Browser_receive_all frames b) = Normal tt
  /\ connection (final (Browser_receive_all frames b)) = connection b
  /\ sent (trace (Browser_receive_all frames b)) = []
  /\ existsb is_shutdown (trace (Browser_receive_all frames b)) = false.
Proof.
  split.
  { unfold Browser_receive_all. revert b.
    induction frames as [|frame frames IH]; intros b; [reflexivity|].
    cbn [for_each]. rewrite (bind_normal _ _ _ _ (proj1 (onmessage_text frame b))).
    apply IH. }
  split; [apply for_each_keeps, onmessage_keeps_connection|].
  split.
  - apply never_send_sent, for_each_never. intros frame.
    apply onmessage_never; reflexivity.
  - apply for_each_never. intros frame. apply onmessage_never; reflexivity.
Qed.

Lemma never_clear_cleared (t : list effect) : existsb is_clear t = false -> cleared t = [].
Proof.
  induction t as [|e t IH]; [reflexivity|].
  cbn [existsb]. intros H. apply orb_false_iff in H as [He Ht].
  destruct e; try discriminate He; exact (IH Ht).
Qed.

Lemma cleared_cons_other (e : effect) (t : list effect) :
  is_clear e = false -> cleared (e :: t) = cleared t.
Proof. destruct e; try discriminate; reflexivity. Qed.

Lemma cleared_app (a b : list effect) : cleared (a ++ b) = (cleared a ++ cleared b)%list.
Proof. unfold cleared. apply flat_map_app. Qed.

(** X13.  The timeout that sendAudio and processRecording arm is cancelled
    by the first frame that parses to a value with a type to read, whatever
    the event is and whether handling it then succeeds or throws: after
    such a frame no timeout is pending and the pending one, if any, was
    cancelled exactly once.  A frame that is not JSON, or the frame null,
    fails before that point and leaves the timeout armed. *)
Theorem frame_cancels_pending_timeout frame (b : Browser.Client) :
  Browser.responseTimeout (final (Browser.onmessage frame b))
  = (if carries_event frame then None else Browser.responseTimeout b)
  /\ cleared (trace (Browser.onmessage frame b))
     = (if carries_event frame then pending b else []).
Proof.
  unfold Browser.onmessage, carries_event. rewrite bind_get.
  rewrite !bind_console_log. cbn [prepend final trace].
  unfold try_catch. rewrite bind_lift.
  destruct (JSON_parse frame) as [data|e]; cbn [outcome final trace];
    [|split; reflexivity].
  rewrite bind_console_log. cbn [prepend outcome final trace].
  destruct (member data "type") as [type|e] eqn:E.
  - rewrite (handleResponse_branch _ _ _ E). cbn [prepend outcome final trace].
    pose proof (Browser_branch_keeps data type (timeout_cleared b)) as Hk.
    assert (Hn : cleared (trace (Browser_branch data type (timeout_cleared b))) = [])
      by (apply never_clear_cleared, Browser_branch_never; reflexivity).
    unfold untouched_by_branches in Hk. injection Hk as _ _ _ Hk.
    assert (Hp : cleared (clear_timeout b) = pending b)
      by (unfold clear_timeout, pending; destruct (Browser.responseTimeout b); reflexivity).
    destruct (Browser_branch data type (timeout_cleared b)) as [[[]|e] s1 t1];
      cbn [prepend bind emit outcome final trace] in *.
    all: split; [exact Hk|].
    all: repeat first [ rewrite cleared_app | rewrite cleared_cons_other by reflexivity ].
    all: change (cleared []) with (@nil N).
    all: rewrite Hn, Hp, ?app_nil_r; reflexivity.
  - unfold Browser.handleResponse. rewrite bind_lift, E. split; reflexivity.
Qed.

(* ================================================================== *)
(** * The transcript of the page under arbitrary traffic *)
(* ================================================================== *)

Lemma handleResponse_transcript_delta props d b :
  Get props "type" = VString "response.audio_transcript.delta" ->
  ToString (Get props "delta") = Normal d ->
  Browser.handleResponse (VObject props) b
  = mkResult (Normal tt) (with_transcript b (Browser.currentTranscript b ++ d))
      (ConsoleLog [VString "[响应]"; VString "response.audio_transcript.delta"; VObject props]
         :: clear_timeout b
         ++ [DomLog ("📝 转录: " ++ Browser.currentTranscript b ++ d) "transcript"])%list.
Proof.
  intros Htype Hdelta. rewrite (handleResponse_prologue props _ b Htype).
  cbn [is_string String.eqb Ascii.eqb Bool.eqb]. run_switch.
  unfold Browser.log, Browser.set_currentTranscript.
  mstep. cbn [member]. mstep. rewrite Hdelta. mstep.
  destruct b as [ic sid wid txt chunks tr [id|]]; reflexivity.
Qed.

Lemma handleResponse_transcript_delta_throws props e b :
  Get props "type" = VString "response.audio_transcript.delta" ->
  ToString (Get props "delta") = Throw e ->
  Browser.handleResponse (VObject props) b
  = mkResult (Throw e) (timeout_cleared b)
      (ConsoleLog [VString "[响应]"; VString "response.audio_transcript.delta"; VObject props]
         :: clear_timeout b)%list.
Proof.
  intros Htype Hdelta. rewrite (handleResponse_prologue props _ b Htype).
  cbn [is_string String.eqb Ascii.eqb Bool.eqb]. run_switch.
  mstep. cbn [member]. mstep. rewrite Hdelta.
  destruct b as [ic sid wid txt chunks tr [id|]]; reflexivity.
Qed.

(** Every event other than response.created and
    response.audio_transcript.delta leaves the transcript alone. *)
Lemma handleResponse_keeps_transcript data :
  tag_is data "response.created" = false ->
  tag_is data "response.audio_transcript.delta" = false ->
  keeps Browser.currentTranscript (Browser.handleResponse data).
Proof.
  unfold tag_is. intros Hc Hd. unfold Browser.handleResponse.
  apply keeps_bind_lift. intros type Htype. rewrite Htype in Hc, Hd.
  apply keeps_bind; [apply keeps_emit|]. intros _.
  apply keeps_bind; [apply keeps_get|]. intros this.
  apply keeps_bind.
  { destruct (Browser.responseTimeout this); [|apply keeps_ret].
    apply keeps_bind; [apply keeps_emit|]. intros _ s. reflexivity. }
  intros _. destruct (is_string type "error").
  { unfold Browser.log. keeps_tac. }
  apply keeps_switch; [|unfold Browser.log; keeps_tac].
  intros label body Hin His.
  cbn [Browser.handleResponse_cases In] in Hin.
  repeat (destruct Hin as [Hin|Hin];
          [ injection Hin as <- <-;
            try (rewrite His in Hc; discriminate Hc);
            try (rewrite His in Hd; discriminate Hd);
            unfold Browser.log, Browser.set_currentTextResponse,
              Browser.updateTextDisplay, Browser.set_currentAudioChunks;
            try (keeps_tac; fail) | ]).
  - apply keeps_bind; [apply keeps_get|]. intros this'.
    apply keeps_bind; [apply keeps_emit|]. intros _.
    destruct (0 <? _)%nat; [apply playAudio_keeps|apply keeps_ret].
  - contradiction.
Qed.

Lemma handleResponse_transcript data b :
  Browser.currentTranscript (final (Browser.handleResponse data b))
  = if tag_is data "response.created" then ""
    else if tag_is data "response.audio_transcript.delta" then
      match cbind (member data "delta") ToString with
      | Normal fragment => Browser.currentTranscript b ++ fragment
      | Throw _ => Browser.currentTranscript b
      end
    else Browser.currentTranscript b.
Proof.
  destruct (tag_is data "response.created") eqn:Hc.
  { destruct (tag_is_object _ _ Hc) as [props [-> Htype]].
    now rewrite (handleResponse_created props b Htype). }
  destruct (tag_is data "response.audio_transcript.delta") eqn:Hd.
  { destruct (tag_is_object _ _ Hd) as [props [-> Htype]].
    cbn [member cbind].
    destruct (ToString (Get props "delta")) as [fragment|e] eqn:Hdelta.
    - now rewrite (handleResponse_transcript_delta props fragment b Htype Hdelta).
    - now rewrite (handleResponse_transcript_delta_throws props e b Htype Hdelta). }
  apply handleResponse_keeps_transcript; assumption.
Qed.

(** X11.  For every sequence of frames whatsoever, the transcript the page
    has accumulated is the fold of [transcript_after] over the frames: it
    is emptied by each response.created, extended by each printable
    response.audio_transcript.delta, in arrival order, and touched by
    nothing else, neither by text or audio events nor by frames that fail
    to parse. *)
Theorem transcript_accumulator_refines frames (b : Browser.Client) :
  Browser.currentTranscript (final (Browser_receive_all frames b))
  = fold_left transcript_after frames (Browser.currentTranscript b).
Proof.
  unfold Browser_receive_all. revert b.
  induction frames as [|frame frames IH]; intros b; [reflexivity|].
  cbn [for_each fold_left].
  destruct (onmessage_text frame b) as [Ho _].
  rewrite (bind_normal _ _ _ _ Ho). cbn [prepend final].
  rewrite IH. f_equal.
  unfold Browser.onmessage, transcript_after. rewrite bind_get.
  rewrite !bind_console_log. cbn [prepend final].
  unfold try_catch. rewrite bind_lift.
  destruct (JSON_parse frame) as [data|e]; cbn [outcome final]; [|reflexivity].
  rewrite bind_console_log. cbn [prepend outcome final].
  pose proof (handleResponse_transcript data b) as H.
  destruct (Browser.handleResponse data b) as [[[]|e] s1 t1];
    cbn [outcome final] in *; exact H.
Qed.

(* ================================================================== *)
(** * Error events *)
(* ================================================================== *)

Lemma handleResponse_error props shown b :
  Get props "type" = VString "error" ->
  cbind (Browser.error_message (VObject props)) ToString = Normal shown ->
  Browser.handleResponse (VObject props) b
  = mkResult (Normal tt) (timeout_cleared b)
      (ConsoleLog [VString "[响应]"; VString "error"; VObject props]
         :: clear_timeout b ++ [DomLog ("❌ 错误: " ++ shown) "error"])%list.
Proof.
  intros Htype Hshown. rewrite (handleResponse_prologue props _ b Htype).
  cbn [is_string String.eqb Ascii.eqb Bool.eqb].
  unfold Browser.log. rewrite bind_lift.
  destruct (Browser.error_message (VObject props)) as [errorMsg|e];
    cbn [cbind] in Hshown; [|discriminate Hshown].
  rewrite bind_lift, Hshown.
  destruct b as [ic sid wid txt chunks tr [id|]]; reflexivity.
Qed.

(** X7.  An error event that carries no error object (the field is
    absent or null) is handled differently by the four clients.  index.js
    and the tool-call client print the absent value; the browser page
    falls back to the JSON text of the whole event; the interactive client
    reads the message of the absent object, so the handler throws a
    TypeError before anything is printed and the prompt is not shown
    again. *)
Theorem error_event_without_payload env props
  (c : StepFun.Client) (t : ToolCall.Client) (i : Interactive.Client) (b : Browser.Client) :
  Get props "type" = VString "error" ->
  Get props "error" = VUndefined \/ Get props "error" = VNull ->
  StepFun.handleServerEvent (VObject props) c
    = mkResult (Normal tt) c
        [ ConsoleLog [VString (LF ++ "[服务器事件]"); VString "error"];
          ConsoleError [VString "服务器错误:"; Get props "error"] ]
  /\ ToolCall.handleServerEvent env (VObject props) t
    = mkResult (Normal tt) t
        [ ConsoleLog [VString "[error]"];
          ConsoleError [VString "错误:"; Get props "error"] ]
  /\ Interactive.handleServerEvent (VObject props) i = mkResult (Throw TypeError) i []
  /\ Browser.handleResponse (VObject props) b
    = mkResult (Normal tt) (timeout_cleared b)
        (ConsoleLog [VString "[响应]"; VString "error"; VObject props]
           :: clear_timeout b
           ++ [DomLog ("❌ 错误: " ++ wire (VObject props)) "error"])%list.
Proof.
  intros Htype Herr. split; [|split; [|split]].
  - unfold StepFun.handleServerEvent. mstep. cbn [member]. rewrite Htype. mstep.
    run_switch. mstep. reflexivity.
  - unfold ToolCall.handleServerEvent. mstep. cbn [member]. rewrite Htype. mstep.
    cbn [ToString]. mstep. run_switch. mstep. reflexivity.
  - unfold Interactive.handleServerEvent. mstep. cbn [member]. rewrite Htype.
    run_switch. mstep. cbn [member].
    destruct Herr as [-> | ->]; reflexivity.
  - apply handleResponse_error; [exact Htype|].
    unfold Browser.error_message. cbn [member cbind].
    destruct Herr as [-> | ->]; reflexivity.
Qed.

Lemma error_event_without_payload_witness :
  Get [("type", VString "error")] "error" = VUndefined
  /\ Interactive.handleServerEvent (event "error" []) (Interactive.mkClient true "Hel")
     = mkResult (Throw TypeError) (Interactive.mkClient true "Hel") []
  /\ Browser.handleResponse (event "error" []) Browser.new_Client
     = mkResult (Normal tt) Browser.new_Client
         [ ConsoleLog [VString "[响应]"; VString "error"; event "error" []];
           DomLog (dq "❌ 错误: {'type':'error'}") "error" ].
Proof.
  split; [reflexivity|].
  destruct (error_event_without_payload Samples.environment [("type", VString "error")]
              StepFun.new_Client ToolCall.new_Client (Interactive.mkClient true "Hel")
              Browser.new_Client eq_refl (or_introl eq_refl)) as [_ [_ [E1 E2]]].
  split; [exact E1|exact E2].
Defined.

(** X14.  What the page reports for an error event is chosen in this
    order: the message of the error object when it is a non-empty string;
    else the error itself, so an error given as a non-empty string is
    shown as it is, and an error object without a message is shown as the
    text an object converts to, not as JSON.  In each case the handler
    returns normally after one log line of type error, and the three
    accumulators are as they were. *)
Theorem page_error_report props (b : Browser.Client) :
  Get props "type" = VString "error" ->
  (forall eprops m,
      Get props "error" = VObject eprops -> Get eprops "message" = VString m -> m <> "" ->
      Browser.handleResponse (VObject props) b
      = mkResult (Normal tt) (timeout_cleared b)
          (ConsoleLog [VString "[响应]"; VString "error"; VObject props]
             :: clear_timeout b ++ [DomLog ("❌ 错误: " ++ m) "error"])%list)
  /\ (forall s,
      Get props "error" = VString s -> s <> "" ->
      Browser.handleResponse (VObject props) b
      = mkResult (Normal tt) (timeout_cleared b)
          (ConsoleLog [VString "[响应]"; VString "error"; VObject props]
             :: clear_timeout b ++ [DomLog ("❌ 错误: " ++ s) "error"])%list)
  /\ (forall eprops,
      Get props "error" = VObject eprops ->
      ToBoolean (Get eprops "message") = false -> own eprops "toString" = None ->
      Browser.handleResponse (VObject props) b
      = mkResult (Normal tt) (timeout_cleared b)
          (ConsoleLog [VString "[响应]"; VString "error"; VObject props]
             :: clear_timeout b ++ [DomLog "❌ 错误: [object Object]" "error"])%list).
Proof.
  intros Htype. split; [|split].
  - intros eprops m Herr Hm Hne. apply handleResponse_error; [exact Htype|].
    unfold Browser.error_message. cbn [member cbind]. rewrite Herr.
    cbn [member cbind]. rewrite Hm. cbn [ToBoolean].
    apply String.eqb_neq in Hne. now rewrite Hne.
  - intros s Herr Hne. apply handleResponse_error; [exact Htype|].
    unfold Browser.error_message. cbn [member cbind]. rewrite Herr.
    cbn [member cbind ToBoolean].
    apply String.eqb_neq in Hne. now rewrite Hne.
  - intros eprops Herr Hm Hts. apply handleResponse_error; [exact Htype|].
    unfold Browser.error_message. cbn [member cbind]. rewrite Herr.
    cbn [member cbind]. rewrite Hm. cbn [ToBoolean ToString]. now rewrite Hts.
Qed.

Lemma page_error_report_witness :
  Browser.handleResponse
    (event "error" [("error", VObject [("code", VString "rate_limited")])])
    Browser.new_Client
  = mkResult (Normal tt) Browser.new_Client
      [ ConsoleLog [ VString "[响应]"; VString "error";
                     event "error" [("error", VObject [("code", VString "rate_limited")])] ];
        DomLog "❌ 错误: [object Object]" "error" ].
Proof.
  destruct (page_error_report
              [("type", VString "error");
               ("error", VObject [("code", VString "rate_limited")])]
              Browser.new_Client eq_refl) as [_ [_ H]].
  exact (H [("code", VString "rate_limited")] eq_refl eq_refl eq_refl).
Defined.

(* ================================================================== *)
(** * Playback *)
(* ================================================================== *)




(* ================================================================== *)
(** * arrayBufferToBase64 *)
(* ================================================================== *)

Lemma encode_length_exact (l : list N) :
  List.length (Base64.encode l) = 4 * ((List.length l + 2) / 3).
Proof.
  induction l as [|a|a b|a b c l IH] using list_ind3; try reflexivity.
  cbn [Base64.encode List.length]. rewrite IH.
  replace (S (S (S (List.length l))) + 2) with ((List.length l + 2) + 1 * 3) by lia.
  rewrite Nat.div_add by lia. lia.
Qed.

Lemma length_string_of_list_ascii (l : list ascii) :
  String.length (string_of_list_ascii l) = List.length l.
Proof. induction l as [|c l IH]; cbn; [reflexivity|now rewrite IH]. Qed.

(** X18.  arrayBufferToBase64 never throws: every code unit it hands to
    btoa is a byte.  The text it returns has four characters for every
    three bytes, the last group padded, so its length is a multiple of
    four (the warning sendAudio has for another length is never logged),
    and decoding the text as playAudio decodes a chunk gives the bytes
    back. *)
Theorem arrayBufferToBase64_total (buffer : list Byte.byte) :
  exists text,
    Browser.arrayBufferToBase64 buffer = Normal text
    /\ String.length text = 4 * ((List.length buffer + 2) / 3)
    /\ (String.length text mod 4 =? 0)%nat = true
    /\ Browser.decode_chunk (VString text) = Normal buffer.
Proof.
  destruct (decode_chunk_arrayBufferToBase64 buffer) as [text [Hb Hd]].
  exists text. split; [exact Hb|].
  assert (Hlen : String.length text = 4 * ((List.length buffer + 2) / 3)).
  { unfold Browser.arrayBufferToBase64, Base64.btoa in Hb.
    destruct (forallb _ _); [|discriminate Hb].
    injection Hb as <-.
    now rewrite length_string_of_list_ascii, encode_length_exact, length_map. }
  split; [exact Hlen|]. split; [|exact Hd].
  apply Nat.eqb_eq. rewrite Hlen, Nat.mul_comm. apply Nat.Div0.mod_mul.
Qed.

(* ================================================================== *)
(** * escapeHtml *)
(* ================================================================== *)

(** Induction on a string that may look two characters ahead. *)
Lemma string_ind2 (P : string -> Prop) :
  P "" -> (forall c, P (String c "")) ->
  (forall c1 c2 s, P s -> P (String c2 s) -> P (String c1 (String c2 s))) ->
  forall s, P s.
Proof.
  intros H0 H1 H2.
  assert (H : forall s, P s /\ forall c, P (String c s)).
  { induction s as [|c2 s [IH1 IH2]].
    - split; [exact H0|exact H1].
    - split; [apply IH2|]. intros c1. apply H2; [exact IH1|apply IH2]. }
  intros s. apply H.
Qed.

Lemma chars_app (a b : string) : chars (a ++ b) = (chars a ++ chars b)%list.
Proof. unfold chars. induction a as [|c a IH]; cbn; [reflexivity|now rewrite IH]. Qed.

Lemma ascii_of_code (c : ascii) (n : N) : N_of_ascii c = n -> c = ascii_of_N n.
Proof. intros <-. now rewrite ascii_N_embedding. Qed.

(** One step of [escapeHtml], by the kind of the first character. *)
Lemma escapeHtml_step (c : ascii) (rest : string) :
  (c = "&"%char /\ Browser.escapeHtml (String c rest) = "&amp;" ++ Browser.escapeHtml rest)
  \/ (c = "<"%char /\ Browser.escapeHtml (String c rest) = "&lt;" ++ Browser.escapeHtml rest)
  \/ (c = ">"%char /\ Browser.escapeHtml (String c rest) = "&gt;" ++ Browser.escapeHtml rest)
  \/ (exists rest2,
        c = ascii_of_N 194 /\ rest = String (ascii_of_N 160) rest2
        /\ Browser.escapeHtml (String c rest) = "&nbsp;" ++ Browser.escapeHtml rest2)
  \/ ((N_of_ascii c =? 38)%N = false /\ c <> "<"%char /\ c <> ">"%char
      /\ Browser.escapeHtml (String c rest) = String c (Browser.escapeHtml rest)).
Proof.
  cbn [Browser.escapeHtml].
  destruct (N_of_ascii c =? 38)%N eqn:E1.
  { left. apply N.eqb_eq, ascii_of_code in E1. now subst. }
  destruct (N_of_ascii c =? 60)%N eqn:E2.
  { right; left. apply N.eqb_eq, ascii_of_code in E2. now subst. }
  destruct (N_of_ascii c =? 62)%N eqn:E3.
  { right; right; left. apply N.eqb_eq, ascii_of_code in E3. now subst. }
  assert (Hlt : c <> "<"%char) by (intros ->; discriminate E2).
  assert (Hgt : c <> ">"%char) by (intros ->; discriminate E3).
  destruct rest as [|c2 rest2].
  { right; right; right; right. repeat split; assumption. }
  destruct (Browser.is_nbsp c c2) eqn:E4.
  - right; right; right; left. exists rest2.
    unfold Browser.is_nbsp in E4. apply andb_prop in E4 as [Ea Eb].
    apply N.eqb_eq, ascii_of_code in Ea. apply N.eqb_eq, ascii_of_code in Eb.
    subst. repeat split.
  - right; right; right; right. repeat split; assumption.
Qed.

Lemma escapeHtml_no_markup (text : string) :
  Forall (fun c => c <> "<"%char /\ c <> ">"%char) (chars (Browser.escapeHtml text)).
Proof.
  induction text as [|c|c1 c2 rest IH1 IH2] using string_ind2.
  - constructor.
  - destruct (escapeHtml_step c "")
      as [[-> ->]|[[-> ->]|[[-> ->]|[[rest2 [_ [Hr _]]]|[_ [Hl [Hg ->]]]]]]];
      try discriminate Hr;
      repeat (constructor; [split; discriminate|]); try (constructor; fail).
    constructor; [now split|constructor].
  - destruct (escapeHtml_step c1 (String c2 rest))
      as [[-> ->]|[[-> ->]|[[-> ->]|[[rest2 [-> [Hr ->]]]|[_ [Hl [Hg ->]]]]]]].
    + rewrite chars_app. apply Forall_app. split; [|exact IH2].
      repeat (constructor; [split; discriminate|]). constructor.
    + rewrite chars_app. apply Forall_app. split; [|exact IH2].
      repeat (constructor; [split; discriminate|]). constructor.
    + rewrite chars_app. apply Forall_app. split; [|exact IH2].
      repeat (constructor; [split; discriminate|]). constructor.
    + injection Hr as -> ->. rewrite chars_app. apply Forall_app. split; [|exact IH1].
      repeat (constructor; [split; discriminate|]). constructor.
    + constructor; [now split|exact IH2].
Qed.

Lemma decode_reference (html : string) :
  decode_references 0 ("&amp;" ++ html) = String "&" (decode_references 0 html)
  /\ decode_references 0 ("&lt;" ++ html) = String "<" (decode_references 0 html)
  /\ decode_references 0 ("&gt;" ++ html) = String ">" (decode_references 0 html)
  /\ decode_references 0 ("&nbsp;" ++ html)
     = String (ascii_of_N 194) (String (ascii_of_N 160) (decode_references 0 html)).
Proof. repeat split; destruct html; reflexivity. Qed.

Lemma decode_escapeHtml (text : string) :
  decode_references 0 (Browser.escapeHtml text) = text.
Proof.
  induction text as [|c|c1 c2 rest IH1 IH2] using string_ind2.
  - reflexivity.
  - destruct (escapeHtml_step c "")
      as [[-> ->]|[[-> ->]|[[-> ->]|[[rest2 [_ [Hr _]]]|[Ha [_ [_ ->]]]]]]];
      try discriminate Hr; try reflexivity.
    cbn [Browser.escapeHtml decode_references]. now rewrite Ha.
  - destruct (decode_reference (Browser.escapeHtml (String c2 rest))) as [Da [Dl [Dg _]]].
    destruct (decode_reference (Browser.escapeHtml rest)) as [_ [_ [_ Dn]]].
    destruct (escapeHtml_step c1 (String c2 rest))
      as [[-> ->]|[[-> ->]|[[-> ->]|[[rest2 [-> [Hr ->]]]|[Ha [_ [_ ->]]]]]]].
    + now rewrite Da, IH2.
    + now rewrite Dl, IH2.
    + now rewrite Dg, IH2.
    + injection Hr as -> ->. now rewrite Dn, IH1.
    + cbn [decode_references]. now rewrite Ha, IH2.
Qed.

(** X20.  The text escapeHtml returns holds neither angle bracket, so a
    message written to the log of the page cannot open or close a tag,
    whatever the server or a file name put into it.  Nothing of the message
    is lost either: reading the character references back gives the
    message, and two different messages are never shown as the same
    text. *)
Theorem escapeHtml_is_safe (text other : string) :
  Forall (fun c => c <> "<"%char /\ c <> ">"%char) (chars (Browser.escapeHtml text))
  /\ decode_references 0 (Browser.escapeHtml text) = text
  /\ (Browser.escapeHtml text = Browser.escapeHtml other -> text = other).
Proof.
  split; [apply escapeHtml_no_markup|]. split; [apply decode_escapeHtml|].
  intros H. rewrite <- (decode_escapeHtml text), <- (decode_escapeHtml other).
  now rewrite H.
Qed.

Lemma escapeHtml_is_safe_witness :
  Browser.escapeHtml "<b>R&D</b>" = "&lt;b&gt;R&amp;D&lt;/b&gt;"
  /\ ("<b>R&D</b>" = "<b>R&D</b>").
Proof.
  split; [reflexivity|].
  exact (proj2 (proj2 (escapeHtml_is_safe "<b>R&D</b>" "<b>R&D</b>")) eq_refl).
Defined.

(* ================================================================== *)
(** * From PCM bytes to samples *)
(* ================================================================== *)

Lemma list_ind_pairs {A} (P : list A -> Prop) :
  P [] -> (forall a, P [a]) -> (forall a b l, P l -> P (a :: b :: l)) ->
  forall l, P l.
Proof.
  intros H0 H1 H2.
  fix IH 1. intros [|a [|b l]]; [exact H0 | apply H1 | apply H2; apply IH].
Qed.

Lemma getInt16_range (lo hi : Byte.byte) :
  (-32768 <= Browser.getInt16 lo hi <= 32767)%Z.
Proof.
  unfold Browser.getInt16.
  pose proof (Byte.to_N_bounded lo). pose proof (Byte.to_N_bounded hi).
  destruct (_ <? 32768)%Z eqn:E; [apply Z.ltb_lt in E|apply Z.ltb_ge in E]; lia.
Qed.

Lemma to_float_range (int16 : Z) :
  (-32768 <= int16 <= 32767)%Z ->
  (-1 <= Browser.to_float int16)%Q /\ (Browser.to_float int16 <= 1)%Q.
Proof.
  intros H. unfold Browser.to_float, Qle.
  destruct (int16 <? 0)%Z eqn:E; [apply Z.ltb_lt in E|apply Z.ltb_ge in E];
    cbn [Qnum Qden]; lia.
Qed.

(** X17.  The samples playAudio hands to the audio buffer: one for every two
    bytes, a last odd byte being left out, and each of them, before it is
    rounded to single precision, between -1 and 1.  The two divisors make
    both ends exact: the lowest 16-bit value, bytes 00 80, is -1 and the
    highest, bytes FF 7F, is 1. *)
Theorem pcm16_samples_in_range (combined : list Byte.byte) :
  List.length (Browser.pcm16_to_float combined) = List.length combined / 2
  /\ Forall (fun sample => (-1 <= sample)%Q /\ (sample <= 1)%Q)
       (Browser.pcm16_to_float combined)
  /\ Browser.samples [Byte.x00; Byte.x80; Byte.xff; Byte.x7f] = [-32768; 32767]%Z
  /\ (Browser.to_float (-32768) == -1)%Q
  /\ (Browser.to_float 32767 == 1)%Q.
Proof.
  split; [|split; [|repeat split]].
  - unfold Browser.pcm16_to_float. rewrite length_map.
    induction combined as [|a|a b l IH] using list_ind_pairs; try reflexivity.
    cbn [Browser.samples List.length]. rewrite IH.
    replace (S (S (List.length l))) with (List.length l + 1 * 2) by lia.
    rewrite Nat.div_add by lia. lia.
  - unfold Browser.pcm16_to_float.
    induction combined as [|a|a b l IH] using list_ind_pairs; try constructor.
    + apply to_float_range, getInt16_range.
    + exact IH.
Qed.

(* ================================================================== *)
(** * updateSession of index.js *)
(* ================================================================== *)

Lemma own_replace_prop props k v k' :
  own props k <> None ->
  own (replace_prop props k v) k' = if k =? k' then Some v else own props k'.
Proof.
  induction props as [|[k0 v0] rest IH]; intros H; [contradiction|].
  cbn [replace_prop own] in *.
  destruct (k0 =? k) eqn:E0.
  - apply String.eqb_eq in E0. subst k0. cbn [own].
    destruct (k =? k'); reflexivity.
  - cbn [own]. destruct (k0 =? k') eqn:E1.
    + apply String.eqb_eq in E1. subst k'.
      rewrite String.eqb_sym in E0. now rewrite E0.
    + apply IH. exact H.
Qed.

Lemma own_insert_index props i k v k' :
  own props k = None ->
  own (insert_index props i k v) k' = if k =? k' then Some v else own props k'.
Proof.
  induction props as [|[k0 v0] rest IH]; intros H; [reflexivity|].
  cbn [own] in H. destruct (k0 =? k) eqn:E0; [discriminate H|].
  cbn [insert_index].
  destruct (array_index k0) as [j|]; [destruct (j <? i)%N|]; try reflexivity.
  cbn [own]. destruct (k0 =? k') eqn:E1.
  - apply String.eqb_eq in E1. subst k'.
    rewrite String.eqb_sym in E0. now rewrite E0.
  - apply IH. exact H.
Qed.

Lemma own_app_new props k v k' :
  own props k = None ->
  own (props ++ [(k, v)]) k' = if k =? k' then Some v else own props k'.
Proof.
  induction props as [|[k0 v0] rest IH]; intros H; [reflexivity|].
  cbn [own] in H. destruct (k0 =? k) eqn:E0; [discriminate H|].
  cbn [app own]. destruct (k0 =? k') eqn:E1.
  - apply String.eqb_eq in E1. subst k'.
    rewrite String.eqb_sym in E0. now rewrite E0.
  - apply IH. exact H.
Qed.

(** Reading a property after [set_prop]: the key that was set has the new
    value, every other key what it had. *)
Lemma own_set_prop props k v k' :
  own (set_prop props k v) k' = if k =? k' then Some v else own props k'.
Proof.
  unfold set_prop. destruct (own props k) eqn:E.
  - apply own_replace_prop. now rewrite E.
  - destruct (array_index k); [now apply own_insert_index|now apply own_app_new].
Qed.

Lemma own_absent props k : ~ In k (map fst props) -> own props k = None.
Proof.
  induction props as [|[k0 v0] rest IH]; intros H; [reflexivity|].
  cbn [own]. destruct (k0 =? k) eqn:E.
  - apply String.eqb_eq in E. exfalso. apply H. left. exact E.
  - apply IH. intros Hin. apply H. right. exact Hin.
Qed.

Lemma own_CopyDataProperties source :
  NoDup (map fst source) ->
  forall target k,
    own (CopyDataProperties target source) k
    = match own source k with
      | Some v => Some v
      | None => own target k
      end.
Proof.
  unfold CopyDataProperties.
  induction source as [|[k0 v0] rest IH]; intros Hnd target k; [reflexivity|].
  cbn [map fst] in Hnd. inversion Hnd as [|? ? Hnotin Hnd']; subst.
  cbn [fold_left fst snd own]. rewrite (IH Hnd'), own_set_prop.
  destruct (k0 =? k) eqn:E; [|reflexivity].
  apply String.eqb_eq in E. subst k0. now rewrite (own_absent _ _ Hnotin).
Qed.

(** X3.  updateSession of index.js lays the caller's configuration over
    its defaults: in the session that is sent, a key the caller gave has
    the caller's value and every other key has its default.  The request
    is one session.update frame on a connected client; on a client that is
    not connected send only prints its warning, and in both cases
    updateSession then prints that the request was sent. *)
Theorem updateSession_merges_over_defaults config (c : StepFun.Client) :
  NoDup (map fst config) ->
  (forall key,
      Get (StepFun.sessionConfig config) key
      = match own config key with
        | Some v => v
        | None => Get StepFun.defaultConfig key
        end)
  /\ StepFun.updateSession config c
     = mkResult (Normal tt) c
         [ if StepFun.isConnected c
           then SocketSend (wire (StepFun.session_update
                                    (VObject (StepFun.sessionConfig config))))
           else ConsoleError [VString "WebSocket 未连接"];
           ConsoleLog [VString "已发送会话更新请求"] ].
Proof.
  intros Hnd. split.
  - intros key. unfold Get, StepFun.sessionConfig.
    rewrite (own_CopyDataProperties config Hnd).
    destruct (own config key); reflexivity.
  - unfold StepFun.updateSession, StepFun.send. rewrite bind_assoc, bind_get.
    destruct (StepFun.isConnected c); reflexivity.
Qed.

Lemma updateSession_merges_over_defaults_witness :
  NoDup (map fst [ ("instructions", VString "你是一个友好、专业的AI助手，请用简洁的语言回答问题。");
                   ("voice", VString "alloy") ])
  /\ Get (StepFun.sessionConfig
            [ ("instructions", VString "你是一个友好、专业的AI助手，请用简洁的语言回答问题。");
              ("voice", VString "alloy") ]) "voice" = VString "alloy"
  /\ Get (StepFun.sessionConfig
            [ ("instructions", VString "你是一个友好、专业的AI助手，请用简洁的语言回答问题。");
              ("voice", VString "alloy") ]) "input_audio_format" = VString "pcm16".
Proof.
  assert (Hnd : NoDup (map fst [ ("instructions", VString "你是一个友好、专业的AI助手，请用简洁的语言回答问题。");
                                 ("voice", VString "alloy") ])).
  { cbn. repeat constructor; cbn; intuition discriminate. }
  split; [exact Hnd|].
  destruct (updateSession_merges_over_defaults _ StepFun.new_Client Hnd) as [H _].
  split; [exact (H "voice")|exact (H "input_audio_format")].
Defined.

(* ================================================================== *)
(** * JSON texts read back *)
(* ================================================================== *)

(** Induction on a value, with the hypothesis for the members of an array
    or an object. *)
Lemma value_ind_nested (P : value -> Prop) :
  P VUndefined -> P VNull -> (forall b, P (VBool b)) -> (forall n, P (VNumber n)) ->
  (forall s, P (VString s)) ->
  (forall elems, Forall P elems -> P (VArray elems)) ->
  (forall props, Forall (fun kv => P (snd kv)) props -> P (VObject props)) ->
  (forall n, P (VNative n)) ->
  forall v, P v.
Proof.
  intros Hu Hn Hb Hnum Hs Ha Ho Hnat.
  fix IH 1. intros [| |b|n|s|elems|props|n].
  - exact Hu.
  - exact Hn.
  - apply Hb.
  - apply Hnum.
  - apply Hs.
  - apply Ha. induction elems as [|e elems IHe]; constructor; [apply IH|exact IHe].
  - apply Ho. induction props as [|[k v] props IHp]; constructor; [apply IH|exact IHp].
  - apply Hnat.
Qed.

(** ** Scanning *)

Lemma lex_quote_char c acc toks :
  fold_left lex_step (chars (quote_char c)) (LString acc, toks)
  = (LString (c :: acc), toks).
Proof. destruct c as [[] [] [] [] [] [] [] []]; reflexivity. Qed.

Lemma lex_quote_body s : forall acc toks,
  fold_left lex_step (chars (quote_body s)) (LString acc, toks)
  = (LString (rev (chars s) ++ acc)%list, toks).
Proof.
  induction s as [|c s IH]; intros acc toks; [reflexivity|].
  cbn [quote_body]. rewrite chars_app, fold_left_app, lex_quote_char, IH.
  unfold chars. cbn [list_ascii_of_string rev]. now rewrite <- app_assoc.
Qed.

Lemma string_of_rev_spec (l : list ascii) (acc : string) :
  fold_left (fun a c => String c a) l acc = string_of_list_ascii (rev l) ++ acc.
Proof.
  revert acc. induction l as [|c l IH]; intros acc; [reflexivity|].
  cbn [fold_left rev]. rewrite IH.
  assert (H : forall a b, string_of_list_ascii (a ++ b)%list
                          = string_of_list_ascii a ++ string_of_list_ascii b).
  { induction a as [|x a IHa]; intros b; cbn; [reflexivity|now rewrite IHa]. }
  rewrite H. cbn. now rewrite append_assoc.
Qed.

Lemma string_of_rev_chars (s : string) : string_of_rev (rev (chars s) ++ [])%list = s.
Proof.
  unfold string_of_rev. rewrite app_nil_r, string_of_rev_spec, rev_involutive.
  unfold chars. now rewrite string_of_list_ascii_of_string, append_nil_r.
Qed.

(** A quoted string is scanned as one token holding the string. *)
Lemma lexes_quoted (s : string) : lexes_closed (QuoteJSONString s) [TString s].
Proof.
  intros rest toks0. unfold QuoteJSONString.
  rewrite !chars_app, <- !app_assoc, !fold_left_app.
  change (fold_left lex_step (chars DQUOTE) (LIdle, toks0)) with (LString [], toks0).
  rewrite lex_quote_body.
  cbn [chars DQUOTE char list_ascii_of_string fold_left].
  unfold lex_step at 2. cbn [N_of_ascii ascii_of_N N.eqb].
  change (N_of_ascii (ascii_of_N 34) =? 34)%N with true. cbv iota.
  now rewrite string_of_rev_chars.
Qed.

Lemma lexes_closed_lexes text toks : lexes_closed text toks -> lexes text toks.
Proof. intros H rest toks0 _. apply H. Qed.

Lemma delimited_inv rest :
  delimited rest ->
  exists c rest', rest = c :: rest'
    /\ (c = ascii_of_N 44 \/ c = ascii_of_N 93 \/ c = ascii_of_N 125).
Proof.
  destruct rest as [|c rest']; [contradiction|]. cbn [delimited].
  intros H. exists c, rest'. split; [reflexivity|].
  destruct H as [H|[H|H]]; apply ascii_of_code in H; auto.
Qed.

(** The three literals end at the delimiter that follows them. *)
Lemma lexes_literal :
  lexes "null" [TAtom VNull]
  /\ lexes "true" [TAtom (VBool true)]
  /\ lexes "false" [TAtom (VBool false)].
Proof.
  repeat split; intros rest toks0 Hd;
    destruct (delimited_inv rest Hd) as [c [rest' [-> [-> |[-> | ->]]]]];
    reflexivity.
Qed.

Lemma lexes_app text1 toks1 text2 toks2 :
  lexes_closed text1 toks1 -> lexes text2 toks2 ->
  lexes (text1 ++ text2) (toks1 ++ toks2).
Proof.
  intros H1 H2 rest toks0 Hd.
  rewrite chars_app, <- app_assoc, H1, (H2 _ _ Hd).
  now rewrite rev_app_distr, <- app_assoc.
Qed.

Lemma lexes_closed_app text1 toks1 text2 toks2 :
  lexes_closed text1 toks1 -> lexes_closed text2 toks2 ->
  lexes_closed (text1 ++ text2) (toks1 ++ toks2).
Proof.
  intros H1 H2 rest toks0.
  rewrite chars_app, <- app_assoc, H1, H2.
  now rewrite rev_app_distr, <- app_assoc.
Qed.

Lemma lexes_punctuation :
  lexes_closed "," [TComma] /\ lexes_closed ":" [TColon]
  /\ lexes_closed "[" [TLBracket] /\ lexes_closed "]" [TRBracket]
  /\ lexes_closed "{" [TLBrace] /\ lexes_closed "}" [TRBrace].
Proof. repeat split. Qed.

Lemma delimited_comma rest : delimited (chars "," ++ rest).
Proof. left. reflexivity. Qed.

(** The members of an array or of an object, separated by commas. *)
Lemma lexes_join parts tokss :
  Forall2 lexes parts tokss -> parts <> [] ->
  lexes (join "," parts) (tokens_join tokss).
Proof.
  induction 1 as [|part toks parts tokss Hp Hrest IH]; intros Hne; [contradiction|].
  destruct Hrest as [|part' toks' parts' tokss' Hp' Hrest'].
  - exact Hp.
  - change (join "," (part :: part' :: parts'))
      with (part ++ "," ++ join "," (part' :: parts')).
    change (tokens_join (toks :: toks' :: tokss'))
      with (toks ++ [TComma] ++ tokens_join (toks' :: tokss'))%list.
    intros rest toks0 Hd.
    rewrite !chars_app, <- !app_assoc, (Hp _ _ (delimited_comma _)).
    destruct lexes_punctuation as [Hcomma _]. rewrite Hcomma.
    rewrite (IH ltac:(discriminate) _ _ Hd).
    now rewrite !rev_app_distr, <- !app_assoc.
Qed.

(** An opening bracket or brace, the members, and the closing one. *)
Lemma lexes_wrapped opening closing (topen tclose : token) parts tokss :
  lexes_closed opening [topen] -> lexes_closed closing [tclose] ->
  (forall rest, delimited (chars closing ++ rest)) ->
  Forall2 lexes parts tokss ->
  lexes_closed (wrap opening closing "" "" parts)
    (topen :: tokens_join tokss ++ [tclose]).
Proof.
  intros Ho Hc Hd Hparts. unfold wrap.
  destruct parts as [|part parts].
  - inversion Hparts; subst. cbn [tokens_join app].
    exact (lexes_closed_app _ _ _ _ Ho Hc).
  - cbn [String.eqb].
    change (topen :: tokens_join tokss ++ [tclose])%list
      with ([topen] ++ (tokens_join tokss ++ [tclose]))%list.
    apply lexes_closed_app; [exact Ho|].
    intros rest toks0.
    rewrite chars_app, <- app_assoc.
    rewrite (lexes_join _ _ Hparts ltac:(discriminate) _ _ (Hd rest)).
    rewrite Hc. now rewrite rev_app_distr, <- app_assoc.
Qed.

Lemma delimited_closing rest :
  delimited (chars "]" ++ rest) /\ delimited (chars "}" ++ rest).
Proof. split; [right; left|right; right]; reflexivity. Qed.

Lemma lexes_member k text toks :
  lexes text toks ->
  lexes (QuoteJSONString k ++ ":" ++ "" ++ text) (TString k :: TColon :: toks).
Proof.
  intros H.
  change (TString k :: TColon :: toks) with ([TString k] ++ [TColon] ++ toks)%list.
  apply lexes_app; [apply lexes_quoted|].
  apply lexes_app; [apply lexes_punctuation|].
  exact H.
Qed.

(** The JSON text of plain data, scanned. *)
Lemma serialize_lexes v :
  plain v = true ->
  exists text,
    serialize "" "" v = Some text
    /\ lexes text (tokens_of v)
    /\ match v with
       | VNull | VBool _ => True
       | _ => lexes_closed text (tokens_of v)
       end.
Proof.
  induction v as [| |b|n|s|elems IH|props IH|n] using value_ind_nested;
    intros Hplain; try discriminate Hplain.
  - exists "null". split; [reflexivity|]. split; [apply lexes_literal|exact I].
  - destruct b.
    + exists "true". split; [reflexivity|]. split; [apply lexes_literal|exact I].
    + exists "false". split; [reflexivity|]. split; [apply lexes_literal|exact I].
  - exists (QuoteJSONString s). split; [reflexivity|].
    split; [apply lexes_closed_lexes|]; apply lexes_quoted.
  - cbn [plain] in Hplain. cbn [serialize append].
    eexists. split; [reflexivity|].
    assert (Hparts : Forall2 lexes
               (map (fun e => match serialize "" "" e with
                              | Some s => s
                              | None => "null"
                              end) elems)
               (map tokens_of elems)).
    { induction IH as [|e elems He _ IHel]; [constructor|].
      cbn [forallb] in Hplain. apply andb_prop in Hplain as [Hpe Hpl].
      cbn [map]. constructor; [|exact (IHel Hpl)].
      destruct (He Hpe) as [text [-> [Hl _]]]. exact Hl. }
    assert (Hclosed : lexes_closed
               (wrap "[" "]" "" ""
                  (map (fun e => match serialize "" "" e with
                                 | Some s => s
                                 | None => "null"
                                 end) elems))
               (tokens_of (VArray elems))).
    { cbn [tokens_of]. apply lexes_wrapped; try apply lexes_punctuation; [|exact Hparts].
      intros rest. apply delimited_closing. }
    split; [apply lexes_closed_lexes|]; exact Hclosed.
  - cbn [plain] in Hplain. apply andb_prop in Hplain as [Hplain _].
    cbn [serialize append String.eqb].
    eexists. split; [reflexivity|].
    assert (Hparts : Forall2 lexes
               (flat_map (fun kv => match serialize "" "" (snd kv) with
                                    | Some s => [QuoteJSONString (fst kv) ++ ":" ++ "" ++ s]
                                    | None => []
                                    end) props)
               (map (fun kv => TString (fst kv) :: TColon :: tokens_of (snd kv)) props)).
    { induction IH as [|[k v] props Hv _ IHp]; [constructor|].
      cbn [forallb snd] in Hplain. apply andb_prop in Hplain as [Hpv Hpl].
      cbn [map flat_map fst snd]. cbn [snd] in Hv.
      destruct (Hv Hpv) as [text [-> [Hl _]]]. cbn [app].
      constructor; [apply lexes_member; exact Hl|exact (IHp Hpl)]. }
    assert (Hclosed : lexes_closed
               (wrap "{" "}" "" ""
                  (flat_map (fun kv => match serialize "" "" (snd kv) with
                                       | Some s => [QuoteJSONString (fst kv) ++ ":" ++ "" ++ s]
                                       | None => []
                                       end) props))
               (tokens_of (VObject props))).
    { cbn [tokens_of]. apply lexes_wrapped; try apply lexes_punctuation; [|exact Hparts].
      intros rest. apply delimited_closing. }
    split; [apply lexes_closed_lexes|]; exact Hclosed.
Qed.

(** ** Parsing *)

Lemma set_prop_new acc k v :
  own acc k = None -> array_index k = None -> set_prop acc k v = (acc ++ [(k, v)])%list.
Proof. intros H1 H2. unfold set_prop. now rewrite H1, H2. Qed.

Lemma parse_step_value stack (allow : bool) t :
  parse_step (stack, if allow then PValueOrClose else PValue) t
  = parse_value_token allow stack t.
Proof. destruct allow; reflexivity. Qed.

Lemma parse_step_key stack (allow : bool) t :
  parse_step (stack, if allow then PKeyOrClose else PKey) t
  = parse_key_token allow stack t.
Proof. destruct allow; reflexivity. Qed.

Lemma parses_elements elems :
  Forall parses elems -> elems <> [] ->
  forall done (allow : bool) rest stack,
    fold_left parse_step
      (tokens_join (map tokens_of elems) ++ TRBracket :: rest)%list
      (FArray done :: stack, if allow then PValueOrClose else PValue)
    = fold_left parse_step rest (complete (VArray (rev done ++ elems)%list) stack).
Proof.
  induction 1 as [|x elems Hx Hrest IH]; intros Hne done allow rest stack;
    [contradiction|].
  destruct Hrest as [|y more Hy Hmore].
  - cbn [map tokens_join]. rewrite (Hx _ allow).
    cbn [complete fold_left parse_step rev]. reflexivity.
  - change (tokens_join (map tokens_of (x :: y :: more)))
      with (tokens_of x ++ TComma :: tokens_join (map tokens_of (y :: more)))%list.
    rewrite <- app_assoc. rewrite (Hx _ allow).
    cbn [complete app fold_left]. cbn [parse_step].
    rewrite (IH ltac:(discriminate) (x :: done) false).
    cbn [rev]. now rewrite <- app_assoc.
Qed.

Lemma not_seen seen k :
  existsb (String.eqb k) seen = false -> ~ In k seen.
Proof.
  intros H Hin. apply Bool.not_true_iff_false in H. apply H.
  apply existsb_exists. exists k. split; [exact Hin|apply String.eqb_refl].
Qed.

Lemma parses_members props :
  Forall (fun kv => parses (snd kv)) props -> props <> [] ->
  forall acc seen (allow : bool) rest stack,
    (forall k, In k (map fst acc) -> In k seen) ->
    well_keyed seen (map fst props) = true ->
    fold_left parse_step
      (tokens_join (map (fun kv => TString (fst kv) :: TColon :: tokens_of (snd kv)) props)
         ++ TRBrace :: rest)%list
      (FObject acc None :: stack, if allow then PKeyOrClose else PKey)
    = fold_left parse_step rest (complete (VObject (acc ++ props)%list) stack).
Proof.
  induction 1 as [|[k v] props Hv Hrest IH];
    intros Hne acc seen allow rest stack Hseen Hkeys; [contradiction|].
  cbn [map fst well_keyed] in Hkeys.
  apply andb_prop in Hkeys as [Hkeys Hkeys'].
  apply andb_prop in Hkeys as [Hfresh Hindex].
  apply negb_true_iff in Hfresh.
  assert (Hown : own acc k = None).
  { apply own_absent. intros Hin. exact (not_seen _ _ Hfresh (Hseen _ Hin)). }
  assert (Hidx : array_index k = None) by (destruct (array_index k); [discriminate|reflexivity]).
  cbn [snd] in Hv.
  destruct Hrest as [|[k' v'] more Hv' Hmore].
  - cbn [map tokens_join fst snd app fold_left].
    rewrite parse_step_key. cbn [parse_key_token]. cbn [parse_step].
    rewrite (Hv _ false).
    cbn [complete fold_left parse_step]. now rewrite (set_prop_new _ _ _ Hown Hidx).
  - change (tokens_join (map (fun kv => TString (fst kv) :: TColon :: tokens_of (snd kv))
                           ((k, v) :: (k', v') :: more)))
      with (TString k :: TColon :: tokens_of v
              ++ TComma :: tokens_join
                   (map (fun kv => TString (fst kv) :: TColon :: tokens_of (snd kv))
                      ((k', v') :: more)))%list.
    cbn [app fold_left].
    rewrite parse_step_key. cbn [parse_key_token]. cbn [parse_step].
    rewrite <- app_assoc, (Hv _ false).
    cbn [complete app fold_left]. cbn [parse_step].
    rewrite (set_prop_new _ _ _ Hown Hidx).
    rewrite (IH ltac:(discriminate) (acc ++ [(k, v)])%list (k :: seen) false).
    + now rewrite <- app_assoc.
    + intros k0 Hin. rewrite map_app in Hin. apply in_app_or in Hin as [Hin|Hin].
      * right. exact (Hseen _ Hin).
      * left. destruct Hin as [<-|[]]. reflexivity.
    + exact Hkeys'.
Qed.

Lemma plain_parses v : plain v = true -> parses v.
Proof.
  induction v as [| |b|n|s|elems IH|props IH|n] using value_ind_nested;
    intros Hplain; try discriminate Hplain.
  - intros stack allow rest. cbn [tokens_of app fold_left].
    now rewrite parse_step_value.
  - intros stack allow rest. cbn [tokens_of app fold_left].
    now rewrite parse_step_value.
  - intros stack allow rest. cbn [tokens_of app fold_left].
    now rewrite parse_step_value.
  - cbn [plain] in Hplain.
    assert (Hall : Forall parses elems).
    { induction IH as [|e elems He _ IHel]; [constructor|].
      cbn [forallb] in Hplain. apply andb_prop in Hplain as [Hpe Hpl].
      constructor; [exact (He Hpe)|exact (IHel Hpl)]. }
    intros stack allow rest. cbn [tokens_of app fold_left].
    rewrite parse_step_value. cbn [parse_value_token].
    destruct elems as [|e elems].
    + cbn [map tokens_join app fold_left parse_step parse_value_token rev]. reflexivity.
    + rewrite <- app_assoc. cbn [app].
      now rewrite (parses_elements _ Hall ltac:(discriminate) [] true).
  - cbn [plain] in Hplain. apply andb_prop in Hplain as [Hplain Hkeys].
    assert (Hall : Forall (fun kv => parses (snd kv)) props).
    { clear Hkeys. induction IH as [|[k v] props Hv _ IHp]; [constructor|].
      cbn [forallb snd] in Hplain. apply andb_prop in Hplain as [Hpv Hpl].
      constructor; [exact (Hv Hpv)|exact (IHp Hpl)]. }
    intros stack allow rest. cbn [tokens_of app fold_left].
    rewrite parse_step_value. cbn [parse_value_token].
    destruct props as [|kv props].
    + cbn [map tokens_join app fold_left parse_step parse_key_token]. reflexivity.
    + rewrite <- app_assoc. cbn [app].
      now rewrite (parses_members _ Hall ltac:(discriminate) [] [] true).
Qed.

(** [JSON.parse] undoes [JSON.stringify] on plain data. *)
Lemma JSON_parse_stringify v : plain v = true -> JSON_parse (wire v) = Normal v.
Proof.
  intros Hplain.
  destruct (serialize_lexes v Hplain) as [text [Htext [_ Hclosed]]].
  pose proof (plain_parses v Hplain [] false []) as Hparse.
  rewrite app_nil_r in Hparse. cbn [complete fold_left] in Hparse.
  destruct v; try discriminate Hplain.
  - reflexivity.
  - destruct b; reflexivity.
  - unfold wire, JSON_stringify. rewrite Htext. unfold JSON_parse, tokenize.
    specialize (Hclosed [] []). rewrite !app_nil_r in Hclosed. cbn [fold_left] in Hclosed.
    rewrite Hclosed, rev_involutive, Hparse. reflexivity.
  - unfold wire, JSON_stringify. rewrite Htext. unfold JSON_parse, tokenize.
    specialize (Hclosed [] []). rewrite !app_nil_r in Hclosed. cbn [fold_left] in Hclosed.
    rewrite Hclosed, rev_involutive, Hparse. reflexivity.
  - unfold wire, JSON_stringify. rewrite Htext. unfold JSON_parse, tokenize.
    specialize (Hclosed [] []). rewrite !app_nil_r in Hclosed. cbn [fold_left] in Hclosed.
    rewrite Hclosed, rev_involutive, Hparse. reflexivity.
Qed.

(* ================================================================== *)
(** * Frames the clients send, read back *)
(* ================================================================== *)

Lemma StepFun_send_trace event c :
  StepFun.send event c
  = mkResult (Normal tt) c
      [ if StepFun.isConnected c then SocketSend (wire event)
        else ConsoleError [VString "WebSocket 未连接"] ].
Proof.
  unfold StepFun.send. rewrite bind_get.
  destruct (StepFun.isConnected c); reflexivity.
Qed.

(** X5.  The text of the user reaches the server as it was given.  The
    three clients send a message of the user as two frames, and parsing
    them gives back the conversation item, whose input_text content is the
    text itself whatever characters it holds (quotes, backslashes, line
    breaks and other control characters included), followed by the
    response request.  A client that is not connected sends neither. *)
Theorem user_message_survives_the_wire (text : string)
  (c : StepFun.Client) (i : Interactive.Client) (t : ToolCall.Client) :
  map JSON_parse (sent (trace (StepFun.sendTextMessage (VString text) c)))
  = (if StepFun.isConnected c
     then [ Normal (StepFun.user_message (VString text));
            Normal StepFun.text_response_request ]
     else [])
  /\ map JSON_parse (sent (trace (Interactive.sendMessage (VString text) i)))
     = (if Interactive.isConnected i
        then [ Normal (StepFun.user_message (VString text));
               Normal StepFun.text_response_request ]
        else [])
  /\ map JSON_parse (sent (trace (ToolCall.sendMessage (VString text) t)))
     = (if ToolCall.isConnected t
        then [ Normal (StepFun.user_message (VString text));
               Normal ToolCall.response_request ]
        else []).
Proof.
  assert (Hm : JSON_parse (wire (StepFun.user_message (VString text)))
               = Normal (StepFun.user_message (VString text)))
    by (apply JSON_parse_stringify; reflexivity).
  split; [|split].
  - unfold StepFun.sendTextMessage.
    rewrite (bind_run _ _ _ _ _ _ (StepFun_send_trace _ c)).
    rewrite (bind_run _ _ _ _ _ _ (StepFun_send_trace _ c)).
    mstep. cbn [ToString prepend trace app].
    destruct (StepFun.isConnected c); [|reflexivity].
    cbn [sent flat_map app map]. now rewrite Hm.
  - unfold Interactive.sendMessage.
    rewrite (bind_run _ _ _ _ _ _ (Interactive_send_trace _ i)).
    rewrite (Interactive_send_trace _ i). cbn [prepend trace].
    destruct (Interactive.isConnected i); [|reflexivity].
    cbn [on_wire sent flat_map app map]. now rewrite Hm.
  - unfold ToolCall.sendMessage.
    rewrite (bind_run _ _ _ _ _ _ (ToolCall_send_trace _ t)).
    rewrite (ToolCall_send_trace _ t). cbn [prepend trace].
    destruct (ToolCall.isConnected t); [|reflexivity].
    cbn [on_wire sent flat_map app map]. now rewrite Hm.
Qed.

(** X25.  The result of a function call reaches the server as it was
    computed.  For a call id that is plain JSON data and a result that has
    a JSON text, the two frames returnFunctionResult sends parse back to
    the function_call_output item, whose output is that JSON text
    character for character, although it travels quoted inside another
    JSON text, and to the response request. *)
Theorem tool_result_survives_the_wire callId result json (t : ToolCall.Client) :
  plain callId = true ->
  JSON_stringify result = Some json ->
  ToolCall.tool_result_submission callId result
  = VObject
      [ ("type", VString "conversation.item.create");
        ("item", VObject
           [ ("type", VString "function_call_output");
             ("call_id", callId);
             ("output", VString json) ]) ]
  /\ map JSON_parse (sent (trace (ToolCall.returnFunctionResult callId result t)))
     = (if ToolCall.isConnected t
        then [ Normal (ToolCall.tool_result_submission callId result);
               Normal ToolCall.response_request ]
        else []).
Proof.
  intros Hid Hjson.
  assert (Hshape : ToolCall.tool_result_submission callId result
                   = VObject
                       [ ("type", VString "conversation.item.create");
                         ("item", VObject
                            [ ("type", VString "function_call_output");
                              ("call_id", callId);
                              ("output", VString json) ]) ])
    by (unfold ToolCall.tool_result_submission; now rewrite Hjson).
  split; [exact Hshape|].
  rewrite returnFunctionResult_trace. cbn [trace].
  rewrite sent_cons_other by reflexivity. rewrite sent_socket_sends.
  destruct (ToolCall.isConnected t); [|reflexivity].
  cbn [on_wire map]. f_equal.
  - apply JSON_parse_stringify. rewrite Hshape. cbn. now rewrite Hid.
Qed.

Lemma tool_result_survives_the_wire_witness :
  plain (VString "call_1") = true
  /\ JSON_stringify (ToolCall.weather 15 "晴朗" 45)
     = Some (dq "{'temperature':15,'condition':'晴朗','humidity':45}")
  /\ map JSON_parse
       (sent (trace (ToolCall.returnFunctionResult (VString "call_1")
                       (ToolCall.weather 15 "晴朗" 45) Samples.connected_tool_client)))
     = [ Normal (ToolCall.tool_result_submission (VString "call_1")
                   (ToolCall.weather 15 "晴朗" 45));
         Normal ToolCall.response_request ].
Proof.
  split; [reflexivity|]. split; [reflexivity|].
  exact (proj2 (tool_result_survives_the_wire (VString "call_1")
                  (ToolCall.weather 15 "晴朗" 45) _ Samples.connected_tool_client
                  eq_refl eq_refl)).
Defined.

(** X19.  An upload reaches the server as it was recorded.  For every
    sequence of bytes and every session id, building the frame never
    throws, the frame parses back to the message with its three fields
    (model_type, sess_id, audio), and decoding the audio field as base64
    gives the bytes of the file or recording. *)
Theorem audio_upload_survives_the_wire (sessId : option string) (buffer : list Byte.byte) :
  exists frame base64,
    Browser.audio_frame sessId buffer = Normal frame
    /\ JSON_parse frame = Normal (Browser.audio_message sessId base64)
    /\ member (Browser.audio_message sessId base64) "audio" = Normal (VString base64)
    /\ Browser.decode_chunk (VString base64) = Normal buffer.
Proof.
  destruct (decode_chunk_arrayBufferToBase64 buffer) as [base64 [Hb Hd]].
  exists (wire (Browser.audio_message sessId base64)), base64.
  split; [unfold Browser.audio_frame; now rewrite Hb|].
  split; [|split; [reflexivity|exact Hd]].
  apply JSON_parse_stringify. destruct sessId; reflexivity.
Qed.

(* ================================================================== *)
(** * Function calls, branch by branch *)
(* ================================================================== *)

(** [handleFunctionCall] up to the choice of a function. *)
Lemma handleFunctionCall_dispatch env props args shown t :
  JSON_parse_value (Get props "arguments") = Normal args ->
  ToString (Get props "name") = Normal shown ->
  ToolCall.handleFunctionCall env (VObject props) t
  = prepend
      [ ConsoleLog
          [ VString (LF ++ "执行函数: " ++ shown ++ "("
                        ++ match JSON_stringify args with
                           | Some json => json
                           | None => "undefined"
                           end ++ ")" ++ LF) ] ]
      (bind
         (switch (Get props "name")
            [ ("get_weather",
                bind (lift (member args "location")) (fun location =>
                lift (ToolCall.getWeather location)));
              ("generate_horoscope",
                bind (lift (member args "sign")) (fun sign =>
                ret (ToolCall.generateHoroscope env sign))) ]
            (ret (VObject [ ("error", VString "未知函数") ])))
         (fun result => ToolCall.returnFunctionResult (Get props "call_id") result) t).
Proof.
  intros Hargs Hname. unfold ToolCall.handleFunctionCall.
  rewrite !bind_lift. cbn [member]. rewrite !bind_lift, Hargs, bind_lift, Hname.
  now rewrite bind_console_log.
Qed.

Lemma sent_returnFunctionResult callId result t :
  sent (trace (ToolCall.returnFunctionResult callId result t))
  = on_wire (ToolCall.isConnected t)
      [ ToolCall.tool_result_submission callId result; ToolCall.response_request ].
Proof.
  rewrite returnFunctionResult_trace. cbn [trace].
  rewrite sent_cons_other by reflexivity. apply sent_socket_sends.
Qed.

(** A get_weather call on a key that is not inherited. *)
Lemma weather_call_answer env props args key (t : ToolCall.Client) :
  Get props "name" = VString "get_weather" ->
  JSON_parse_value (Get props "arguments") = Normal args ->
  cbind (member args "location") ToString = Normal key ->
  Object_prototype_get key = VUndefined ->
  exists record,
    (In (key, record) ToolCall.weatherData
     \/ (own ToolCall.weatherData key = None /\ record = ToolCall.weather 18 "未知" 50))
    /\ outcome (ToolCall.handleFunctionCall env (VObject props) t) = Normal tt
    /\ sent (trace (ToolCall.handleFunctionCall env (VObject props) t))
       = on_wire (ToolCall.isConnected t)
           [ ToolCall.tool_result_submission (Get props "call_id") record;
             ToolCall.response_request ]
    /\ JSON_parse (wire record) = Normal record.
Proof.
  intros Hname Hargs Hkey Hproto.
  destruct (member args "location") as [location|e] eqn:Hloc; [|discriminate Hkey].
  cbn [cbind] in Hkey.
  assert (Hw : exists record,
             (In (key, record) ToolCall.weatherData
              \/ (own ToolCall.weatherData key = None
                  /\ record = ToolCall.weather 18 "未知" 50))
             /\ ToolCall.getWeather location = Normal record
             /\ JSON_parse (wire record) = Normal record).
  { unfold ToolCall.getWeather. rewrite Hkey. cbn [cbind]. unfold Get.
    cbn [ToolCall.weatherData own].
    destruct ("北京" =? key) eqn:E1.
    { apply String.eqb_eq in E1. subst key. eexists. split; [left; left; reflexivity|].
      split; reflexivity. }
    destruct ("上海" =? key) eqn:E2.
    { apply String.eqb_eq in E2. subst key. eexists.
      split; [left; right; left; reflexivity|]. split; reflexivity. }
    destruct ("深圳" =? key) eqn:E3.
    { apply String.eqb_eq in E3. subst key. eexists.
      split; [left; right; right; left; reflexivity|]. split; reflexivity. }
    rewrite Hproto. eexists. split; [right; split; reflexivity|]. split; reflexivity. }
  destruct Hw as [record [Hin [Hget Hjson]]].
  exists record. split; [exact Hin|].
  rewrite (handleFunctionCall_dispatch env props args "get_weather" t Hargs)
    by (now rewrite Hname).
  rewrite Hname. cbn [switch is_string String.eqb Ascii.eqb Bool.eqb].
  rewrite bind_assoc, bind_lift, Hloc, bind_lift, Hget.
  cbn [prepend outcome trace app]. rewrite sent_cons_other by reflexivity.
  rewrite returnFunctionResult_trace. cbn [outcome].
  split; [reflexivity|]. split; [|exact Hjson].
  rewrite <- returnFunctionResult_trace. apply sent_returnFunctionResult.
Qed.

(** X22.  A get_weather call whose location, read as a property key, is
    not a member every object inherits is always answered.  The record is
    the entry of the table when the key is one of its three cities and the
    default record otherwise, also when the arguments hold no location at
    all; it is sent as the tool result, followed by the response request;
    and the JSON text of the record, which is what the model receives as
    output, parses back to the record. *)
Theorem weather_call_is_answered env props args key (t : ToolCall.Client) :
  Get props "name" = VString "get_weather" ->
  JSON_parse_value (Get props "arguments") = Normal args ->
  cbind (member args "location") ToString = Normal key ->
  Object_prototype_get key = VUndefined ->
  exists record,
    (In (key, record) ToolCall.weatherData
     \/ (own ToolCall.weatherData key = None /\ record = ToolCall.weather 18 "未知" 50))
    /\ outcome (ToolCall.handleFunctionCall env (VObject props) t) = Normal tt
    /\ sent (trace (ToolCall.handleFunctionCall env (VObject props) t))
       = on_wire (ToolCall.isConnected t)
           [ ToolCall.tool_result_submission (Get props "call_id") record;
             ToolCall.response_request ]
    /\ JSON_parse (wire record) = Normal record.
Proof. apply weather_call_answer. Qed.

Lemma weather_call_is_answered_witness :
  JSON_parse_value (VString (dq "{'city':'上海'}")) = Normal (VObject [("city", VString "上海")])
  /\ Object_prototype_get "undefined" = VUndefined
  /\ exists record,
       record = ToolCall.weather 18 "未知" 50
       /\ sent (trace (ToolCall.handleFunctionCall Samples.environment
                         (Samples.arguments_done "get_weather" "call_2" (dq "{'city':'上海'}"))
                         Samples.connected_tool_client))
          = [ wire (ToolCall.tool_result_submission (VString "call_2") record);
              wire ToolCall.response_request ].
Proof.
  split; [reflexivity|]. split; [reflexivity|].
  destruct (weather_call_is_answered Samples.environment
              [ ("type", VString "response.function_call_arguments.done");
                ("name", VString "get_weather");
                ("call_id", VString "call_2");
                ("arguments", VString (dq "{'city':'上海'}")) ]
              (VObject [("city", VString "上海")]) "undefined"
              Samples.connected_tool_client eq_refl eq_refl eq_refl eq_refl)
    as [record [[Hin|[_ Hr]] [_ [Hs _]]]].
  - exfalso. cbn in Hin.
    repeat (destruct Hin as [Hin|Hin]; [discriminate Hin|]). exact Hin.
  - exists record. split; [exact Hr|exact Hs].
Defined.

(** X24.  The argument text null is valid JSON, but the two functions
    read a property of what it parses to: a get_weather or
    generate_horoscope call with these arguments throws a TypeError after
    the console line that announces the call, and nothing is sent, neither
    a result nor a response request. *)
Theorem null_arguments_throw env props name (t : ToolCall.Client) :
  Get props "name" = VString name ->
  name = "get_weather" \/ name = "generate_horoscope" ->
  JSON_parse_value (Get props "arguments") = Normal VNull ->
  ToolCall.handleFunctionCall env (VObject props) t
  = mkResult (Throw TypeError) t
      [ ConsoleLog [VString (LF ++ "执行函数: " ++ name ++ "(null)" ++ LF)] ].
Proof.
  intros Hname Hcase Hargs.
  rewrite (handleFunctionCall_dispatch env props VNull name t Hargs)
    by (now rewrite Hname).
  rewrite Hname.
  destruct Hcase as [-> | ->]; reflexivity.
Qed.

Lemma null_arguments_throw_witness :
  JSON_parse_value (VString "null") = Normal VNull
  /\ ToolCall.handleFunctionCall Samples.environment
       (Samples.arguments_done "get_weather" "call_3" "null")
       Samples.connected_tool_client
     = mkResult (Throw TypeError) Samples.connected_tool_client
         [ ConsoleLog [VString (LF ++ "执行函数: get_weather(null)" ++ LF)] ].
Proof.
  split; [reflexivity|].
  exact (null_arguments_throw Samples.environment
           [ ("type", VString "response.function_call_arguments.done");
             ("name", VString "get_weather");
             ("call_id", VString "call_3");
             ("arguments", VString "null") ]
           "get_weather" Samples.connected_tool_client
           eq_refl (or_introl eq_refl) eq_refl).
Defined.

(** X23.  A generate_horoscope call whose arguments parse to anything
    but null is always answered, whatever the sign is and also when there
    is none: the result carries the sign as given, the date, a fortune that
    is one of the five of the list, a lucky number below 100 and a colour
    that is one of the four, and it is sent as the tool result, followed by
    the response request. *)
Theorem horoscope_call_is_answered env props args sign (t : ToolCall.Client) :
  Get props "name" = VString "generate_horoscope" ->
  JSON_parse_value (Get props "arguments") = Normal args ->
  member args "sign" = Normal sign ->
  exists fortune number color,
    ToolCall.generateHoroscope env sign
    = VObject
        [ ("sign", sign);
          ("date", VString (ToolCall.today env));
          ("fortune", VString fortune);
          ("lucky_number", int (Z.of_N number));
          ("lucky_color", VString color) ]
    /\ In fortune ToolCall.fortunes /\ (number < 100)%N /\ In color ToolCall.colors
    /\ outcome (ToolCall.handleFunctionCall env (VObject props) t) = Normal tt
    /\ sent (trace (ToolCall.handleFunctionCall env (VObject props) t))
       = on_wire (ToolCall.isConnected t)
           [ ToolCall.tool_result_submission (Get props "call_id")
               (ToolCall.generateHoroscope env sign);
             ToolCall.response_request ].
Proof.
  intros Hname Hargs Hsign.
  exists (nth (N.to_nat (ToolCall.fortune_draw env mod 5)) ToolCall.fortunes ""),
         (ToolCall.number_draw env mod 100)%N,
         (nth (N.to_nat (ToolCall.color_draw env mod 4)) ToolCall.colors "").
  split; [reflexivity|].
  split; [apply nth_In; cbn [ToolCall.fortunes List.length]; lia|].
  split; [lia|].
  split; [apply nth_In; cbn [ToolCall.colors List.length]; lia|].
  rewrite (handleFunctionCall_dispatch env props args "generate_horoscope" t Hargs)
    by (now rewrite Hname).
  rewrite Hname. cbn [switch is_string String.eqb Ascii.eqb Bool.eqb].
  rewrite bind_assoc, bind_lift, Hsign, bind_ret.
  cbn [prepend outcome trace app]. rewrite sent_cons_other by reflexivity.
  rewrite returnFunctionResult_trace. cbn [outcome].
  split; [reflexivity|].
  rewrite <- returnFunctionResult_trace. apply sent_returnFunctionResult.
Qed.

Lemma horoscope_call_is_answered_witness :
  JSON_parse_value (VString (dq "{'sign':'水瓶座'}"))
  = Normal (VObject [("sign", VString "水瓶座")])
  /\ ToolCall.generateHoroscope Samples.environment (VString "水瓶座")
     = VObject
         [ ("sign", VString "水瓶座");
           ("date", VString "2024/5/1");
           ("fortune", VString "感情运势上升，适合表达心意。");
           ("lucky_number", int 42);
           ("lucky_color", VString "蓝色") ]
  /\ outcome (ToolCall.handleFunctionCall Samples.environment
                (Samples.arguments_done "generate_horoscope" "call_4" (dq "{'sign':'水瓶座'}"))
                Samples.connected_tool_client) = Normal tt.
Proof.
  split; [reflexivity|]. split; [reflexivity|].
  destruct (horoscope_call_is_answered Samples.environment
              [ ("type", VString "response.function_call_arguments.done");
                ("name", VString "generate_horoscope");
                ("call_id", VString "call_4");
                ("arguments", VString (dq "{'sign':'水瓶座'}")) ]
              (VObject [("sign", VString "水瓶座")]) (VString "水瓶座")
              Samples.connected_tool_client eq_refl eq_refl eq_refl)
    as [fortune [number [color [_ [_ [_ [_ [Ho _]]]]]]]].
  exact Ho.
Defined.

(* ================================================================== *)
(** * The line listener of the interactive script *)
(* ================================================================== *)

Lemma trim_start_clean : forall n l, List.length l <= n -> clean_start (trim_start l).
Proof.
  induction n as [|n IH]; intros l Hlen.
  - destruct l; [exact I|cbn in Hlen; lia].
  - destruct l as [|c1 r1]; [exact I|]. cbn [List.length] in Hlen. cbn [trim_start].
    destruct (is_space1 c1) eqn:E1; [apply IH; lia|].
    destruct r1 as [|c2 r2]; [split; [exact E1|exact I]|]. cbn [List.length] in Hlen.
    destruct (is_space2 c1 c2) eqn:E2; [apply IH; lia|].
    destruct r2 as [|c3 r3]; [split; [exact E1|split; [exact E2|exact I]]|].
    cbn [List.length] in Hlen.
    destruct (is_space3 c1 c2 c3) eqn:E3; [apply IH; lia|].
    split; [exact E1|split; [exact E2|exact E3]].
Qed.

Lemma clean_start_fixed l : clean_start l -> trim_start l = l.
Proof.
  destruct l as [|c1 [|c2 [|c3 r3]]]; cbn [clean_start trim_start].
  - reflexivity.
  - now intros [-> _].
  - now intros [-> [-> _]].
  - now intros [-> [-> ->]].
Qed.

Lemma clean_start_prefix p q : clean_start (p ++ q) -> clean_start p.
Proof.
  destruct p as [|c1 [|c2 [|c3 p']]]; cbn [app clean_start]; tauto.
Qed.

Lemma trim_end_rev_clean : forall n l, List.length l <= n -> clean_end_rev (trim_end_rev l).
Proof.
  induction n as [|n IH]; intros l Hlen.
  - destruct l; [exact I|cbn in Hlen; lia].
  - destruct l as [|c1 r1]; [exact I|]. cbn [List.length] in Hlen. cbn [trim_end_rev].
    destruct (is_space1 c1) eqn:E1; [apply IH; lia|].
    destruct r1 as [|c2 r2]; [split; [exact E1|exact I]|]. cbn [List.length] in Hlen.
    destruct (is_space2 c2 c1) eqn:E2; [apply IH; lia|].
    destruct r2 as [|c3 r3]; [split; [exact E1|split; [exact E2|exact I]]|].
    cbn [List.length] in Hlen.
    destruct (is_space3 c3 c2 c1) eqn:E3; [apply IH; lia|].
    split; [exact E1|split; [exact E2|exact E3]].
Qed.

Lemma clean_end_rev_fixed l : clean_end_rev l -> trim_end_rev l = l.
Proof.
  destruct l as [|c1 [|c2 [|c3 r3]]]; cbn [clean_end_rev trim_end_rev].
  - reflexivity.
  - now intros [-> _].
  - now intros [-> [-> _]].
  - now intros [-> [-> ->]].
Qed.

Lemma trim_end_rev_suffix : forall n l, List.length l <= n ->
  exists dropped, l = (dropped ++ trim_end_rev l)%list.
Proof.
  induction n as [|n IH]; intros l Hlen.
  - destruct l; [exists []; reflexivity|cbn in Hlen; lia].
  - destruct l as [|c1 r1]; [exists []; reflexivity|].
    cbn [List.length] in Hlen. cbn [trim_end_rev].
    destruct (is_space1 c1).
    { destruct (IH r1 ltac:(lia)) as [d Hd]. exists (c1 :: d). cbn. now rewrite <- Hd. }
    destruct r1 as [|c2 r2]; [exists []; reflexivity|]. cbn [List.length] in Hlen.
    destruct (is_space2 c2 c1).
    { destruct (IH r2 ltac:(lia)) as [d Hd]. exists (c1 :: c2 :: d). cbn. now rewrite <- Hd. }
    destruct r2 as [|c3 r3]; [exists []; reflexivity|]. cbn [List.length] in Hlen.
    destruct (is_space3 c3 c2 c1).
    { destruct (IH r3 ltac:(lia)) as [d Hd]. exists (c1 :: c2 :: c3 :: d). cbn.
      now rewrite <- Hd. }
    exists []. reflexivity.
Qed.

(** Trimming a trimmed string changes nothing. *)
Lemma trim_trim (s : string) : trim (trim s) = trim s.
Proof.
  unfold trim, chars. rewrite list_ascii_of_string_of_list_ascii.
  set (L := trim_start (list_ascii_of_string s)).
  set (R := trim_end_rev (rev L)).
  assert (HL : clean_start L) by (apply (trim_start_clean (List.length (list_ascii_of_string s))); lia).
  assert (HR : clean_end_rev R) by (apply (trim_end_rev_clean (List.length (rev L))); lia).
  destruct (trim_end_rev_suffix (List.length (rev L)) (rev L) ltac:(lia)) as [dropped Hd].
  fold R in Hd.
  assert (Hprefix : L = (rev R ++ rev dropped)%list).
  { rewrite <- rev_app_distr, <- Hd. now rewrite rev_involutive. }
  rewrite Hprefix in HL. apply clean_start_prefix in HL.
  rewrite (clean_start_fixed _ HL), rev_involutive.
  now rewrite (clean_end_rev_fixed _ HR).
Qed.

(** X8.  The line listener of the interactive script, for every line.  It
    never throws and never changes the client.  A line that is /quit or
    /exit once trimmed sends nothing, closes the socket, closes the
    readline interface, whose close listener closes the socket a second
    time, and ends the process with status 0.  A line that is empty once
    trimmed only shows the prompt again.  Every other line is sent
    trimmed, followed by the response request (or dropped by send when the
    client is not connected); the text that is sent has no white space
    left at either end: trimming it again changes nothing. *)
Theorem on_line_dispatch (line : string) (i : Interactive.Client) :
  Interactive.on_line line i
  = mkResult (Normal tt) i
      (if (trim line =? "/quit") || (trim line =? "/exit") then
         [ ConsoleLog [VString "再见！"]; SocketClose; ReadlineClose; SocketClose;
           ProcessExit 0 ]
       else if trim line =? "" then [ReadlinePrompt]
       else
         ConsoleLog [VString (LF ++ "AI: ")]
           :: map SocketSend
                (on_wire (Interactive.isConnected i)
                   [ StepFun.user_message (VString (trim line));
                     StepFun.text_response_request ]))
  /\ trim (trim line) = trim line.
Proof.
  split; [|apply trim_trim].
  unfold Interactive.on_line.
  destruct ((trim line =? "/quit") || (trim line =? "/exit")); [reflexivity|].
  destruct (trim line =? ""); [reflexivity|]. cbn [negb].
  rewrite bind_console_log.
  unfold Interactive.sendMessage.
  rewrite (bind_run _ _ _ _ _ _ (Interactive_send_trace _ i)).
  rewrite (Interactive_send_trace _ i).
  destruct (Interactive.isConnected i); reflexivity.
Qed.

(* ================================================================== *)
(** * Frames that are not JSON *)
(* ================================================================== *)

(** X6.  A frame that is not JSON.  The three scripts for Node parse
    the frame inside the message listener with nothing around it: the
    SyntaxError leaves the listener, before anything is printed and with
    the client unchanged.  The page parses inside a try block: its callback
    returns normally, the failure is written to the console and to the log
    of the page as an entry of type error, and the page is unchanged. *)
Theorem malformed_frame env frame e
  (c : StepFun.Client) (i : Interactive.Client) (t : ToolCall.Client) (b : Browser.Client) :
  JSON_parse frame = Throw e ->
  StepFun.on_message frame c = mkResult (Throw e) c []
  /\ Interactive.on_message frame i = mkResult (Throw e) i []
  /\ ToolCall.on_message env frame t = mkResult (Throw e) t []
  /\ Browser.onmessage frame b
     = mkResult (Normal tt) b
         [ ConsoleLog [VString ("[" ++ Browser.wsId b ++ "] 收到消息")];
           ConsoleLog [VString "[原始消息]"; VString frame];
           ConsoleErrorCaught "解析响应失败:" e [VString "原始数据:"; VString frame];
           DomLogCaught "解析响应失败: " e "error" ].
Proof.
  intros H.
  unfold StepFun.on_message, Interactive.on_message, ToolCall.on_message, Browser.onmessage.
  rewrite !bind_lift, H. repeat split.
Qed.

Lemma malformed_frame_witness :
  JSON_parse "{type: response.done}" = Throw SyntaxError
  /\ outcome (StepFun.on_message "{type: response.done}" (StepFun.mkClient true))
     = Throw SyntaxError
  /\ outcome (Browser.onmessage "{type: response.done}" Browser.new_Client) = Normal tt.
Proof.
  split; [reflexivity|].
  destruct (malformed_frame Samples.environment "{type: response.done}" SyntaxError
              (StepFun.mkClient true) Interactive.new_Client ToolCall.new_Client
              Browser.new_Client eq_refl) as [E1 [_ [_ E4]]].
  rewrite E1, E4. split; reflexivity.
Defined.

(* ================================================================== *)
(** * Streamed text on the terminal *)
(* ================================================================== *)

Lemma StepFun_text_delta props d c :
  Get props "type" = VString "response.text.delta" ->
  Get props "delta" = VString d ->
  StepFun.handleServerEvent (VObject props) c
  = mkResult (Normal tt) c
      [ ConsoleLog [VString (LF ++ "[服务器事件]"); VString "response.text.delta"];
        StdoutWrite d ].
Proof.
  intros Htype Hdelta. unfold StepFun.handleServerEvent.
  mstep. cbn [member]. rewrite Htype. mstep. run_switch.
  mstep. cbn [member]. rewrite Hdelta. reflexivity.
Qed.

Lemma ToolCall_text_delta env props d t :
  Get props "type" = VString "response.text.delta" ->
  Get props "delta" = VString d ->
  ToolCall.handleServerEvent env (VObject props) t
  = mkResult (Normal tt) t
      [ ConsoleLog [VString "[response.text.delta]"]; StdoutWrite d ].
Proof.
  intros Htype Hdelta. unfold ToolCall.handleServerEvent.
  mstep. cbn [member]. rewrite Htype. mstep. cbn [ToString]. mstep. run_switch.
  mstep. cbn [member]. rewrite Hdelta. reflexivity.
Qed.

(** X2.  Text deltas in index.js and in the tool-call client.  Every
    fragment is written to standard output as it arrives, in arrival
    order, and nothing of it is kept; but each fragment is preceded by the
    console line that names the event, so on the terminal the fragments of
    one answer are separated by these lines. *)
Theorem streamed_text_is_interleaved env events fragments
  (c : StepFun.Client) (t : ToolCall.Client) :
  Forall2 (delta_event "response.text.delta") events fragments ->
  for_each events StepFun.handleServerEvent c
  = mkResult (Normal tt) c
      (flat_map (fun d =>
                   [ ConsoleLog [VString (LF ++ "[服务器事件]"); VString "response.text.delta"];
                     StdoutWrite d ]) fragments)
  /\ for_each events (ToolCall.handleServerEvent env) t
     = mkResult (Normal tt) t
         (flat_map (fun d => [ConsoleLog [VString "[response.text.delta]"]; StdoutWrite d])
            fragments)
  /\ written (trace (for_each events StepFun.handleServerEvent c)) = fragments
  /\ written (trace (for_each events (ToolCall.handleServerEvent env) t)) = fragments.
Proof.
  intros H.
  assert (H1 : for_each events StepFun.handleServerEvent c
               = mkResult (Normal tt) c
                   (flat_map (fun d =>
                      [ ConsoleLog [VString (LF ++ "[服务器事件]");
                                    VString "response.text.delta"];
                        StdoutWrite d ]) fragments)).
  { induction H as [|e d events fragments [props [-> [Htype Hdelta]]] _ IH]; [reflexivity|].
    rewrite (for_each_cons_run _ _ _ _ _ _ (StepFun_text_delta props d c Htype Hdelta)).
    rewrite IH. reflexivity. }
  assert (H2 : for_each events (ToolCall.handleServerEvent env) t
               = mkResult (Normal tt) t
                   (flat_map (fun d =>
                      [ConsoleLog [VString "[response.text.delta]"]; StdoutWrite d])
                      fragments)).
  { clear H1.
    induction H as [|e d events fragments [props [-> [Htype Hdelta]]] _ IH]; [reflexivity|].
    rewrite (for_each_cons_run _ _ _ _ _ _ (ToolCall_text_delta env props d t Htype Hdelta)).
    rewrite IH. reflexivity. }
  rewrite H1, H2. cbn [trace]. repeat split.
  - clear. induction fragments as [|d fragments IH]; [reflexivity|].
    cbn [flat_map app]. change (written (?x :: StdoutWrite d :: ?l)) with (d :: written l).
    now rewrite IH.
  - clear. induction fragments as [|d fragments IH]; [reflexivity|].
    cbn [flat_map app]. change (written (?x :: StdoutWrite d :: ?l)) with (d :: written l).
    now rewrite IH.
Qed.

Lemma streamed_text_is_interleaved_witness :
  Forall2 (delta_event "response.text.delta")
    [Samples.text_delta "Hel"; Samples.text_delta "lo"] ["Hel"; "lo"]
  /\ trace (for_each [Samples.text_delta "Hel"; Samples.text_delta "lo"]
              StepFun.handleServerEvent (StepFun.mkClient true))
     = [ ConsoleLog [VString (LF ++ "[服务器事件]"); VString "response.text.delta"];
         StdoutWrite "Hel";
         ConsoleLog [VString (LF ++ "[服务器事件]"); VString "response.text.delta"];
         StdoutWrite "lo" ].
Proof.
  assert (H : Forall2 (delta_event "response.text.delta")
                [Samples.text_delta "Hel"; Samples.text_delta "lo"] ["Hel"; "lo"])
    by (repeat constructor; eexists; repeat split; reflexivity).
  split; [exact H|].
  destruct (streamed_text_is_interleaved Samples.environment _ _ (StepFun.mkClient true)
              ToolCall.new_Client H) as [E _].
  rewrite E. reflexivity.
Defined.

(* ================================================================== *)
(** * The other messages of index.js *)
(* ================================================================== *)

(** X4.  The audio and response messages of index.js.  Each of
    sendAudioChunk, commitAudioBuffer, clearAudioBuffer and createResponse
    passes one message to send: on a connected client exactly one frame
    goes out, and it parses back to the message with the audio text or the
    configuration as given; createResponse without an argument asks for a
    response with an empty configuration.  On a client that is not
    connected nothing goes out. *)
Theorem index_messages_survive_the_wire (base64 : string) config (c : StepFun.Client) :
  plain config = true ->
  map JSON_parse (sent (trace (StepFun.sendAudioChunk (VString base64) c)))
  = (if StepFun.isConnected c
     then [ Normal (VObject [ ("type", VString "input_audio_buffer.append");
                              ("audio", VString base64) ]) ]
     else [])
  /\ map JSON_parse (sent (trace (StepFun.commitAudioBuffer c)))
     = (if StepFun.isConnected c
        then [ Normal (VObject [ ("type", VString "input_audio_buffer.commit") ]) ]
        else [])
  /\ map JSON_parse (sent (trace (StepFun.clearAudioBuffer c)))
     = (if StepFun.isConnected c
        then [ Normal (VObject [ ("type", VString "input_audio_buffer.clear") ]) ]
        else [])
  /\ map JSON_parse (sent (trace (StepFun.createResponse config c)))
     = (if StepFun.isConnected c
        then [ Normal (VObject [ ("type", VString "response.create");
                                 ("response", config) ]) ]
        else [])
  /\ map JSON_parse (sent (trace (StepFun.createResponse VUndefined c)))
     = (if StepFun.isConnected c
        then [ Normal (VObject [ ("type", VString "response.create");
                                 ("response", VObject []) ]) ]
        else []).
Proof.
  intros Hconfig.
  assert (Hdef : match config with
                 | VUndefined => VObject []
                 | _ => config
                 end = config)
    by (destruct config; try reflexivity; discriminate Hconfig).
  assert (Hp : plain (VObject [ ("type", VString "response.create");
                                ("response", config) ]) = true).
  { cbn [plain forallb snd]. rewrite Hconfig. reflexivity. }
  unfold StepFun.sendAudioChunk, StepFun.commitAudioBuffer, StepFun.clearAudioBuffer,
    StepFun.createResponse.
  rewrite Hdef, !StepFun_send_trace. cbn [trace].
  destruct (StepFun.isConnected c); [|repeat split].
  cbn [sent flat_map app map].
  repeat split; f_equal; apply JSON_parse_stringify; try reflexivity.
  exact Hp.
Qed.

Lemma index_messages_survive_the_wire_witness :
  plain (VObject [("modalities", VArray [VString "text"])]) = true
  /\ sent (trace (StepFun.createResponse (VObject [("modalities", VArray [VString "text"])])
                   (StepFun.mkClient true)))
     = [ dq "{'type':'response.create','response':{'modalities':['text']}}" ]
  /\ map JSON_parse
       (sent (trace (StepFun.createResponse (VObject [("modalities", VArray [VString "text"])])
                       (StepFun.mkClient true))))
     = [ Normal StepFun.text_response_request ].
Proof.
  split; [reflexivity|]. split; [reflexivity|].
  destruct (index_messages_survive_the_wire "" (VObject [("modalities", VArray [VString "text"])])
              (StepFun.mkClient true) eq_refl) as [_ [_ [_ [E _]]]].
  exact E.
Defined.

(* ================================================================== *)
(** * Joining the chunks *)
(* ================================================================== *)

(** X16.  The buffer playAudio assembles, for every list of chunks.  If
    each chunk decodes, the array that the copy loop fills holds the
    decoded chunks one after the other, with no gap, no overlap and nothing
    left at zero; copying never writes outside the array, so a RangeError
    cannot occur.  If a chunk does not decode, that failure is the result
    and no array is built. *)
Theorem combine_chunks_is_concat (base64Chunks : list value) :
  Browser.combine_chunks base64Chunks
  = cbind (Browser.decode_chunks base64Chunks) (fun buffers => Normal (concat buffers)).
Proof.
  unfold Browser.combine_chunks.
  destruct (Browser.decode_chunks base64Chunks) as [buffers|e]; [|reflexivity].
  cbn [cbind]. rewrite total_length_concat.
  exact (copy_buffers_concat buffers []).
Qed.

(* ================================================================== *)
(** * From frame to frame *)
(* ================================================================== *)

Lemma text_after_created text :
  text_after text (wire Samples.created) = "".
Proof. reflexivity. Qed.

Lemma text_after_delta text d :
  text_after text (wire (Samples.text_delta d)) = text ++ d.
Proof.
  unfold text_after.
  rewrite (JSON_parse_stringify (Samples.text_delta d)) by reflexivity.
  reflexivity.
Qed.

(** X26.  Text deltas as they come off the socket.  For every list of
    fragments, whatever characters they hold, when the server sends
    response.created and then one response.text.delta frame per fragment,
    each frame being the JSON text of its event, the page never throws and
    the text it has accumulated is the concatenation of the fragments:
    what JSON escapes on the wire (quotes, backslashes, control
    characters) arrives unescaped and complete. *)
Theorem text_frames_accumulate (fragments : list string) (b : Browser.Client) :
  outcome (Browser_receive_all
             (wire Samples.created :: map (fun d => wire (Samples.text_delta d)) fragments) b)
  = Normal tt
  /\ Browser.currentTextResponse
       (final (Browser_receive_all
                 (wire Samples.created
                    :: map (fun d => wire (Samples.text_delta d)) fragments) b))
     = concatenation fragments.
Proof.
  assert (G : forall frames b0,
             outcome (Browser_receive_all frames b0) = Normal tt
             /\ Browser.currentTextResponse (final (Browser_receive_all frames b0))
                = fold_left text_after frames (Browser.currentTextResponse b0)).
  { unfold Browser_receive_all.
    induction frames as [|frame frames IH]; intros b0; [split; reflexivity|].
    cbn [for_each fold_left].
    destruct (onmessage_text frame b0) as [Ho Ht].
    rewrite (bind_normal _ _ _ _ Ho). cbn [prepend outcome final].
    destruct (IH (final (Browser.onmessage frame b0))) as [Ho' Ht'].
    split; [exact Ho'|]. now rewrite Ht', Ht. }
  destruct (G (wire Samples.created :: map (fun d => wire (Samples.text_delta d)) fragments) b)
    as [Ho Ht].
  split; [exact Ho|]. rewrite Ht. cbn [fold_left]. rewrite text_after_created.
  assert (F : forall text,
             fold_left text_after (map (fun d => wire (Samples.text_delta d)) fragments) text
             = text ++ concatenation fragments).
  { clear. induction fragments as [|d fragments IH]; intros text.
    - cbn. now rewrite append_nil_r.
    - cbn [map fold_left concatenation fold_right]. rewrite text_after_delta, IH.
      apply append_assoc. }
  apply F.
Qed.

(** X27.  A weather call from frame to frame.  For every call id and
    every location that is not a member every object inherits, when the
    server sends the response.function_call_arguments.done frame of a
    get_weather call whose arguments are the JSON text of an object with
    that location, a connected client answers with exactly two frames:
    they parse back to the function_call_output item for that call id,
    whose output is the JSON text of the record of the table or of the
    default record, and to the response request. *)
Theorem weather_call_end_to_end env (call_id location : string) :
  Object_prototype_get location = VUndefined ->
  exists record,
    (In (location, record) ToolCall.weatherData
     \/ (own ToolCall.weatherData location = None
         /\ record = ToolCall.weather 18 "未知" 50))
    /\ outcome (ToolCall.on_message env
                  (wire (Samples.arguments_done "get_weather" call_id
                           (wire (VObject [("location", VString location)]))))
                  Samples.connected_tool_client) = Normal tt
    /\ map JSON_parse
         (sent (trace (ToolCall.on_message env
                         (wire (Samples.arguments_done "get_weather" call_id
                                  (wire (VObject [("location", VString location)]))))
                         Samples.connected_tool_client)))
       = [ Normal (VObject
                     [ ("type", VString "conversation.item.create");
                       ("item", VObject
                          [ ("type", VString "function_call_output");
                            ("call_id", VString call_id);
                            ("output", VString (wire record)) ]) ]);
           Normal ToolCall.response_request ]
    /\ JSON_parse (wire record) = Normal record.
Proof.
  intros Hproto.
  set (arguments := wire (VObject [("location", VString location)])).
  set (props := [ ("type", VString "response.function_call_arguments.done");
                  ("name", VString "get_weather");
                  ("call_id", VString call_id);
                  ("arguments", VString arguments) ]).
  assert (Hargs : JSON_parse_value (Get props "arguments")
                  = Normal (VObject [("location", VString location)])).
  { unfold JSON_parse_value. cbn [props Get own String.eqb Ascii.eqb Bool.eqb ToString cbind].
    apply JSON_parse_stringify. reflexivity. }
  destruct (weather_call_answer env props (VObject [("location", VString location)])
              location Samples.connected_tool_client eq_refl Hargs eq_refl Hproto)
    as [record [Hin [Ho [Hs Hj]]]].
  exists record. split; [exact Hin|].
  assert (Hframe : JSON_parse (wire (Samples.arguments_done "get_weather" call_id arguments))
                   = Normal (VObject props))
    by (apply JSON_parse_stringify; reflexivity).
  assert (E : ToolCall.on_message env
                (wire (Samples.arguments_done "get_weather" call_id arguments))
                Samples.connected_tool_client
              = prepend
                  [ ConsoleLog [VString "[response.function_call_arguments.done]"];
                    ConsoleLog [VString "函数调用:"; VString "get_weather"];
                    ConsoleLog [VString "参数:"; VString arguments] ]
                  (ToolCall.handleFunctionCall env (VObject props)
                     Samples.connected_tool_client)).
  { rewrite (on_message_parsed env _ _ _ Hframe).
    unfold ToolCall.handleServerEvent.
    mstep. cbn [member]. mstep. cbn [ToString]. mstep.
    run_switch. mstep. cbn [member]. mstep. reflexivity. }
  rewrite E. cbn [prepend outcome trace app].
  rewrite !sent_cons_other by reflexivity.
  split; [exact Ho|]. split; [|exact Hj].
  rewrite Hs. cbn [on_wire Samples.connected_tool_client ToolCall.isConnected map].
  assert (Hout : JSON_stringify record = Some (wire record)).
  { destruct Hin as [Hin|[_ ->]]; [|reflexivity].
    cbn in Hin. repeat (destruct Hin as [Hin|Hin]; [injection Hin as _ <-; reflexivity|]).
    contradiction. }
  assert (Hshape : ToolCall.tool_result_submission (Get props "call_id") record
                   = VObject
                       [ ("type", VString "conversation.item.create");
                         ("item", VObject
                            [ ("type", VString "function_call_output");
                              ("call_id", VString call_id);
                              ("output", VString (wire record)) ]) ])
    by (unfold ToolCall.tool_result_submission; now rewrite Hout).
  rewrite Hshape. f_equal.
  apply JSON_parse_stringify. reflexivity.
Qed.

Lemma weather_call_end_to_end_witness :
  Object_prototype_get "上海" = VUndefined
  /\ sent (trace (ToolCall.on_message Samples.environment
                    (dq "{'type':'response.function_call_arguments.done','name':'get_weather','call_id':'call_5','arguments':'{\'location\':\'上海\'}'}")
                    Samples.connected_tool_client))
     = [ dq "{'type':'conversation.item.create','item':{'type':'function_call_output','call_id':'call_5','output':'{\'temperature\':20,\'condition\':\'多云\',\'humidity\':60}'}}";
         dq "{'type':'response.create'}" ]
  /\ exists record,
       JSON_parse (wire record) = Normal record
       /\ (In ("上海", record) ToolCall.weatherData
           \/ (own ToolCall.weatherData "上海" = None
               /\ record = ToolCall.weather 18 "未知" 50)).
Proof.
  split; [reflexivity|]. split; [reflexivity|].
  destruct (weather_call_end_to_end Samples.environment "call_5" "上海" eq_refl)
    as [record [Hin [_ [_ Hj]]]].
  exists record. split; [exact Hj|exact Hin].
Defined.

